(** * BrightID node: the data layer of the Foxx service (db.js)

    A shallow embedding of [web_services/foxx/brightid_1.0.0/db.js].

    The ArangoDB collections the module opens are modelled as lists of
    documents in insertion order; an AQL [FOR d IN coll] visits them in that
    order.  Documents saved without a [_key] receive the next value of a
    counter held in the store, which is how the database hands out fresh
    keys.  Strings are sequences of character codes, timestamps and scores
    are integers.  A JavaScript [throw] is the [Throw] result of a small
    state-and-error monad. *)

From Stdlib Require Import ZArith Lia.
From stdpp Require Import base numbers strings list sorting gmap.

(** ** Documents *)

(** An edge document of [connections], [removed], [usersInGroups] or
    [usersInNewGroups]. *)
Record edge := Edge {
  e_key : N;
  e_from : string;
  e_to : string;
  e_timestamp : Z
}.

(** A document of [groups] or [newGroups]. *)
Record group := Group {
  g_key : string;
  g_score : Z;
  g_isNew : bool;
  g_timestamp : Z;
  g_founders : list string
}.

(** A document of [users]. *)
Record user := User {
  u_key : string;
  u_score : Z
}.

(** A document of [contexts]. *)
Record context := Context {
  ctx_key : string;
  ctx_totalSponsorships : Z;
  ctx_collection : string
}.

(** An edge of [sponsorships]: it carries no timestamp. *)
Record sponsorship := Sponsorship {
  sp_key : N;
  sp_from : string;
  sp_to : string
}.

(** A document of a context's account collection. *)
Record link := Link {
  l_key : N;
  l_user : string;
  l_account : string;
  l_timestamp : Z
}.

(** The database. *)
Record store := Store {
  connections : list edge;
  removed : list edge;
  groups : list group;
  newGroups : list group;
  usersInGroups : list edge;
  usersInNewGroups : list edge;
  users : list user;
  contexts : list context;
  sponsorships : list sponsorship;
  next_key : N
}.

Definition empty_store : store :=
  Store [] [] [] [] [] [] [] [] [] 0.

(** The handles [connectionsColl], [removedColl], ... that db.js passes
    around to name an edge collection. *)
Inductive edgeColl :=
| connectionsColl
| removedColl
| usersInGroupsColl
| usersInNewGroupsColl.

Definition coll_get (c : edgeColl) (s : store) : list edge :=
  match c with
  | connectionsColl => connections s
  | removedColl => removed s
  | usersInGroupsColl => usersInGroups s
  | usersInNewGroupsColl => usersInNewGroups s
  end.

Definition coll_set (c : edgeColl) (l : list edge) (s : store) : store :=
  match c with
  | connectionsColl =>
      Store l (removed s) (groups s) (newGroups s) (usersInGroups s)
        (usersInNewGroups s) (users s) (contexts s) (sponsorships s) (next_key s)
  | removedColl =>
      Store (connections s) l (groups s) (newGroups s) (usersInGroups s)
        (usersInNewGroups s) (users s) (contexts s) (sponsorships s) (next_key s)
  | usersInGroupsColl =>
      Store (connections s) (removed s) (groups s) (newGroups s) l
        (usersInNewGroups s) (users s) (contexts s) (sponsorships s) (next_key s)
  | usersInNewGroupsColl =>
      Store (connections s) (removed s) (groups s) (newGroups s) (usersInGroups s)
        l (users s) (contexts s) (sponsorships s) (next_key s)
  end.

Definition set_groups (l : list group) (s : store) : store :=
  Store (connections s) (removed s) l (newGroups s) (usersInGroups s)
    (usersInNewGroups s) (users s) (contexts s) (sponsorships s) (next_key s).

Definition set_newGroups (l : list group) (s : store) : store :=
  Store (connections s) (removed s) (groups s) l (usersInGroups s)
    (usersInNewGroups s) (users s) (contexts s) (sponsorships s) (next_key s).

Definition set_users (l : list user) (s : store) : store :=
  Store (connections s) (removed s) (groups s) (newGroups s) (usersInGroups s)
    (usersInNewGroups s) l (contexts s) (sponsorships s) (next_key s).

Definition set_sponsorships (l : list sponsorship) (s : store) : store :=
  Store (connections s) (removed s) (groups s) (newGroups s) (usersInGroups s)
    (usersInNewGroups s) (users s) (contexts s) l (next_key s).

Definition bump_key (s : store) : store :=
  Store (connections s) (removed s) (groups s) (newGroups s) (usersInGroups s)
    (usersInNewGroups s) (users s) (contexts s) (sponsorships s)
    (N.succ (next_key s)).

(** [INSERT { _from, _to, timestamp } IN collection] and
    [collection.save({ _from, _to, timestamp })]: the new edge gets a fresh
    key. *)
Definition insert_edge (c : edgeColl) (from to : string) (timestamp : Z)
    (s : store) : store :=
  bump_key (coll_set c (coll_get c s ++ [Edge (next_key s) from to timestamp]) s).

(** [REMOVE key IN collection]. *)
Definition remove_key (c : edgeColl) (k : N) (s : store) : store :=
  coll_set c (filter (λ i, e_key i ≠ k) (coll_get c s)) s.

(** ** The monad of the operations: a store threaded through, or a throw *)

Inductive result (A : Type) : Type :=
| Ok (a : A) (s : store)
| Throw (msg : string) (s : store).
Arguments Ok {A} a s.
Arguments Throw {A} msg s.

Definition M (A : Type) : Type := store → result A.

Definition ret {A} (a : A) : M A := λ s, Ok a s.

Definition bind {A B} (m : M A) (f : A → M B) : M B :=
  λ s, match m s with
       | Ok a s' => f a s'
       | Throw msg s' => Throw msg s'
       end.

Definition throw {A} (msg : string) : M A := λ s, Throw msg s.

(** A read-only query. *)
Definition gets {A} (f : store → A) : M A := λ s, Ok (f s) s.

(** A write. *)
Definition modify (f : store → store) : M unit := λ s, Ok tt (f s).

#[global] Instance M_ret : MRet M := @ret.
#[global] Instance M_bind : MBind M := λ A B f m, bind m f.

(** The store an operation leaves behind, thrown or not. *)
Definition store_of {A} (r : result A) : store :=
  match r with Ok _ s => s | Throw _ s => s end.

Definition is_ok {A} (r : result A) : bool :=
  match r with Ok _ _ => true | Throw _ _ => false end.

(** ** JavaScript and AQL library functions *)

(** [s.replace(pat, rep)] with a string pattern: the first occurrence only. *)
Fixpoint replace (pat rep s : string) : string :=
  if String.prefix pat s
  then rep +:+ String.substring (String.length pat) (String.length s) s
  else match s with
       | EmptyString => EmptyString
       | String c s' => String c (replace pat rep s')
       end.

(** [l.indexOf(x)], [-1] when absent. *)
Definition indexOf (l : list string) (x : string) : Z :=
  match list_find (λ y, y = x) l with
  | Some (i, _) => Z.of_nat i
  | None => (-1)%Z
  end.

(** lodash [_.intersection(a, b)]: the values of [a], each once and in order
    of first appearance, that [b] includes. *)
Definition intersection (a b : list string) : list string :=
  foldl (λ result value,
           if decide (value ∈ b ∧ value ∉ result)
           then result ++ [value] else result) [] a.

(** AQL [RETURN DISTINCT]: each value once, in the order of first
    appearance. *)
Fixpoint DISTINCT (l : list string) : list string :=
  match l with
  | [] => []
  | v :: l => v :: filter (λ x, x ≠ v) (DISTINCT l)
  end.

(** AQL [UNION_DISTINCT]. *)
Definition UNION_DISTINCT (l1 l2 : list string) : list string :=
  remove_dups (l1 ++ l2).

(** AQL [COLLECT v = ... WITH COUNT INTO count]: every distinct value with
    the number of rows that carry it. *)
Definition COLLECT_COUNT (l : list string) : list (string * nat) :=
  (λ v, (v, length (filter (λ x, x = v) l))) <$> remove_dups l.

(** [SORT i.timestamp DESC] on edges. *)
Definition ts_desc (x y : edge) : Prop := (e_timestamp y ≤ e_timestamp x)%Z.

#[global] Instance ts_desc_dec x y : Decision (ts_desc x y).
Proof. unfold ts_desc. apply _. Defined.

(** [SORT count DESC] on collected rows. *)
Definition count_desc (x y : string * nat) : Prop := y.2 ≤ x.2.

#[global] Instance count_desc_dec x y : Decision (count_desc x y).
Proof. unfold count_desc. apply _. Defined.

(** [Array.prototype.sort()] on strings: ascending by character codes. *)
Definition str_le (x y : string) : Prop := String.leb x y = true.

#[global] Instance str_le_dec x y : Decision (str_le x y).
Proof. unfold str_le. apply _. Defined.

Definition sort_strings (l : list string) : list string :=
  merge_sort str_le l.

(** ** Queries of db.js *)

(** The key and timestamp that [allEdges] returns for an edge. *)
Record keyts := KeyTs {
  kt_key : N;
  kt_timestamp : Z
}.

(** The filter of [allEdges]: the edge joins [user1] and [user2], in either
    direction. *)
Definition joins (user1 user2 : string) (i : edge) : Prop :=
  (e_from i = user1 ∧ e_to i = user2) ∨ (e_from i = user2 ∧ e_to i = user1).

#[global] Instance joins_dec user1 user2 i : Decision (joins user1 user2 i).
Proof. unfold joins. apply _. Defined.

Definition allEdges (collection : list edge) (user1 user2 : string)
    : list keyts :=
  (λ i, KeyTs (e_key i) (e_timestamp i))
    <$> merge_sort ts_desc (filter (joins user1 user2) collection).

Definition removeByKeys (c : edgeColl) (keys : list N) (s : store) : store :=
  coll_set c (filter (λ i, e_key i ∉ keys) (coll_get c s)) s.

Definition userConnectionsRaw (user : string) (s : store) : list string :=
  let user := "users/" +:+ user in
  let userConnections1 :=
    e_to <$> filter (λ c, e_from c = user) (connections s) in
  let userConnections2 :=
    e_from <$> filter (λ c, e_to c = user) (connections s) in
  UNION_DISTINCT userConnections1 userConnections2.

Definition userConnections (user : string) (s : store) : list string :=
  (λ u, replace "users/" "" u) <$> userConnectionsRaw user s.

Definition groupMembers (groupId : string) (isNew : bool) (s : store)
    : list string :=
  let '(key, collection) :=
    if isNew then ("newGroups/" +:+ groupId, usersInNewGroups s)
    else ("groups/" +:+ groupId, usersInGroups s) in
  (λ m, replace "users/" "" m)
    <$> DISTINCT (e_from <$> filter (λ i, e_to i = key) collection).

Definition isEligible (groupId userId : string) (s : store) : bool :=
  let userCons := userConnections userId s in
  let groupMems := groupMembers groupId false s in
  let count := length (intersection userCons groupMems) in
  bool_decide (length groupMems < count * 2).

(** What the service returns for a group. *)
Record groupDic := GroupDic {
  gd_isNew : bool;
  gd_score : Z;
  gd_id : string;
  gd_knownMembers : list string;
  gd_founders : list string
}.

(** [groupToDic]: [knownMembers] is the attribute of that name that
    [loadGroups] merges into the document; it is read for a group that is
    not new. *)
Definition groupToDic (group : group) (knownMembers : list string)
    (s : store) : groupDic :=
  let founders := (λ u, replace "users/" "" u) <$> g_founders group in
  let knownMembers :=
    if g_isNew group then groupMembers (g_key group) (g_isNew group) s
    else (λ m, replace "users/" "" m) <$> knownMembers in
  GroupDic (g_isNew group) (g_score group) (g_key group) knownMembers founders.

(** [_id] of a document of [groups]. *)
Definition group_id (g : group) : string := "groups/" +:+ g_key g.

Definition loadGroups (groupIds connections : list string) (myUserId : string)
    (s : store) : list groupDic :=
  let me := "users/" +:+ myUserId in
  (λ g,
     let members :=
       DISTINCT (take 3 (e_from <$>
         filter (λ m, e_to m = group_id g ∧ e_from m ∈ connections)
           (usersInGroups s))) in
     let me :=
       take 1 (e_from <$>
         filter (λ m, e_to m = group_id g ∧ e_from m = me) (usersInGroups s)) in
     groupToDic g (members ++ me) s)
  <$> filter (λ g, group_id g ∈ groupIds) (groups s).

(** The first query of [userEligibleGroups]. *)
Definition candidates (connections currentGroups : list string) (s : store)
    : list (string * nat) :=
  merge_sort count_desc
    (filter (λ row, 2 ≤ row.2)
       (COLLECT_COUNT
          (e_to <$> filter (λ edge, e_from edge ∈ connections
                                    ∧ e_to edge ∉ currentGroups)
                      (usersInGroups s)))).

(** The second query of [userEligibleGroups]. *)
Definition groupCounts (groupIds : list string) (s : store)
    : list (string * nat) :=
  COLLECT_COUNT (e_to <$> filter (λ ug, e_to ug ∈ groupIds) (usersInGroups s)).

(** The test [g.count * 2 > groupCountsDic[g.group]]; a group missing from
    the dictionary reads [undefined], and the comparison is false. *)
Definition over_half (groupCountsDic : gmap string nat) (g : string * nat)
    : bool :=
  match groupCountsDic !! g.1 with
  | Some n => bool_decide (n < g.2 * 2)
  | None => false
  end.

Definition eligibles (connections currentGroups : list string) (s : store)
    : list string :=
  let candidates := candidates connections currentGroups s in
  let groupIds := fst <$> candidates in
  let groupCounts := groupCounts groupIds s in
  let groupCountsDic : gmap string nat :=
    foldl (λ dic row, <[row.1 := row.2]> dic) ∅ groupCounts in
  fst <$> filter (λ g, over_half groupCountsDic g) candidates.

Definition userEligibleGroups (userId : string)
    (connections currentGroups : list string) (s : store) : list groupDic :=
  loadGroups (eligibles connections currentGroups s) connections userId s.

Definition userNewGroups (userId : string) (s : store) : list groupDic :=
  let user := "users/" +:+ userId in
  (λ g, groupToDic g [] s) <$> filter (λ g, user ∈ g_founders g) (newGroups s).

Definition userCurrentGroups (userId : string) (s : store) : list string :=
  let user := "users/" +:+ userId in
  DISTINCT (e_to <$> filter (λ ug, e_from ug = user) (usersInGroups s)).

(** [DOCUMENT(users, id)]: the document or [null]. *)
Definition loadUser (id : string) (s : store) : option user :=
  head (filter (λ u, u_key u = id) (users s)).

(** ** Operations of db.js *)

(** The guard of [updateAndCleanConnections] for one kind:
    [! found.length || timestamp > found[0].timestamp]. *)
Definition newer_than (timestamp : Z) (found : list keyts) : bool :=
  match found with
  | [] => true
  | first :: _ => bool_decide (kt_timestamp first < timestamp)%Z
  end.

Definition nonempty {A} (l : list A) : bool :=
  match l with [] => false | _ :: _ => true end.

Definition updateAndCleanConnections (collection : edgeColl)
    (key1 key2 : string) (timestamp : Z) : M unit :=
  let user1 := "users/" +:+ key1 in
  let user2 := "users/" +:+ key2 in
  added ← gets (λ s, allEdges (connections s) user1 user2);
  removed ← gets (λ s, allEdges (removed s) user1 user2);
  if newer_than timestamp added && newer_than timestamp removed then
    modify (insert_edge collection user1 user2 timestamp);;
    (if nonempty added
     then modify (removeByKeys connectionsColl (kt_key <$> added))
     else mret tt);;
    (if nonempty removed
     then modify (removeByKeys removedColl (kt_key <$> removed))
     else mret tt)
  else mret tt.

Definition addConnection (key1 key2 : string) (timestamp : Z) : M unit :=
  updateAndCleanConnections connectionsColl key1 key2 timestamp.

Definition removeConnection (key1 key2 : string) (timestamp : Z) : M unit :=
  updateAndCleanConnections removedColl key1 key2 timestamp.

(** What [createUser] returns. *)
Record userDic := UserDic {
  ud_key : string;
  ud_score : Z
}.

(** [createUser]: the branch taken when the user exists reads [currents],
    a name that is bound nowhere, so evaluating it throws. *)
Definition createUser (key : string) : M userDic :=
  user ← gets (loadUser key);
  match user with
  | Some _ => throw "ReferenceError: currents is not defined"
  | None =>
      modify (λ s, set_users (users s ++ [User key 0]) s);;
      mret (UserDic key 0)
  end.

(** The inner function of [createGroup], with the three founders it
    closes over. *)
Definition isDuplicate (user1 user2 user3 : string) (collection : list group)
    : bool :=
  bool_decide
    (0 < length (take 1 (filter (λ i, user1 ∈ g_founders i
                                      ∧ user2 ∈ g_founders i
                                      ∧ user3 ∈ g_founders i) collection))).

(** [newGroupsColl.save(doc)] with an explicit [_key]: the store refuses a
    key that is taken.  The metadata that [save] returns, of which the
    callers read [_key], is the saved document here. *)
Definition save_newGroup (doc : group) : M group :=
  λ s, if decide (g_key doc ∈ g_key <$> newGroups s)
       then Throw "unique constraint violated" s
       else Ok doc (set_newGroups (newGroups s ++ [doc]) s).

Definition addUserToGroup (collection : edgeColl) (groupId key : string)
    (timestamp : Z) (groupCollName : string) : M unit :=
  let user := "users/" +:+ key in
  let group := (groupCollName +:+ "/") +:+ groupId in
  modify (insert_edge collection user group timestamp).

(** [createGroup]; [randomId] is the value of
    [safe(randomBytes(9).toString('base64'))] drawn by the call. *)
Definition createGroup (key1 key2 key3 : string) (timestamp : Z)
    (randomId : string) : M group :=
  let user1 := "users/" +:+ key1 in
  let user2 := "users/" +:+ key2 in
  let user3 := "users/" +:+ key3 in
  let founders := sort_strings [user1; user2; user3] in
  dupNew ← gets (λ s, isDuplicate user1 user2 user3 (newGroups s));
  dupOld ← gets (λ s, isDuplicate user1 user2 user3 (groups s));
  if dupNew || dupOld then throw "Duplicate group" else
  conns ← gets (userConnections key1);
  if bool_decide (indexOf conns key2 < 0)%Z
     || bool_decide (indexOf conns key3 < 0)%Z
  then throw "Creator isn't connected to one or both of the co-founders" else
  let groupId := randomId in
  ret ← save_newGroup (Group groupId 0 true timestamp founders);
  addUserToGroup usersInNewGroupsColl (g_key ret) key1 timestamp "newGroups";;
  mret ret.

(** [REMOVE key IN newGroups]. *)
Definition remove_newGroup (k : string) (s : store) : store :=
  set_newGroups (filter (λ i, g_key i ≠ k) (newGroups s)) s.

Definition deleteGroup (groupId key : string) (timestamp : Z) : M unit :=
  found ← gets (λ s, filter (λ i, g_key i = groupId) (newGroups s));
  match found with
  | [] => throw "Group not found"
  | group :: _ =>
      if bool_decide (indexOf (g_founders group) ("users/" +:+ key) < 0)%Z
      then throw "Access Denied" else
      let newGroup := "newGroups/" +:+ groupId in
      modify (λ s, coll_set usersInNewGroupsColl
                     (filter (λ i, e_to i ≠ newGroup) (usersInNewGroups s)) s);;
      modify (remove_newGroup (g_key group))
  end.

(** [[...new Set(l)]]: each value once, in order of first appearance. *)
Definition new_Set (l : list string) : list string :=
  foldl (λ set value, if decide (value ∈ set) then set else set ++ [value])
    [] l.

(** The body of the loop of [addMembership] that moves one membership of a
    new group to [usersInGroups]. *)
Definition move_membership (s : store) (doc : edge) : store :=
  remove_key usersInNewGroupsColl (e_key doc)
    (insert_edge usersInGroupsColl (e_from doc)
       (replace "newGroups" "groups" (e_to doc)) (e_timestamp doc) s).

Definition addMembership (groupId key : string) (timestamp : Z) : M unit :=
  groups0 ← gets (λ s, filter (λ i, g_key i = groupId) (groups s));
  let user := "users/" +:+ key in
  '(isNew, found) ←
    (if nonempty groups0 then mret (false, groups0)
     else groups1 ← gets (λ s, filter (λ i, g_key i = groupId) (newGroups s));
          mret (true, groups1));
  match found with
  | [] => throw "Group not found"
  | group :: _ =>
      if isNew && bool_decide (indexOf (g_founders group) user < 0)%Z
      then throw "Access denied" else
      if isNew then
        addUserToGroup usersInNewGroupsColl groupId key timestamp "newGroups";;
        let grp := "newGroups/" +:+ groupId in
        groupMemberDocs ←
          gets (λ s, filter (λ i, e_to i = grp) (usersInNewGroups s));
        let memberIds := new_Set (e_from <$> groupMemberDocs) in
        if bool_decide (length memberIds = length (g_founders group)) then
          modify (λ s, set_groups
                         (groups s ++ [Group (g_key group) 0 false
                                         (g_timestamp group) (g_founders group)])
                         s);;
          modify (λ s, foldl move_membership s groupMemberDocs);;
          modify (remove_newGroup (g_key group))
        else mret tt
      else
        eligible ← gets (isEligible groupId key);
        if eligible : bool
        then addUserToGroup usersInGroupsColl groupId key timestamp "groups"
        else throw "Not eligible to join this group"
  end.

Definition deleteMembership (groupId key : string) (timestamp : Z) : M unit :=
  let user := "users/" +:+ key in
  let group := "groups/" +:+ groupId in
  modify (λ s, coll_set usersInGroupsColl
                 (filter (λ i, ¬ (e_to i = group ∧ e_from i = user))
                    (usersInGroups s)) s).

(** What [getContext] returns: the document and [unusedSponsorships]. *)
Record contextDic := ContextDic {
  cd_context : context;
  cd_unusedSponsorships : Z
}.

Definition getContext (context : string) : M contextDic :=
  res ← gets (λ s, head (filter (λ c, ctx_key c = context) (contexts s)));
  let context := "contexts/" +:+ context in
  usedSponsorships ←
    gets (λ s, length (filter (λ sp, sp_to sp = context) (sponsorships s)));
  match res with
  | None => throw "TypeError: cannot set property of null"
  | Some res =>
      mret (ContextDic res
              (ctx_totalSponsorships res - Z.of_nat usedSponsorships)%Z)
  end.

Definition isSponsored (key : string) (s : store) : bool :=
  bool_decide
    (0 < length (take 1 (filter (λ sp, sp_from sp = "users/" +:+ key)
                           (sponsorships s)))).

Definition sponsor (key context : string) : M unit :=
  let key := "users/" +:+ key in
  let context := "contexts/" +:+ context in
  modify (λ s, bump_key
                 (set_sponsorships
                    (sponsorships s ++ [Sponsorship (next_key s) key context])
                    s)).

(** [SORT m.timestamp DESC] on account links. *)
Definition link_desc (x y : link) : Prop := (l_timestamp y ≤ l_timestamp x)%Z.

#[global] Instance link_desc_dec x y : Decision (link_desc x y).
Proof. unfold link_desc. apply _. Defined.

(** The subquery [latest] of [revocableIds]: the key of the newest link of
    a user. *)
Definition latest (collection : list link) (user : string) : list N :=
  take 1 (l_key <$> merge_sort link_desc
                      (filter (λ u3, l_user u3 = user) collection)).

(** The subquery [inUse] of [revocableIds]. *)
Definition inUse (collection : list link) (u : link) : list nat :=
  take 1 ((λ _, 1) <$>
    filter (λ u2, l_account u2 = l_account u
                  ∧ l_user u2 ≠ l_user u
                  ∧ head (latest collection (l_user u2)) = Some (l_key u2))
      collection).

Definition revocableIds (collection : list link) (id user : string)
    : list string :=
  l_account <$>
    filter (λ u, l_account u ≠ id ∧ l_user u = user
                 ∧ length (inUse collection u) = 0)
      collection.

(** ** The connection ledger as a register *)

(** The two kinds of record the ledger keeps for a pair: a [connections]
    edge or a [removed] edge. *)
Inductive kind :=
| ConnectionEdge
| RemovalEdge.

#[global] Instance kind_eq_dec : EqDecision kind.
Proof. solve_decision. Defined.

Definition kind_coll (k : kind) : edgeColl :=
  match k with
  | ConnectionEdge => connectionsColl
  | RemovalEdge => removedColl
  end.

(** A call of [addConnection] or [removeConnection]. *)
Record call := Call {
  c_kind : kind;
  c_key1 : string;
  c_key2 : string;
  c_timestamp : Z
}.

Definition perform (c : call) : M unit :=
  match c_kind c with
  | ConnectionEdge => addConnection (c_key1 c) (c_key2 c) (c_timestamp c)
  | RemovalEdge => removeConnection (c_key1 c) (c_key2 c) (c_timestamp c)
  end.

(** The store after a sequence of calls, made one after the other. *)
Definition settle (calls : list call) (s : store) : store :=
  foldl (λ s c, store_of (perform c s)) s calls.

(** The call is about the unordered pair [(a, b)]. *)
Definition for_pair (a b : string) (c : call) : Prop :=
  (c_key1 c = a ∧ c_key2 c = b) ∨ (c_key1 c = b ∧ c_key2 c = a).

#[global] Instance for_pair_dec a b c : Decision (for_pair a b c).
Proof. unfold for_pair. apply _. Defined.

(** The records of a collection for the pair. *)
Definition pair_edges (a b : string) (l : list edge) : list edge :=
  filter (joins ("users/" +:+ a) ("users/" +:+ b)) l.

(** The live records of the pair: kind and timestamp of every record of
    either collection. *)
Definition live (a b : string) (s : store) : list (kind * Z) :=
  ((λ e, (ConnectionEdge, e_timestamp e)) <$> pair_edges a b (connections s))
  ++ ((λ e, (RemovalEdge, e_timestamp e)) <$> pair_edges a b (removed s)).

(** The timestamp of the most recent record of a list, if it has one. *)
Definition most_recent (l : list edge) : option Z :=
  foldr (λ e acc, Some (match acc with
                        | None => e_timestamp e
                        | Some m => Z.max (e_timestamp e) m
                        end)) None l.

(** [t] is strictly greater than the most recent timestamp, vacuously when
    there is none. *)
Definition newer (t : Z) (o : option Z) : Prop :=
  match o with
  | None => True
  | Some m => (m < t)%Z
  end.

(** A call is acceptable in a store when its timestamp is newer than the
    most recent record of each kind for its pair. *)
Definition acceptable (c : call) (s : store) : Prop :=
  newer (c_timestamp c)
    (most_recent (pair_edges (c_key1 c) (c_key2 c) (connections s)))
  ∧ newer (c_timestamp c)
      (most_recent (pair_edges (c_key1 c) (c_key2 c) (removed s))).

(** The call with the globally maximum timestamp, the earliest one when
    several carry it. *)
Definition later_wins (w : option call) (c : call) : option call :=
  match w with
  | None => Some c
  | Some c0 =>
      if bool_decide (c_timestamp c0 < c_timestamp c)%Z
      then Some c else Some c0
  end.

Definition winner (calls : list call) : option call :=
  foldl later_wins None calls.

(** The register a pair's records amount to: nothing, or one record of the
    kind and timestamp of a call. *)
Definition register (w : option call) : list (kind * Z) :=
  match w with
  | None => []
  | Some c => [(c_kind c, c_timestamp c)]
  end.

(** [c] carries the maximum timestamp of [calls]. *)
Definition top (calls : list call) (c : call) : Prop :=
  c ∈ calls ∧ ∀ c', c' ∈ calls → (c_timestamp c' ≤ c_timestamp c)%Z.

Definition other_kind (k : kind) : kind :=
  match k with
  | ConnectionEdge => RemovalEdge
  | RemovalEdge => ConnectionEdge
  end.

(** Keys of the ledger's edges are unique in their collection and below
    the counter: what the database guarantees for generated keys. *)
Definition keys_ok (s : store) : Prop :=
  NoDup (e_key <$> connections s)
  ∧ NoDup (e_key <$> removed s)
  ∧ (∀ e, e ∈ connections s ++ removed s → (e_key e < next_key s)%N).

(** A ledger where the pair [(a, b)] has more than one record: two
    [connections] records, of timestamps 5 and 9 with the older one first,
    and a [removed] record of timestamp 3; the pair [(a, c)] has one
    [connections] record. *)
Definition several_records : store :=
  Store [Edge 0 "users/a" "users/b" 5; Edge 1 "users/b" "users/a" 9;
         Edge 2 "users/a" "users/c" 4]
        [Edge 3 "users/a" "users/b" 3]
        [] [] [] [] [] [] [] 4.

(** The code of [updateAndCleanConnections], as one state transformer. *)
Definition clean (collection : edgeColl) (user1 user2 : string)
    (timestamp : Z) (s : store) : store :=
  removeByKeys removedColl (kt_key <$> allEdges (removed s) user1 user2)
    (removeByKeys connectionsColl
       (kt_key <$> allEdges (connections s) user1 user2)
       (insert_edge collection user1 user2 timestamp s)).

(** ** Eligibility, in terms of sets *)

(** The identifier names a user: it is ["users/"] followed by a key. *)
Definition is_user (id : string) : Prop := ∃ key, id = "users/" +:+ key.

(** [x] is a connection of [user]: a [connections] edge joins them. *)
Definition connected (user x : string) (s : store) : Prop :=
  ∃ c, c ∈ connections s ∧ joins ("users/" +:+ user) ("users/" +:+ x) c.

(** [x] is a member of the established group [groupId]. *)
Definition member_of (groupId x : string) (s : store) : Prop :=
  ∃ m, m ∈ usersInGroups s
       ∧ e_from m = "users/" +:+ x ∧ e_to m = "groups/" +:+ groupId.

(** The endpoints of the edges the code strips of ["users/"] are user
    identifiers. *)
Definition user_ids_ok (s : store) : Prop :=
  (∀ c, c ∈ connections s → is_user (e_from c) ∧ is_user (e_to c))
  ∧ (∀ m, m ∈ usersInGroups s → is_user (e_from m))
  ∧ (∀ m, m ∈ usersInNewGroups s → is_user (e_from m)).

Definition connection_set (user : string) (s : store) : gset string :=
  list_to_set (userConnections user s).

Definition member_set (groupId : string) (s : store) : gset string :=
  list_to_set (groupMembers groupId false s).

(** The boolean form of [user_ids_ok], to check a given store. *)
Definition user_ids_okb (s : store) : bool :=
  forallb (λ c, String.prefix "users/" (e_from c)
                && String.prefix "users/" (e_to c)) (connections s)
  && forallb (λ m, String.prefix "users/" (e_from m)) (usersInGroups s)
  && forallb (λ m, String.prefix "users/" (e_from m)) (usersInNewGroups s).

(** ** Sponsorships *)

(** The sponsorship edges of a context. *)
Definition sponsorships_of (context : string) (s : store) : list sponsorship :=
  filter (λ sp, sp_to sp = "contexts/" +:+ context) (sponsorships s).

(** A group of four members; [u] is connected to two of them and [v] to
    three. *)
Definition four_members : store :=
  Store
    [Edge 0 "users/u" "users/m1" 1; Edge 1 "users/m2" "users/u" 2;
     Edge 2 "users/v" "users/m1" 3; Edge 3 "users/v" "users/m2" 4;
     Edge 4 "users/m3" "users/v" 5]
    []
    [Group "G" 0 false 0 ["users/m1"; "users/m2"; "users/m3"]]
    []
    [Edge 5 "users/m1" "groups/G" 6; Edge 6 "users/m2" "groups/G" 7;
     Edge 7 "users/m3" "groups/G" 8; Edge 8 "users/m4" "groups/G" 9]
    [] [] [] [] 9.

(** ** The operations as a transition system *)

(** A request to the data layer. *)
Inductive op :=
| OpAddConnection (key1 key2 : string) (timestamp : Z)
| OpRemoveConnection (key1 key2 : string) (timestamp : Z)
| OpCreateUser (key : string)
| OpCreateGroup (key1 key2 key3 : string) (timestamp : Z) (randomId : string)
| OpDeleteGroup (groupId key : string) (timestamp : Z)
| OpAddMembership (groupId key : string) (timestamp : Z)
| OpDeleteMembership (groupId key : string) (timestamp : Z)
| OpSponsor (key context : string).

(** The store a request leaves behind. *)
Definition exec (s : store) (o : op) : store :=
  match o with
  | OpAddConnection key1 key2 timestamp =>
      store_of (addConnection key1 key2 timestamp s)
  | OpRemoveConnection key1 key2 timestamp =>
      store_of (removeConnection key1 key2 timestamp s)
  | OpCreateUser key => store_of (createUser key s)
  | OpCreateGroup key1 key2 key3 timestamp randomId =>
      store_of (createGroup key1 key2 key3 timestamp randomId s)
  | OpDeleteGroup groupId key timestamp =>
      store_of (deleteGroup groupId key timestamp s)
  | OpAddMembership groupId key timestamp =>
      store_of (addMembership groupId key timestamp s)
  | OpDeleteMembership groupId key timestamp =>
      store_of (deleteMembership groupId key timestamp s)
  | OpSponsor key context => store_of (sponsor key context s)
  end.

(** The store after a sequence of requests. *)
Definition run (ops : list op) (s : store) : store := foldl exec s ops.

(** What holds of the collections of new groups: keys are unique, a new
    group has score 0 and three founders, and every membership of a new
    group is a founder's and points to a group that exists. *)
Definition forming_ok (s : store) : Prop :=
  NoDup (g_key <$> newGroups s)
  ∧ (∀ g, g ∈ newGroups s →
          g_score g = 0%Z ∧ g_isNew g = true ∧ length (g_founders g) = 3)
  ∧ (∀ m, m ∈ usersInNewGroups s →
          ∃ g, g ∈ newGroups s
               ∧ e_to m = "newGroups/" +:+ g_key g
               ∧ e_from m ∈ g_founders g).

(** The invariant of the store. *)
Definition wf (s : store) : Prop :=
  keys_ok s ∧ user_ids_ok s ∧ forming_ok s.

(** The established memberships that the promotion of a new group writes
    for the memberships [docs], with keys from [k] on. *)
Fixpoint moved (k : N) (docs : list edge) : list edge :=
  match docs with
  | [] => []
  | doc :: docs =>
      Edge k (e_from doc) (replace "newGroups" "groups" (e_to doc))
        (e_timestamp doc) :: moved (N.succ k) docs
  end.

(** The memberships of the new group [groupId]. *)
Definition forming_edges (groupId : string) (s : store) : list edge :=
  filter (λ i, e_to i = "newGroups/" +:+ groupId) (usersInNewGroups s).

(** The memberships of the established group [groupId]. *)
Definition established_edges (groupId : string) (s : store) : list edge :=
  filter (λ i, e_to i = "groups/" +:+ groupId) (usersInGroups s).

(** User and timestamp of a membership. *)
Definition who_when (m : edge) : string * Z := (e_from m, e_timestamp m).

(** The store after the join of a founder of a new group. *)
Definition joined (groupId key : string) (timestamp : Z) (s : store) : store :=
  insert_edge usersInNewGroupsColl ("users/" +:+ key)
    ("newGroups/" +:+ groupId) timestamp s.

(** The promotion of the new group [group], with memberships [docs]. *)
Definition promoted (group : group) (docs : list edge) (s : store) : store :=
  remove_newGroup (g_key group)
    (foldl move_membership
       (set_groups (groups s ++ [Group (g_key group) 0 false
                                   (g_timestamp group) (g_founders group)]) s)
       docs).

(** The founders that have joined the new group [groupId]. *)
Definition joined_founders (groupId : string) (s : store) : gset string :=
  list_to_set (e_from <$> forming_edges groupId s).

(** A store reached by requests: [a] is connected to [b] and [c], has
    created the group [G1] with them, and [b] has joined. *)
Definition two_joined : store :=
  run [OpAddConnection "a" "b" 1; OpAddConnection "c" "a" 2;
       OpCreateGroup "a" "b" "c" 3 "G1"; OpAddMembership "G1" "b" 4]
    empty_store.

(** Some group of the collection lists each of the three founders. *)
Definition lists_founders (user1 user2 user3 : string)
    (collection : list group) : Prop :=
  ∃ g, g ∈ collection
       ∧ user1 ∈ g_founders g ∧ user2 ∈ g_founders g ∧ user3 ∈ g_founders g.

(** Some group of the collection has the three founders, in some order. *)
Definition same_founders (user1 user2 user3 : string)
    (collection : list group) : Prop :=
  ∃ g, g ∈ collection ∧ g_founders g ≡ₚ [user1; user2; user3].

(** A store reached by requests: [a] is connected to [b] and [c] and has
    created the group [G1] with them. *)
Definition one_group : store :=
  run [OpAddConnection "a" "b" 1; OpAddConnection "c" "a" 2;
       OpCreateGroup "a" "b" "c" 3 "G1"]
    empty_store.

(** A store reached by requests: [a] is connected to [b] and [c]. *)
Definition connected_abc : store :=
  run [OpAddConnection "a" "b" 1; OpAddConnection "c" "a" 2] empty_store.

(** Every established group has three founders. *)
Definition groups_ok (s : store) : Prop :=
  ∀ g, g ∈ groups s → length (g_founders g) = 3.

(** No two memberships of the collection are of the same user in the same
    group. *)
Definition one_edge_per_pair (l : list edge) : Prop :=
  NoDup ((λ m, (e_from m, e_to m)) <$> l).

(** ** Discovery of eligible groups, in terms of counts *)

(** The number of memberships of the group [gid] held by a user of
    [connections]. *)
Definition matching (connections : list string) (gid : string) (s : store)
    : nat :=
  length (filter (λ m, e_from m ∈ connections ∧ e_to m = gid)
            (usersInGroups s)).

(** The number of memberships of the group [gid]. *)
Definition total (gid : string) (s : store) : nat :=
  length (filter (λ m, e_to m = gid) (usersInGroups s)).

(** A store reached by requests: [a], connected to [b], [c] and [u], has
    created the group [G1] with [b] and [c] and joined it twice more
    before [b] and [c] joined. *)
Definition thrice_joined : store :=
  run [OpAddConnection "a" "b" 1; OpAddConnection "c" "a" 2;
       OpAddConnection "u" "a" 3; OpCreateGroup "a" "b" "c" 4 "G1";
       OpAddMembership "G1" "a" 5; OpAddMembership "G1" "a" 6;
       OpAddMembership "G1" "b" 7; OpAddMembership "G1" "c" 8]
    empty_store.

(** ** Account links *)

#[global] Instance link_eq_dec : EqDecision link.
Proof. solve_decision. Defined.




(** The user has linked the account. *)
Definition linked (collection : list link) (user account : string) : Prop :=
  ∃ l, l ∈ collection ∧ l_user l = user ∧ l_account l = account.

(** [U] linked [X] and then [Y]; [V] linked [X] and then [Z]. *)
Definition links_moved_on : list link :=
  [Link 1 "U" "X" 1; Link 2 "U" "Y" 2; Link 3 "V" "X" 1; Link 4 "V" "Z" 3].

(** [U] linked [X] and then [Y]; [V] links [X]. *)
Definition links_relied_on : list link :=
  [Link 1 "U" "X" 1; Link 2 "U" "Y" 2; Link 3 "V" "X" 1].

(** Case analysis on membership in a list that is written out. *)
Ltac in_cases H :=
  repeat (apply elem_of_cons in H as [H|H]; [subst|]);
  try (by apply not_elem_of_nil in H).

(** A store reached by requests: [m1] has created the group [G1] with
    [m2] and [m9] and then the group [G2] with [m2] and [m3], and the
    founders have joined, so that both groups are established; [v] is
    connected to [m1], [m2] and [m3]. *)
Definition two_groups : store :=
  run [OpAddConnection "m1" "m2" 1; OpAddConnection "m1" "m9" 2;
       OpAddConnection "m1" "m3" 3; OpAddConnection "v" "m1" 4;
       OpAddConnection "v" "m2" 5; OpAddConnection "v" "m3" 6;
       OpCreateGroup "m1" "m2" "m9" 7 "G1";
       OpAddMembership "G1" "m2" 8; OpAddMembership "G1" "m9" 9;
       OpCreateGroup "m1" "m2" "m3" 10 "G2";
       OpAddMembership "G2" "m2" 11; OpAddMembership "G2" "m3" 12]
    empty_store.

(** ** More queries of db.js *)

(** [_id] of a document of [users]. *)
Definition user_id (u : user) : string := "users/" +:+ u_key u.

Definition loadUsers (ids : list string) (s : store) : list userDic :=
  (λ u, UserDic (user_id u) (u_score u))
    <$> filter (λ u, user_id u ∈ ids) (users s).

(** [userScore]: the score or [undefined]. *)
Definition userScore (key : string) (s : store) : option Z :=
  head (u_score <$> filter (λ u, u_key u = key) (users s)).

(** [latestVerificationByUser]: the timestamp of the user's newest link or
    [undefined]. *)
Definition latestVerificationByUser (collection : list link) (user : string)
    : option Z :=
  head (take 1 (l_timestamp <$>
                  merge_sort link_desc
                    (filter (λ m, l_user m = user) collection))).

(** The [update] branch of the [upsert] of [addId]: the first document
    that matches gets the timestamp. *)
Fixpoint set_timestamp (user id : string) (timestamp : Z)
    (collection : list link) : list link :=
  match collection with
  | [] => []
  | m :: collection =>
      if decide (l_user m = user ∧ l_account m = id)
      then Link (l_key m) (l_user m) (l_account m) timestamp :: collection
      else m :: set_timestamp user id timestamp collection
  end.

(** [addId]; [newKey] is the key the store generates when the [upsert]
    inserts. *)
Definition addId (collection : list link) (newKey : N) (id user : string)
    (timestamp : Z) : list link :=
  if decide (Exists (λ m, l_user m = user ∧ l_account m = id) collection)
  then set_timestamp user id timestamp collection
  else collection ++ [Link newKey user id timestamp].

(** ** The request handlers of index.js *)

From Stdlib Require DecimalString.

(** [String(n)] for an integer: its decimal digits. *)
Definition number_to_string (n : Z) : string :=
  DecimalString.NilZero.string_of_int (Z.to_int n).

(** Milliseconds a timestamp may lie ahead of the clock. *)
Definition TIME_FUDGE : Z := 60 * 60 * 1000.

Definition DEBUG : bool := true.

(** What a handler sends. *)
Inductive body :=
| NoBody
| EmptyObject
| GroupData (id : string) (score : Z) (isNew : bool).

(** The outcome of a handler: a response sent, or the error that
    [res.throw] raises. *)
Inductive response :=
| Sent (b : body)
| HttpError (status : Z) (msg : string).

(** The bodies of the requests. *)
Record connectionsPutBody := ConnectionsPutBody {
  cp_publicKey1 : string;
  cp_publicKey2 : string;
  cp_sig1 : string;
  cp_sig2 : string;
  cp_timestamp : Z
}.

Record connectionsDeleteBody := ConnectionsDeleteBody {
  cd_publicKey1 : string;
  cd_publicKey2 : string;
  cd_sig1 : string;
  cd_timestamp : Z
}.

(** The body of a membership or group-removal request. *)
Record membershipBody := MembershipBody {
  mb_publicKey : string;
  mb_group : string;
  mb_sig : string;
  mb_timestamp : Z
}.

Record groupsPostBody := GroupsPostBody {
  gp_publicKey1 : string;
  gp_publicKey2 : string;
  gp_publicKey3 : string;
  gp_sig1 : string;
  gp_timestamp : Z
}.

Section handlers.

(** [nacl.sign.detached.verify] on the encoded message, signature and
    key.  The encoders of [encoding.js] are total conversions and are part
    of it. *)
Variable verify : string → string → string → bool.

(** The check of one signature: [res.throw(403, ...)], which the [catch]
    around it throws on with the same status, when [DEBUG] is off and the
    signature does not verify. *)
Definition check_sig (message sig key msg : string) : option response :=
  if negb DEBUG && negb (verify message sig key)
  then Some (HttpError 403 msg) else None.

Definition connectionsPut (now : Z) (req : connectionsPutBody) (s : store)
    : response * store :=
  let publicKey1 := cp_publicKey1 req in
  let publicKey2 := cp_publicKey2 req in
  let timestamp := cp_timestamp req in
  if bool_decide (now + TIME_FUDGE < timestamp)%Z
  then (HttpError 400 "timestamp can't be in the future", s) else
  let message := publicKey1 +:+ publicKey2 +:+ number_to_string timestamp in
  match check_sig message (cp_sig1 req) publicKey1
          "sig1 wasn't publicKey1 + publicKey2 + timestamp signed by publicKey1"
  with
  | Some err => (err, s)
  | None =>
      match check_sig message (cp_sig2 req) publicKey2
              "sig2 wasn't publicKey1 + publicKey2 + timestamp signed by publicKey2"
      with
      | Some err => (err, s)
      | None =>
          (Sent NoBody, store_of (addConnection publicKey1 publicKey2 timestamp s))
      end
  end.

Definition connectionsDelete (now : Z) (req : connectionsDeleteBody)
    (s : store) : response * store :=
  let publicKey1 := cd_publicKey1 req in
  let publicKey2 := cd_publicKey2 req in
  let timestamp := cd_timestamp req in
  if bool_decide (now + TIME_FUDGE < timestamp)%Z
  then (HttpError 400 "timestamp can't be in the future", s) else
  let message := publicKey1 +:+ publicKey2 +:+ number_to_string timestamp in
  match check_sig message (cd_sig1 req) publicKey1
          "sig1 wasn't publicKey1 + publicKey2 + timestamp signed by publicKey1"
  with
  | Some err => (err, s)
  | None =>
      (Sent NoBody,
       store_of (removeConnection publicKey1 publicKey2 timestamp s))
  end.

(** The [try { ...; res.send(b) } catch (e) { res.throw(403, e) }] around
    a call of the data layer. *)
Definition send_or_403 {A} (r : result A) (b : A → body) : response * store :=
  match r with
  | Ok a s' => (Sent (b a), s')
  | Throw e s' => (HttpError 403 e, s')
  end.

Definition membershipPut (now : Z) (req : membershipBody) (s : store)
    : response * store :=
  let publicKey := mb_publicKey req in
  let group := mb_group req in
  let timestamp := mb_timestamp req in
  if bool_decide (now + TIME_FUDGE < timestamp)%Z
  then (HttpError 400 "timestamp can't be in the future", s) else
  let message := publicKey +:+ group +:+ number_to_string timestamp in
  match check_sig message (mb_sig req) publicKey
          "sig wasn't publicKey + group + timestamp signed by publicKeyss"
  with
  | Some err => (err, s)
  | None =>
      send_or_403 (addMembership group publicKey timestamp s)
        (λ _, EmptyObject)
  end.

Definition membershipDelete (now : Z) (req : membershipBody) (s : store)
    : response * store :=
  let publicKey := mb_publicKey req in
  let group := mb_group req in
  let timestamp := mb_timestamp req in
  if bool_decide (now + TIME_FUDGE < timestamp)%Z
  then (HttpError 400 "timestamp can't be in the future", s) else
  let message := publicKey +:+ group +:+ number_to_string timestamp in
  match check_sig message (mb_sig req) publicKey
          "sig wasn't publicKey + group + timestamp signed by publicKeyss"
  with
  | Some err => (err, s)
  | None =>
      send_or_403 (deleteMembership group publicKey timestamp s)
        (λ _, EmptyObject)
  end.

(** [groupsPost]; [randomId] is the identifier [createGroup] draws. *)
Definition groupsPost (now : Z) (req : groupsPostBody) (randomId : string)
    (s : store) : response * store :=
  let publicKey1 := gp_publicKey1 req in
  let publicKey2 := gp_publicKey2 req in
  let publicKey3 := gp_publicKey3 req in
  let timestamp := gp_timestamp req in
  if bool_decide (now + TIME_FUDGE < timestamp)%Z
  then (HttpError 400 "timestamp can't be in the future", s) else
  let message :=
    publicKey1 +:+ publicKey2 +:+ publicKey3 +:+ number_to_string timestamp in
  match check_sig message (gp_sig1 req) publicKey1
          "sig1 wasn't publicKey1 + publicKey2 + publicKey3 + timestamp signed by publicKey1"
  with
  | Some err => (err, s)
  | None =>
      send_or_403
        (createGroup publicKey1 publicKey2 publicKey3 timestamp randomId s)
        (λ group, GroupData (g_key group) 0 true)
  end.

Definition groupsDelete (now : Z) (req : membershipBody) (s : store)
    : response * store :=
  let publicKey := mb_publicKey req in
  let group := mb_group req in
  let timestamp := mb_timestamp req in
  if bool_decide (now + TIME_FUDGE < timestamp)%Z
  then (HttpError 400 "timestamp can't be in the future", s) else
  let message := publicKey +:+ group +:+ number_to_string timestamp in
  match check_sig message (mb_sig req) publicKey
          "sig wasn't publicKey + group + timestamp signed by publicKey"
  with
  | Some err => (err, s)
  | None =>
      send_or_403 (deleteGroup group publicKey timestamp s) (λ _, EmptyObject)
  end.

End handlers.

(** ** Requests, with their outcome *)

(** The call of the data layer that a request makes, its value dropped. *)
Definition attempt (o : op) : M unit :=
  match o with
  | OpAddConnection key1 key2 timestamp => addConnection key1 key2 timestamp
  | OpRemoveConnection key1 key2 timestamp =>
      removeConnection key1 key2 timestamp
  | OpCreateUser key => _ ← createUser key; mret tt
  | OpCreateGroup key1 key2 key3 timestamp randomId =>
      _ ← createGroup key1 key2 key3 timestamp randomId; mret tt
  | OpDeleteGroup groupId key timestamp => deleteGroup groupId key timestamp
  | OpAddMembership groupId key timestamp =>
      addMembership groupId key timestamp
  | OpDeleteMembership groupId key timestamp =>
      deleteMembership groupId key timestamp
  | OpSponsor key context => sponsor key context
  end.

(** The requests that never throw. *)
Definition unfailing (o : op) : bool :=
  match o with
  | OpAddConnection _ _ _ | OpRemoveConnection _ _ _
  | OpDeleteMembership _ _ _ | OpSponsor _ _ => true
  | _ => false
  end.

(** A handler that answers with an error has left the store [s] as it
    was. *)
Definition refusal_keeps (out : response * store) (s : store) : Prop :=
  match out.1 with
  | HttpError _ _ => out.2 = s
  | Sent _ => True
  end.

(** The answer of a handler once the timestamp is let through: what
    [send_or_403] makes of the call of the data layer. *)
Definition answer {A} (r : result A) (b : A → body) : response * store :=
  send_or_403 r b.

(** ** Account links, written *)

(** User and account of a link: what the [upsert] of [addId] looks up. *)
Definition link_pair (l : link) : string * string := (l_user l, l_account l).

(** * Properties *)

(** ** Library facts *)

#[global] Instance ts_desc_trans : Transitive ts_desc.
Proof. unfold ts_desc. intros x y z ??. lia. Qed.

#[global] Instance ts_desc_total : Total ts_desc.
Proof. unfold ts_desc. intros x y. lia. Qed.

Lemma users_inj (a b : string) : "users/" +:+ a = "users/" +:+ b → a = b.
Proof. intros H. by simplify_eq/=. Qed.

Section filter_facts.
Context {A : Type} (P Q : A → Prop).
Context `{!∀ x, Decision (P x), !∀ x, Decision (Q x)}.

Lemma filter_all (l : list A) : (∀ x, x ∈ l → P x) → filter P l = l.
Proof.
  induction l as [|x l IH]; intros Hl; [done|].
  rewrite filter_cons_True by (apply Hl; left).
  f_equal. apply IH. intros y Hy. apply Hl. by right.
Qed.

Lemma filter_none (l : list A) : (∀ x, x ∈ l → ¬ P x) → filter P l = [].
Proof.
  induction l as [|x l IH]; intros Hl; [done|].
  rewrite filter_cons_False by (apply Hl; left).
  apply IH. intros y Hy. apply Hl. by right.
Qed.

Lemma filter_ext_in (l : list A) :
  (∀ x, x ∈ l → P x ↔ Q x) → filter P l = filter Q l.
Proof.
  induction l as [|x l IH]; intros Hl; [done|].
  rewrite !filter_cons.
  rewrite IH by (intros y Hy; apply Hl; by right).
  destruct (decide (P x)) as [HP|HP], (decide (Q x)) as [HQ|HQ]; try done.
  - destruct HQ. apply Hl; [left|done].
  - destruct HP. apply Hl; [left|done].
Qed.
End filter_facts.

Lemma NoDup_fmap_eq {A B} (f : A → B) (l : list A) x y :
  NoDup (f <$> l) → x ∈ l → y ∈ l → f x = f y → x = y.
Proof.
  induction l as [|z l IH]; intros Hnd Hx Hy Hf.
  - by apply not_elem_of_nil in Hx.
  - rewrite fmap_cons in Hnd. apply NoDup_cons in Hnd as [Hz Hnd].
    apply elem_of_cons in Hx as [->|Hx]; apply elem_of_cons in Hy as [->|Hy];
      try done.
    + destruct Hz. rewrite Hf. by apply list_elem_of_fmap_2.
    + destruct Hz. rewrite <- Hf. by apply list_elem_of_fmap_2.
    + by apply IH.
Qed.

Lemma elem_of_DISTINCT (l : list string) x : x ∈ DISTINCT l ↔ x ∈ l.
Proof.
  induction l as [|v l IH]; [done|]. simpl.
  rewrite !elem_of_cons, list_elem_of_filter, IH.
  destruct (decide (x = v)); tauto.
Qed.

Lemma NoDup_DISTINCT (l : list string) : NoDup (DISTINCT l).
Proof.
  induction l as [|v l IH]; simpl; [constructor|].
  apply NoDup_cons. split; [|by apply NoDup_filter].
  by intros [? _]%list_elem_of_filter.
Qed.

Lemma coll_get_set c l s : coll_get c (coll_set c l s) = l.
Proof. by destruct c. Qed.

Lemma coll_set_get c s : coll_set c (coll_get c s) s = s.
Proof. by destruct c, s. Qed.

Lemma removeByKeys_nil c s : removeByKeys c [] s = s.
Proof.
  unfold removeByKeys. rewrite filter_all; [apply coll_set_get|].
  intros x _. apply not_elem_of_nil.
Qed.

(** ** The connection ledger *)

Lemma joins_sym u1 u2 e : joins u1 u2 e ↔ joins u2 u1 e.
Proof. unfold joins. tauto. Qed.

Lemma joins_for_pair a b c e :
  joins ("users/" +:+ a) ("users/" +:+ b) e →
  joins ("users/" +:+ c_key1 c) ("users/" +:+ c_key2 c) e →
  for_pair a b c.
Proof.
  unfold joins, for_pair.
  intros [[-> ->]|[-> ->]] [[H1 H2]|[H1 H2]];
    apply users_inj in H1; apply users_inj in H2; auto.
Qed.

Lemma pair_edges_for_pair a b c l :
  for_pair a b c → pair_edges (c_key1 c) (c_key2 c) l = pair_edges a b l.
Proof.
  intros [[-> ->]|[-> ->]]; [done|].
  apply filter_ext_in. intros. apply joins_sym.
Qed.

(** The keys that [allEdges] returns are those of the edges it filters. *)
Lemma allEdges_keys collection u1 u2 k :
  k ∈ kt_key <$> allEdges collection u1 u2
  ↔ ∃ e, e ∈ collection ∧ joins u1 u2 e ∧ e_key e = k.
Proof.
  unfold allEdges. rewrite <- list_fmap_compose. rewrite list_elem_of_fmap.
  setoid_rewrite merge_sort_Permutation.
  setoid_rewrite list_elem_of_filter. split.
  - intros (e & -> & ? & ?). by exists e.
  - intros (e & ? & ? & <-). by exists e.
Qed.

Lemma most_recent_newer t l :
  newer t (most_recent l) ↔ ∀ e, e ∈ l → (e_timestamp e < t)%Z.
Proof.
  induction l as [|e l IH]; simpl.
  - split; [|done]. intros _ e He. by apply not_elem_of_nil in He.
  - destruct (most_recent l) as [m|] eqn:Hm; simpl in *.
    + split.
      * intros H x Hx. apply elem_of_cons in Hx as [->|Hx]; [lia|].
        apply IH; [lia|done].
      * intros H. apply Z.max_lub_lt; [apply H; left|].
        apply IH. intros x Hx. apply H. by right.
    + split.
      * intros H x Hx. apply elem_of_cons in Hx as [->|Hx]; [done|].
        by apply IH.
      * intros H. apply H. left.
Qed.

(** The guard of the code, on the sorted query result, is the test against
    the most recent record. *)
Lemma newer_than_allEdges t collection u1 u2 :
  newer_than t (allEdges collection u1 u2) = true
  ↔ newer t (most_recent (filter (joins u1 u2) collection)).
Proof.
  rewrite most_recent_newer. unfold allEdges.
  pose proof (merge_sort_Permutation ts_desc (filter (joins u1 u2) collection))
    as Hperm.
  pose proof (StronglySorted_merge_sort ts_desc
                (filter (joins u1 u2) collection)) as Hsort.
  destruct (merge_sort ts_desc (filter (joins u1 u2) collection))
    as [|x l'] eqn:Hl; simpl.
  - apply Permutation_nil_l in Hperm. rewrite <- Hperm. split; [|done].
    intros _ e He. by apply not_elem_of_nil in He.
  - rewrite bool_decide_eq_true. split.
    + intros Hx e He. rewrite <- Hperm in He.
      apply elem_of_cons in He as [->|He]; [done|].
      apply StronglySorted_inv in Hsort as [_ Hall].
      rewrite Forall_forall in Hall. specialize (Hall e He).
      unfold ts_desc in Hall. lia.
    + intros H. apply H. rewrite <- Hperm. left.
Qed.

Lemma updateAndCleanConnections_eq collection key1 key2 timestamp s :
  updateAndCleanConnections collection key1 key2 timestamp s
  = Ok tt
      (if newer_than timestamp
            (allEdges (connections s) ("users/" +:+ key1) ("users/" +:+ key2))
          && newer_than timestamp
               (allEdges (removed s) ("users/" +:+ key1) ("users/" +:+ key2))
       then clean collection ("users/" +:+ key1) ("users/" +:+ key2) timestamp s
       else s).
Proof.
  unfold updateAndCleanConnections, clean, mbind, M_bind, bind, gets, modify,
    mret, M_ret, ret.
  destruct (newer_than _ _ && newer_than _ _); [|done].
  destruct (allEdges (connections s) _ _) as [|x l];
    destruct (allEdges (removed s) _ _) as [|y l']; cbn [nonempty];
    by rewrite ?fmap_nil, ?removeByKeys_nil.
Qed.

Lemma perform_eq c s :
  perform c s
  = Ok tt
      (if newer_than (c_timestamp c)
            (allEdges (connections s) ("users/" +:+ c_key1 c)
               ("users/" +:+ c_key2 c))
          && newer_than (c_timestamp c)
               (allEdges (removed s) ("users/" +:+ c_key1 c)
                  ("users/" +:+ c_key2 c))
       then clean (kind_coll (c_kind c)) ("users/" +:+ c_key1 c)
              ("users/" +:+ c_key2 c) (c_timestamp c) s
       else s).
Proof.
  unfold perform, addConnection, removeConnection.
  destruct (c_kind c); apply updateAndCleanConnections_eq.
Qed.

Lemma guard_acceptable c s :
  newer_than (c_timestamp c)
    (allEdges (connections s) ("users/" +:+ c_key1 c) ("users/" +:+ c_key2 c))
  && newer_than (c_timestamp c)
       (allEdges (removed s) ("users/" +:+ c_key1 c) ("users/" +:+ c_key2 c))
  = true
  ↔ acceptable c s.
Proof.
  rewrite andb_true_iff, !newer_than_allEdges. done.
Qed.

(** The two ledger collections after an accepted call; [extra] is the
    inserted edge in the collection of the call's kind. *)
Lemma clean_connections k u1 u2 t s :
  connections (clean (kind_coll k) u1 u2 t s)
  = filter (λ i, e_key i ∉ kt_key <$> allEdges (connections s) u1 u2)
      (connections s
       ++ match k with
          | ConnectionEdge => [Edge (next_key s) u1 u2 t]
          | RemovalEdge => []
          end).
Proof. destruct k; simpl; by rewrite ?app_nil_r. Qed.

Lemma clean_removed k u1 u2 t s :
  removed (clean (kind_coll k) u1 u2 t s)
  = filter (λ i, e_key i ∉ kt_key <$> allEdges (removed s) u1 u2)
      (removed s
       ++ match k with
          | ConnectionEdge => []
          | RemovalEdge => [Edge (next_key s) u1 u2 t]
          end).
Proof. destruct k; simpl; by rewrite ?app_nil_r. Qed.

Lemma clean_next_key k u1 u2 t s :
  next_key (clean (kind_coll k) u1 u2 t s) = N.succ (next_key s).
Proof. by destruct k. Qed.

(** Deleting the matches of a pair leaves no record of that pair. *)
Lemma cleaned_same (P : edge → Prop) `{!∀ e, Decision (P e)} u1 u2 l :
  (∀ e, P e ↔ joins u1 u2 e) →
  filter P (filter (λ i, e_key i ∉ kt_key <$> allEdges l u1 u2) l) = [].
Proof.
  intros HP. apply filter_none. intros e He HPe.
  apply list_elem_of_filter in He as [Hk He]. apply Hk.
  apply allEdges_keys. exists e. split_and!; [done| |done]. by apply HP.
Qed.

(** Deleting the matches of one pair leaves the records of another pair
    alone, as keys are unique. *)
Lemma cleaned_other (P : edge → Prop) `{!∀ e, Decision (P e)} u1 u2 l :
  NoDup (e_key <$> l) →
  (∀ e, P e → ¬ joins u1 u2 e) →
  filter P (filter (λ i, e_key i ∉ kt_key <$> allEdges l u1 u2) l)
  = filter P l.
Proof.
  intros Hnd HP. rewrite list_filter_filter. apply filter_ext_in.
  intros e He. split; [tauto|]. intros HPe. split; [done|].
  intros (e' & He' & Hj & Hk)%allEdges_keys.
  assert (e' = e) as -> by (by eapply (NoDup_fmap_eq e_key)).
  by apply (HP e).
Qed.

Lemma keys_ok_fresh_in s c e :
  keys_ok s → e ∈ coll_get (kind_coll c) s → e_key e ≠ next_key s.
Proof.
  intros (_ & _ & Hf) He.
  assert (e_key e < next_key s)%N; [|lia].
  apply Hf. apply elem_of_app. destruct c; auto.
Qed.

(** An accepted call for the pair: its record is the pair's only one. *)
Lemma clean_pair a b c s :
  for_pair a b c → keys_ok s →
  let s' := clean (kind_coll (c_kind c)) ("users/" +:+ c_key1 c)
              ("users/" +:+ c_key2 c) (c_timestamp c) s in
  pair_edges a b (coll_get (kind_coll (c_kind c)) s')
  = [Edge (next_key s) ("users/" +:+ c_key1 c) ("users/" +:+ c_key2 c)
       (c_timestamp c)]
  ∧ pair_edges a b (coll_get (kind_coll (other_kind (c_kind c))) s') = [].
Proof.
  intros Hp Hok s'.
  assert (∀ e, joins ("users/" +:+ a) ("users/" +:+ b) e
               ↔ joins ("users/" +:+ c_key1 c) ("users/" +:+ c_key2 c) e)
    as Hj.
  { intros e. destruct Hp as [[-> ->]|[-> ->]]; [done|apply joins_sym]. }
  assert (∀ k l,
    l = coll_get (kind_coll k) s →
    pair_edges a b
      (filter (λ i, e_key i ∉ kt_key <$> allEdges l ("users/" +:+ c_key1 c)
                                           ("users/" +:+ c_key2 c))
         (l ++ [Edge (next_key s) ("users/" +:+ c_key1 c)
                  ("users/" +:+ c_key2 c) (c_timestamp c)]))
    = [Edge (next_key s) ("users/" +:+ c_key1 c) ("users/" +:+ c_key2 c)
         (c_timestamp c)]) as Hnew.
  { intros k l ->. unfold pair_edges. rewrite filter_app, filter_app.
    rewrite cleaned_same by done. simpl.
    rewrite filter_cons_True, filter_cons_True; [done| |].
    - apply Hj. by left.
    - simpl. intros (e & He & _ & Hk)%allEdges_keys.
      by apply (keys_ok_fresh_in s k e). }
  subst s'. destruct (c_kind c) eqn:Hk; cbn [other_kind coll_get kind_coll].
  - rewrite (clean_connections ConnectionEdge), (clean_removed ConnectionEdge).
    split; [by apply (Hnew ConnectionEdge)|].
    rewrite app_nil_r. by apply cleaned_same.
  - rewrite (clean_connections RemovalEdge), (clean_removed RemovalEdge).
    split; [by apply (Hnew RemovalEdge)|].
    rewrite app_nil_r. by apply cleaned_same.
Qed.

(** A call for another pair leaves the pair's records alone. *)
Lemma perform_other_pair a b c s :
  ¬ for_pair a b c → keys_ok s →
  pair_edges a b (connections (store_of (perform c s)))
  = pair_edges a b (connections s)
  ∧ pair_edges a b (removed (store_of (perform c s)))
    = pair_edges a b (removed s).
Proof.
  intros Hp (Hn1 & Hn2 & _). rewrite perform_eq. simpl.
  destruct (_ && _); [|done].
  assert (∀ e, joins ("users/" +:+ a) ("users/" +:+ b) e →
               ¬ joins ("users/" +:+ c_key1 c) ("users/" +:+ c_key2 c) e)
    as Hj.
  { intros e H1 H2. apply Hp. by eapply joins_for_pair. }
  assert (∀ l (extra : list edge),
    NoDup (e_key <$> l) →
    (extra = [] ∨ extra = [Edge (next_key s) ("users/" +:+ c_key1 c)
                            ("users/" +:+ c_key2 c) (c_timestamp c)]) →
    pair_edges a b
      (filter (λ i, e_key i ∉ kt_key <$> allEdges l ("users/" +:+ c_key1 c)
                                           ("users/" +:+ c_key2 c))
         (l ++ extra))
    = pair_edges a b l) as Hsame.
  { intros l extra Hnd Hex. unfold pair_edges. rewrite filter_app, filter_app.
    rewrite cleaned_other by done.
    rewrite (filter_none _ (filter _ extra)); [by rewrite app_nil_r|].
    intros e He%list_elem_of_filter. destruct He as [_ He].
    destruct Hex as [->| ->]; [by apply not_elem_of_nil in He|].
    apply list_elem_of_singleton in He as ->. intros H. apply (Hj _ H).
    by left. }
  rewrite clean_connections, clean_removed.
  split; apply Hsame; try done; destruct (c_kind c); auto.
Qed.

Lemma NoDup_keys_cleaned (keys : list N) (l : list edge) (k : N) u1 u2 t
    (extra : list edge) :
  NoDup (e_key <$> l) →
  (∀ e, e ∈ l → (e_key e < k)%N) →
  (extra = [] ∨ extra = [Edge k u1 u2 t]) →
  NoDup (e_key <$> filter (λ i, e_key i ∉ keys) (l ++ extra))
  ∧ ∀ e, e ∈ filter (λ i, e_key i ∉ keys) (l ++ extra) →
         (e_key e < N.succ k)%N.
Proof.
  intros Hnd Hlt Hex. split.
  - eapply sublist_NoDup; [|apply fmap_sublist, sublist_filter].
    rewrite fmap_app. destruct Hex as [->| ->]; [by rewrite app_nil_r|].
    apply NoDup_app. split_and!; [done| |apply NoDup_singleton].
    intros x (e & -> & He)%list_elem_of_fmap Hx%list_elem_of_singleton.
    simpl in Hx. specialize (Hlt e He). lia.
  - intros e [_ He]%list_elem_of_filter.
    apply elem_of_app in He as [He|He]; [specialize (Hlt e He); lia|].
    destruct Hex as [->| ->]; [by apply not_elem_of_nil in He|].
    apply list_elem_of_singleton in He as ->. simpl. lia.
Qed.

(** Every call keeps the keys of the ledger unique and below the counter. *)
Lemma keys_ok_perform c s : keys_ok s → keys_ok (store_of (perform c s)).
Proof.
  intros Hok. rewrite perform_eq. simpl. destruct (_ && _); [|done].
  destruct Hok as (Hn1 & Hn2 & Hf). unfold keys_ok.
  rewrite clean_connections, clean_removed, clean_next_key.
  set (new := Edge (next_key s) _ _ _).
  edestruct (NoDup_keys_cleaned
    (kt_key <$> allEdges (connections s) ("users/" +:+ c_key1 c)
                  ("users/" +:+ c_key2 c))
    (connections s) (next_key s) ("users/" +:+ c_key1 c)
    ("users/" +:+ c_key2 c) (c_timestamp c)
    (match c_kind c with ConnectionEdge => [new] | RemovalEdge => [] end))
    as [H1 H1']; [done| |by destruct (c_kind c); auto|].
  { intros e He. apply Hf, elem_of_app. auto. }
  edestruct (NoDup_keys_cleaned
    (kt_key <$> allEdges (removed s) ("users/" +:+ c_key1 c)
                  ("users/" +:+ c_key2 c))
    (removed s) (next_key s) ("users/" +:+ c_key1 c)
    ("users/" +:+ c_key2 c) (c_timestamp c)
    (match c_kind c with ConnectionEdge => [] | RemovalEdge => [new] end))
    as [H2 H2']; [done| |by destruct (c_kind c); auto|].
  { intros e He. apply Hf, elem_of_app. auto. }
  split_and!; [done|done|].
  intros e [He|He]%elem_of_app; auto.
Qed.

Lemma keys_ok_settle calls s : keys_ok s → keys_ok (settle calls s).
Proof.
  revert s. induction calls as [|c calls IH]; intros s Hok; [done|].
  simpl. apply IH. by apply keys_ok_perform.
Qed.

Lemma live_kind a b s k :
  live a b s
  = match k with
    | ConnectionEdge =>
        ((λ e, (k, e_timestamp e))
           <$> pair_edges a b (coll_get (kind_coll k) s))
        ++ ((λ e, (other_kind k, e_timestamp e))
              <$> pair_edges a b (coll_get (kind_coll (other_kind k)) s))
    | RemovalEdge =>
        ((λ e, (other_kind k, e_timestamp e))
           <$> pair_edges a b (coll_get (kind_coll (other_kind k)) s))
        ++ ((λ e, (k, e_timestamp e))
              <$> pair_edges a b (coll_get (kind_coll k) s))
    end.
Proof. by destruct k. Qed.

Lemma live_elem a b s x :
  x ∈ live a b s
  ↔ ∃ e, x.2 = e_timestamp e
         ∧ ((x.1 = ConnectionEdge ∧ e ∈ pair_edges a b (connections s))
            ∨ (x.1 = RemovalEdge ∧ e ∈ pair_edges a b (removed s))).
Proof.
  unfold live. rewrite elem_of_app, !list_elem_of_fmap. split.
  - intros [(e & -> & He)|(e & -> & He)]; exists e; simpl; auto.
  - destruct x as [k t]. simpl.
    intros (e & -> & [[-> He]|[-> He]]); [left|right]; by exists e.
Qed.

(** On a pair whose records amount to a register, the guard compares the
    call with the register's timestamp. *)
Lemma acceptable_register a b c s w :
  for_pair a b c →
  live a b s = register w →
  acceptable c s
  ↔ match w with
    | None => True
    | Some c0 => (c_timestamp c0 < c_timestamp c)%Z
    end.
Proof.
  intros Hp Hlive. unfold acceptable.
  rewrite !(pair_edges_for_pair a b) by done. rewrite !most_recent_newer.
  split.
  - intros [H1 H2]. destruct w as [c0|]; [|done].
    assert ((c_kind c0, c_timestamp c0) ∈ live a b s) as Hin.
    { rewrite Hlive. left. }
    apply live_elem in Hin as (e & Ht & [[_ He]|[_ He]]); simpl in Ht;
      rewrite Ht; auto.
  - intros Hw.
    assert (∀ k e, (k, e_timestamp e) ∈ live a b s →
                   (e_timestamp e < c_timestamp c)%Z) as Hall.
    { intros k e. rewrite Hlive. destruct w as [c0|]; simpl.
      - intros [= _ Ht]%list_elem_of_singleton. by rewrite Ht.
      - intros Hin. by apply not_elem_of_nil in Hin. }
    split; intros e He.
    + apply (Hall ConnectionEdge). apply live_elem. exists e. auto.
    + apply (Hall RemovalEdge). apply live_elem. exists e. auto.
Qed.

(** A call for the pair moves the register as [later_wins] says. *)
Lemma perform_register a b c s w :
  for_pair a b c → keys_ok s →
  live a b s = register w →
  live a b (store_of (perform c s)) = register (later_wins w c).
Proof.
  intros Hp Hok Hlive. rewrite perform_eq. simpl.
  pose proof (acceptable_register a b c s w Hp Hlive) as Hacc.
  destruct (_ && _) eqn:Hg.
  - apply guard_acceptable, Hacc in Hg.
    destruct (clean_pair a b c s Hp Hok) as [H1 H2].
    rewrite (live_kind _ _ _ (c_kind c)), H1, H2.
    assert (later_wins w c = Some c) as ->.
    { destruct w as [c0|]; [|done]. simpl. by rewrite bool_decide_eq_true_2. }
    unfold register. by destruct (c_kind c).
  - rewrite Hlive. f_equal.
    apply not_true_iff_false in Hg. rewrite guard_acceptable, Hacc in Hg.
    destruct w as [c0|]; [|done]. simpl. by rewrite bool_decide_eq_false_2.
Qed.

Lemma settle_register a b calls s w :
  keys_ok s →
  live a b s = register w →
  live a b (settle calls s)
  = register (foldl later_wins w (filter (for_pair a b) calls)).
Proof.
  revert s w. induction calls as [|c calls IH]; intros s w Hok Hlive; [done|].
  simpl. rewrite filter_cons. destruct (decide (for_pair a b c)) as [Hp|Hp].
  - simpl. apply IH; [by apply keys_ok_perform|].
    by apply perform_register.
  - apply IH; [by apply keys_ok_perform|].
    destruct (perform_other_pair a b c s Hp Hok) as [H1 H2].
    unfold live. by rewrite H1, H2.
Qed.

(** *** The winner of a sequence of calls *)

Lemma winner_snoc l c : winner (l ++ [c]) = later_wins (winner l) c.
Proof. unfold winner. by rewrite foldl_app. Qed.

(** The winner is the earliest call that carries the maximum timestamp. *)
Lemma winner_spec calls :
  match winner calls with
  | None => calls = []
  | Some c =>
      ∃ l1 l2, calls = l1 ++ c :: l2
        ∧ (∀ c', c' ∈ l1 → (c_timestamp c' < c_timestamp c)%Z)
        ∧ (∀ c', c' ∈ l2 → (c_timestamp c' ≤ c_timestamp c)%Z)
  end.
Proof.
  induction calls as [|c calls IH] using rev_ind; [done|].
  rewrite winner_snoc. destruct (winner calls) as [c0|]; simpl.
  - destruct IH as (l1 & l2 & -> & H1 & H2). case_bool_decide as Hlt.
    + exists (l1 ++ c0 :: l2), []. split_and!; [done| |].
      * intros c' [Hc'|[->|Hc']%elem_of_cons]%elem_of_app.
        -- specialize (H1 c' Hc'). lia.
        -- done.
        -- specialize (H2 c' Hc'). lia.
      * intros c' Hc'. by apply not_elem_of_nil in Hc'.
    + exists l1, (l2 ++ [c]). split_and!; [by rewrite <- app_assoc|done|].
      intros c' [Hc'|Hc'%list_elem_of_singleton]%elem_of_app; [auto|].
      subst c'. lia.
  - subst calls. exists [], []. split_and!; [done| |];
      intros c' Hc'; by apply not_elem_of_nil in Hc'.
Qed.

Lemma winner_top calls c : winner calls = Some c → top calls c.
Proof.
  intros Hw. pose proof (winner_spec calls) as H. rewrite Hw in H.
  destruct H as (l1 & l2 & -> & H1 & H2). split.
  - apply elem_of_app. right. left.
  - intros c' [Hc'|[->|Hc']%elem_of_cons]%elem_of_app; auto.
    + specialize (H1 c' Hc'). lia.
    + lia.
Qed.

Lemma winner_is_Some calls : calls ≠ [] → is_Some (winner calls).
Proof.
  intros Hne. pose proof (winner_spec calls) as H.
  destruct (winner calls); [by eexists|done].
Qed.

Lemma top_Permutation calls calls' c :
  calls ≡ₚ calls' → top calls c → top calls' c.
Proof.
  intros Hp [Hc Hmax]. split; [by rewrite <- Hp|].
  intros c' Hc'. apply Hmax. by rewrite Hp.
Qed.

Lemma top_timestamp calls c1 c2 :
  top calls c1 → top calls c2 → c_timestamp c1 = c_timestamp c2.
Proof.
  intros [H1 M1] [H2 M2]. specialize (M1 c2 H2). specialize (M2 c1 H1). lia.
Qed.

Lemma keys_ok_empty : keys_ok empty_store.
Proof.
  split_and!; [constructor|constructor|].
  intros e He. by apply not_elem_of_nil in He.
Defined.

(** Deleting by the keys [allEdges] returns deletes the records of the
    pair and no other, as keys are unique. *)
Lemma cleaned_exact u1 u2 l :
  NoDup (e_key <$> l) →
  filter (λ i, e_key i ∉ kt_key <$> allEdges l u1 u2) l
  = filter (λ e, ¬ joins u1 u2 e) l.
Proof.
  intros Hnd. apply filter_ext_in. intros e He. split.
  - intros Hk Hj. apply Hk, allEdges_keys. by exists e.
  - intros Hj (e' & He' & Hj' & Hk)%allEdges_keys.
    assert (e' = e) as -> by (by eapply (NoDup_fmap_eq e_key)).
    done.
Qed.

(** The two ledger collections after an accepted call: the records of the
    call's pair are gone from both, and the call's record is added to the
    collection of its kind. *)
Lemma clean_exact c s :
  keys_ok s →
  let user1 := "users/" +:+ c_key1 c in
  let user2 := "users/" +:+ c_key2 c in
  let s' := clean (kind_coll (c_kind c)) user1 user2 (c_timestamp c) s in
  coll_get (kind_coll (c_kind c)) s'
  = filter (λ e, ¬ joins user1 user2 e) (coll_get (kind_coll (c_kind c)) s)
    ++ [Edge (next_key s) user1 user2 (c_timestamp c)]
  ∧ coll_get (kind_coll (other_kind (c_kind c))) s'
    = filter (λ e, ¬ joins user1 user2 e)
        (coll_get (kind_coll (other_kind (c_kind c))) s).
Proof.
  intros Hok user1 user2 s'.
  assert (∀ k l,
    l = coll_get (kind_coll k) s →
    filter (λ i, e_key i ∉ kt_key <$> allEdges l user1 user2)
      (l ++ [Edge (next_key s) user1 user2 (c_timestamp c)])
    = filter (λ e, ¬ joins user1 user2 e) l
      ++ [Edge (next_key s) user1 user2 (c_timestamp c)]) as Hnew.
  { intros k l ->. rewrite filter_app. f_equal.
    - apply cleaned_exact. destruct Hok as (H1 & H2 & _). by destruct k.
    - rewrite filter_cons_True; [done|]. simpl.
      intros (e & He & _ & Hk)%allEdges_keys.
      by apply (keys_ok_fresh_in s k e). }
  destruct Hok as (Hn1 & Hn2 & Hf).
  subst s'. destruct (c_kind c) eqn:Hk; cbn [other_kind coll_get kind_coll].
  - rewrite (clean_connections ConnectionEdge), (clean_removed ConnectionEdge).
    split; [by apply (Hnew ConnectionEdge)|].
    rewrite app_nil_r. by apply cleaned_exact.
  - rewrite (clean_connections RemovalEdge), (clean_removed RemovalEdge).
    split; [by apply (Hnew RemovalEdge)|].
    rewrite app_nil_r. by apply cleaned_exact.
Qed.

Lemma keys_ok_several_records : keys_ok several_records.
Proof.
  split_and!.
  - repeat (apply NoDup_cons; split;
            [intros H; in_cases H; discriminate H|]).
    apply NoDup_nil_2.
  - repeat (apply NoDup_cons; split;
            [intros H; in_cases H; discriminate H|]).
    apply NoDup_nil_2.
  - intros e He. unfold several_records in He. simpl in He.
    in_cases He; simpl; lia.
Defined.

(** C1. For every unordered pair and every sequence of [addConnection] and
    [removeConnection] calls, made from any store with unique keys, where
    the pair may have several records of each kind: a call for the pair is
    accepted exactly when its timestamp is strictly greater than the most
    recent [connections] record and the most recent [removed] record of the
    pair; an accepted call changes the store, deletes every record of the
    pair from both collections, keeps the records of other pairs and adds
    its own record to the collection of its kind, which is then the pair's
    only record; a rejected call returns normally and leaves the store as
    it was; and when the pair had no record before the calls, it has
    exactly one live record once they are made, of the kind and timestamp
    of a call that carries the maximum timestamp (the earliest such
    call). *)
Theorem ledger_last_writer_wins (a b : string) (s0 : store)
    (calls : list call) :
  keys_ok s0 →
  (∀ pre c post,
     calls = pre ++ c :: post → for_pair a b c →
     let s := settle pre s0 in
     let record := Edge (next_key s) ("users/" +:+ c_key1 c)
                     ("users/" +:+ c_key2 c) (c_timestamp c) in
     let others :=
       filter (λ e, ¬ joins ("users/" +:+ a) ("users/" +:+ b) e) in
     (acceptable c s →
        ∃ s', perform c s = Ok tt s'
          ∧ s' ≠ s
          ∧ coll_get (kind_coll (c_kind c)) s'
            = others (coll_get (kind_coll (c_kind c)) s) ++ [record]
          ∧ coll_get (kind_coll (other_kind (c_kind c))) s'
            = others (coll_get (kind_coll (other_kind (c_kind c))) s)
          ∧ pair_edges a b (coll_get (kind_coll (c_kind c)) s') = [record]
          ∧ pair_edges a b (coll_get (kind_coll (other_kind (c_kind c))) s')
            = [])
     ∧ (¬ acceptable c s → perform c s = Ok tt s))
  ∧ (live a b s0 = [] →
     filter (for_pair a b) calls ≠ [] →
     ∃ c, winner (filter (for_pair a b) calls) = Some c
       ∧ top (filter (for_pair a b) calls) c
       ∧ live a b (settle calls s0) = [(c_kind c, c_timestamp c)]).
Proof.
  intros Hok. split.
  - intros pre c post -> Hp s record others.
    assert (keys_ok s) as Hs by by apply keys_ok_settle.
    rewrite perform_eq. split.
    + intros Hacc. apply guard_acceptable in Hacc. rewrite Hacc.
      destruct (clean_pair a b c s Hp Hs) as [Hone Hnone].
      destruct (clean_exact c s Hs) as [Hkind Hother].
      assert (∀ l, others l
                   = filter (λ e, ¬ joins ("users/" +:+ c_key1 c)
                                    ("users/" +:+ c_key2 c) e) l) as Hoth.
      { intros l. unfold others. apply filter_ext_in. intros e _.
        unfold joins. destruct Hp as [[Ha Hb]|[Ha Hb]]; rewrite Ha, Hb; tauto. }
      rewrite !Hoth.
      eexists. split_and!; [done| |done|done|done|done].
      intros Heq. rewrite Heq in Hone.
      apply (keys_ok_fresh_in s (c_kind c) record Hs); [|done].
      assert (record ∈ pair_edges a b (coll_get (kind_coll (c_kind c)) s))
        as Hin by (rewrite Hone; left).
      by apply list_elem_of_filter in Hin as [_ Hin].
    + intros Hacc. rewrite <- guard_acceptable in Hacc.
      apply not_true_is_false in Hacc. by rewrite Hacc.
  - intros Hempty Hne. destruct (winner_is_Some _ Hne) as [c Hc]. exists c.
    split_and!; [done|by apply winner_top|].
    rewrite (settle_register a b calls s0 None) by done.
    fold (winner (filter (for_pair a b) calls)). by rewrite Hc.
Qed.

Lemma ledger_last_writer_wins_witness :
  perform (Call ConnectionEdge "a" "b" 7) several_records
  = Ok tt several_records
  ∧ (∃ s', perform (Call RemovalEdge "b" "a" 10) several_records = Ok tt s'
       ∧ connections s' = [Edge 2 "users/a" "users/c" 4]
       ∧ removed s' = [Edge 4 "users/b" "users/a" 10])
  ∧ live "a" "b"
      (settle [Call ConnectionEdge "a" "b" 5; Call RemovalEdge "b" "a" 7;
               Call ConnectionEdge "c" "b" 9; Call ConnectionEdge "a" "b" 6]
         empty_store)
    = [(RemovalEdge, 7%Z)].
Proof.
  split_and!.
  - destruct (ledger_last_writer_wins "a" "b" several_records
      [Call ConnectionEdge "a" "b" 7] keys_ok_several_records) as [H _].
    apply (H [] (Call ConnectionEdge "a" "b" 7) []); [done|by left|].
    unfold acceptable. simpl. lia.
  - destruct (ledger_last_writer_wins "a" "b" several_records
      [Call RemovalEdge "b" "a" 10] keys_ok_several_records) as [H _].
    destruct (H [] (Call RemovalEdge "b" "a" 10) [] eq_refl) as [Hacc _];
      [by right|].
    destruct Hacc as (s' & Hs' & _ & Hrem & Hconn & _).
    { unfold acceptable. simpl. lia. }
    exists s'. split; [done|]. split; [exact Hconn|exact Hrem].
  - destruct (ledger_last_writer_wins "a" "b" empty_store
      [Call ConnectionEdge "a" "b" 5; Call RemovalEdge "b" "a" 7;
       Call ConnectionEdge "c" "b" 9; Call ConnectionEdge "a" "b" 6]
      keys_ok_empty) as [_ H].
    destruct H as (c & Hw & _ & Hlive); [done|done|].
    vm_compute in Hw. injection Hw as <-. exact Hlive.
Defined.

(** C4, as stated, fails: two calls of different kinds with the same
    timestamp leave the record of whichever call is made first. *)
Lemma ledger_tie_depends_on_order :
  ¬ ∀ calls calls' : list call,
      calls ≡ₚ calls' →
      live "a" "b" (settle calls empty_store)
      = live "a" "b" (settle calls' empty_store).
Proof.
  intros H.
  specialize (H [Call ConnectionEdge "a" "b" 5; Call RemovalEdge "a" "b" 5]
                [Call RemovalEdge "a" "b" 5; Call ConnectionEdge "a" "b" 5]
                (Permutation_swap _ _ _)).
  vm_compute in H. discriminate H.
Qed.

(** C4, amended. Made in any order, the calls leave a live record with the
    same timestamp; they leave the same live record, kind included, when
    the calls for the pair that carry the maximum timestamp are all of one
    kind (for instance when no two calls share a timestamp). *)
Theorem ledger_order_independent (a b : string) (s0 : store)
    (calls calls' : list call) :
  keys_ok s0 →
  live a b s0 = [] →
  calls ≡ₚ calls' →
  snd <$> live a b (settle calls s0) = snd <$> live a b (settle calls' s0)
  ∧ ((∀ c1 c2, top (filter (for_pair a b) calls) c1 →
               top (filter (for_pair a b) calls) c2 →
               c_kind c1 = c_kind c2) →
     live a b (settle calls s0) = live a b (settle calls' s0)).
Proof.
  intros Hok Hempty Hperm.
  rewrite (settle_register a b calls s0 None) by done.
  rewrite (settle_register a b calls' s0 None) by done.
  fold (winner (filter (for_pair a b) calls)).
  fold (winner (filter (for_pair a b) calls')).
  assert (filter (for_pair a b) calls ≡ₚ filter (for_pair a b) calls')
    as Hp by by rewrite Hperm.
  pose proof (winner_spec (filter (for_pair a b) calls)) as H1.
  pose proof (winner_spec (filter (for_pair a b) calls')) as H2.
  destruct (winner (filter (for_pair a b) calls)) as [c|] eqn:Hc;
    destruct (winner (filter (for_pair a b) calls')) as [c'|] eqn:Hc'.
  - apply winner_top in Hc, Hc'.
    apply (top_Permutation _ _ _ (symmetry Hp)) in Hc'.
    pose proof (top_timestamp _ _ _ Hc Hc') as Ht. simpl. rewrite Ht.
    split; [done|]. intros Hk. by rewrite (Hk c c').
  - destruct H1 as (l1 & l2 & Heq & _). rewrite H2 in Hp.
    apply Permutation_nil_r in Hp. rewrite Hp in Heq. by destruct l1.
  - destruct H2 as (l1 & l2 & Heq & _). rewrite H1 in Hp.
    apply Permutation_nil_l in Hp. rewrite <- Hp in Heq. by destruct l1.
  - done.
Qed.

Lemma ledger_order_independent_witness :
  live "a" "b"
    (settle [Call ConnectionEdge "a" "b" 5; Call RemovalEdge "b" "a" 7]
       empty_store)
  = live "a" "b"
      (settle [Call RemovalEdge "b" "a" 7; Call ConnectionEdge "a" "b" 5]
         empty_store).
Proof.
  apply (ledger_order_independent "a" "b" empty_store
           [Call ConnectionEdge "a" "b" 5; Call RemovalEdge "b" "a" 7]
           [Call RemovalEdge "b" "a" 7; Call ConnectionEdge "a" "b" 5]
           keys_ok_empty eq_refl (Permutation_swap _ _ _)).
  assert (filter (for_pair "a" "b")
            [Call ConnectionEdge "a" "b" 5; Call RemovalEdge "b" "a" 7]
          = [Call ConnectionEdge "a" "b" 5; Call RemovalEdge "b" "a" 7])
    as -> by reflexivity.
  assert (∀ c, top [Call ConnectionEdge "a" "b" 5; Call RemovalEdge "b" "a" 7]
                 c → c = Call RemovalEdge "b" "a" 7) as Htop.
  { intros c [Hc Hm]. apply elem_of_cons in Hc as [->|Hc].
    - specialize (Hm (Call RemovalEdge "b" "a" 7)). simpl in Hm.
      assert (7 ≤ 5)%Z; [|lia]. apply Hm. right. left.
    - by apply list_elem_of_singleton in Hc. }
  intros c1 c2 H1 H2. by rewrite (Htop c1 H1), (Htop c2 H2).
Defined.

(** ** Eligibility *)

Lemma replace_unfold pat rep s :
  replace pat rep s
  = if String.prefix pat s
    then rep +:+ String.substring (String.length pat) (String.length s) s
    else match s with
         | EmptyString => EmptyString
         | String c s' => String c (replace pat rep s')
         end.
Proof. by destruct s. Qed.

Lemma substring_all (n : nat) (s : string) :
  String.substring 0 (String.length s + n) s = s.
Proof.
  induction s as [|c s IH]; simpl; [by destruct n|]. by rewrite IH.
Qed.

Lemma prefix_append pat s : String.prefix pat (pat +:+ s) = true.
Proof.
  induction pat as [|c pat IH]; simpl; [by destruct s|].
  by destruct (Ascii.ascii_dec c c).
Qed.

Lemma substring_append pat s :
  String.substring (String.length pat) (String.length (pat +:+ s)) (pat +:+ s)
  = s.
Proof.
  assert (∀ n, String.substring (String.length pat)
                 (String.length s + n) (pat +:+ s) = s) as H.
  { induction pat as [|c pat IH]; intros n; simpl; [apply substring_all|].
    apply IH. }
  replace (String.length (pat +:+ s))
    with (String.length s + String.length pat); [apply H|].
  clear H. induction pat as [|c pat IH].
  - change ("" +:+ s) with s. simpl. lia.
  - change (String c pat +:+ s) with (String c (pat +:+ s)).
    simpl. rewrite <- IH. lia.
Qed.

(** [replace] on a string that starts with the pattern. *)
Lemma replace_prefix pat rep s : replace pat rep (pat +:+ s) = rep +:+ s.
Proof.
  by rewrite replace_unfold, prefix_append, substring_append.
Qed.

(** Stripping ["users/"] from a user identifier gives the key. *)
Lemma strip_user key : replace "users/" "" ("users/" +:+ key) = key.
Proof. apply replace_prefix. Qed.

Lemma strip_is_user id :
  is_user id → "users/" +:+ replace "users/" "" id = id.
Proof. intros [key ->]. by rewrite strip_user. Qed.

(** [_.intersection] keeps, once each, the values of [a] that [b] has. *)
Lemma intersection_spec (a b : list string) :
  NoDup (intersection a b) ∧ ∀ x, x ∈ intersection a b ↔ x ∈ a ∧ x ∈ b.
Proof.
  unfold intersection.
  assert (∀ acc,
    NoDup acc →
    let r := foldl (λ result value,
                      if decide (value ∈ b ∧ value ∉ result)
                      then result ++ [value] else result) acc a in
    NoDup r ∧ ∀ x, x ∈ r ↔ x ∈ acc ∨ (x ∈ a ∧ x ∈ b)) as Hgen.
  { induction a as [|v a IH]; intros acc Hnd; simpl.
    - split; [done|]. intros x. rewrite elem_of_nil. tauto.
    - destruct (decide (v ∈ b ∧ v ∉ acc)) as [[Hb Hacc]|Hno].
      + destruct (IH (acc ++ [v])) as [H1 H2].
        { apply NoDup_app. split_and!; [done| |apply NoDup_singleton].
          intros x Hx ->%list_elem_of_singleton. done. }
        split; [done|]. intros x. rewrite H2, elem_of_app,
          list_elem_of_singleton, elem_of_cons. split; [|tauto].
        intros [[?| ->]|[? ?]]; auto.
      + destruct (IH acc Hnd) as [H1 H2]. split; [done|].
        intros x. rewrite H2, elem_of_cons. split; [tauto|].
        intros [?|[[Hx|?] ?]]; auto. subst x.
        left. destruct (decide (v ∈ acc)); [done|]. destruct Hno. done. }
  destruct (Hgen [] (NoDup_nil_2)) as [H1 H2]. split; [done|].
  intros x. rewrite H2, elem_of_nil. tauto.
Qed.

(** [[...new Set(l)]] keeps each value of [l] once. *)
Lemma new_Set_spec (l : list string) :
  NoDup (new_Set l) ∧ ∀ x, x ∈ new_Set l ↔ x ∈ l.
Proof.
  unfold new_Set.
  assert (∀ acc,
    NoDup acc →
    let r := foldl (λ set value,
                      if decide (value ∈ set) then set else set ++ [value])
               acc l in
    NoDup r ∧ ∀ x, x ∈ r ↔ x ∈ acc ∨ x ∈ l) as Hgen.
  { induction l as [|v l IH]; intros acc Hnd; simpl.
    - split; [done|]. intros x. rewrite elem_of_nil. tauto.
    - destruct (decide (v ∈ acc)) as [Hacc|Hacc].
      + destruct (IH acc Hnd) as [H1 H2]. split; [done|].
        intros x. rewrite H2, elem_of_cons. split; [tauto|].
        intros [?|[ ->|?]]; auto.
      + destruct (IH (acc ++ [v])) as [H1 H2].
        { apply NoDup_app. split_and!; [done| |apply NoDup_singleton].
          intros x Hx ->%list_elem_of_singleton. done. }
        split; [done|]. intros x. rewrite H2, elem_of_app,
          list_elem_of_singleton, elem_of_cons. tauto. }
  destruct (Hgen [] (NoDup_nil_2)) as [H1 H2]. split; [done|].
  intros x. rewrite H2, elem_of_nil. tauto.
Qed.

(** The size of a set listed without repetition. *)
Lemma size_of_list (l : list string) (X : gset string) :
  NoDup l → (∀ x, x ∈ X ↔ x ∈ l) → size X = length l.
Proof.
  intros Hnd HX. rewrite <- (size_list_to_set (C:=gset string) l) by done.
  f_equal. apply set_eq. intros x. by rewrite HX, elem_of_list_to_set.
Qed.

(** Stripped user identifiers stay distinct. *)
Lemma NoDup_strip (ids : list string) :
  Forall is_user ids → NoDup ids →
  NoDup ((λ u, replace "users/" "" u) <$> ids).
Proof.
  intros Hu Hnd. apply NoDup_fmap_2_strong; [|done].
  rewrite Forall_forall in Hu.
  intros x y Hx Hy Heq.
  rewrite <- (strip_is_user x), <- (strip_is_user y) by auto.
  by rewrite Heq.
Qed.

Lemma elem_of_strip (ids : list string) (x : string) :
  Forall is_user ids →
  x ∈ (λ u, replace "users/" "" u) <$> ids ↔ "users/" +:+ x ∈ ids.
Proof.
  intros Hu. rewrite Forall_forall in Hu. rewrite list_elem_of_fmap. split.
  - intros (id & -> & Hid). by rewrite strip_is_user by auto.
  - intros Hx. exists ("users/" +:+ x). by rewrite strip_user.
Qed.

Lemma userConnectionsRaw_spec user s id :
  id ∈ userConnectionsRaw user s
  ↔ ∃ c, c ∈ connections s ∧ joins ("users/" +:+ user) id c.
Proof.
  unfold userConnectionsRaw, UNION_DISTINCT, joins.
  rewrite elem_of_remove_dups, elem_of_app, !list_elem_of_fmap.
  setoid_rewrite list_elem_of_filter. split.
  - intros [(c & -> & ? & ?)|(c & -> & ? & ?)]; exists c; auto.
  - intros (c & Hc & [[? <-]|[<- ?]]); [left|right]; by exists c.
Qed.

Lemma userConnectionsRaw_users user s :
  user_ids_ok s → Forall is_user (userConnectionsRaw user s).
Proof.
  intros (Hc & _). apply Forall_forall. intros id.
  rewrite userConnectionsRaw_spec. intros (c & Hin & Hj).
  destruct (Hc c Hin) as [Hf Ht].
  destruct Hj as [[_ <-]|[<- _]]; done.
Qed.

(** The list [userConnections] returns: the user's connections, once each. *)
Lemma userConnections_spec user s :
  user_ids_ok s →
  NoDup (userConnections user s)
  ∧ ∀ x, x ∈ userConnections user s ↔ connected user x s.
Proof.
  intros Hok. pose proof (userConnectionsRaw_users user s Hok) as Hu. split.
  - apply NoDup_strip; [done|]. apply NoDup_remove_dups.
  - intros x. unfold userConnections. rewrite elem_of_strip by done.
    apply userConnectionsRaw_spec.
Qed.

(** The list [groupMembers] returns for an established group: its members,
    once each. *)
Lemma groupMembers_spec groupId s :
  user_ids_ok s →
  NoDup (groupMembers groupId false s)
  ∧ ∀ x, x ∈ groupMembers groupId false s ↔ member_of groupId x s.
Proof.
  intros (_ & Hm & _). unfold groupMembers.
  assert (Forall is_user
            (DISTINCT (e_from <$> filter (λ i, e_to i = "groups/" +:+ groupId)
                                       (usersInGroups s)))) as Hu.
  { apply Forall_forall. intros id.
    rewrite elem_of_DISTINCT, list_elem_of_fmap.
    intros (m & -> & [_ Hin]%list_elem_of_filter). auto. }
  split.
  - apply NoDup_strip; [done|]. apply NoDup_DISTINCT.
  - intros x. rewrite elem_of_strip by done.
    rewrite elem_of_DISTINCT, list_elem_of_fmap. unfold member_of.
    setoid_rewrite list_elem_of_filter. split.
    + intros (m & ? & ? & ?). by exists m.
    + intros (m & ? & ? & ?). by exists m.
Qed.

(** C2. [isEligible(groupId, userId)] is true exactly when twice the number
    of members of the group that are connections of the user exceeds the
    number of members: for the set [C] of the user's connections and the
    set [M] of the group's members, [2 * |C ∩ M| > |M|].  With 4 members, 2
    matching connections are rejected and 3 are accepted. *)
Theorem isEligible_more_than_half (groupId userId : string) (s : store)
    (C M : gset string) :
  user_ids_ok s →
  (∀ x, x ∈ C ↔ connected userId x s) →
  (∀ x, x ∈ M ↔ member_of groupId x s) →
  (isEligible groupId userId s = true ↔ 2 * size (C ∩ M) > size M)
  ∧ (size M = 4 → size (C ∩ M) = 2 → isEligible groupId userId s = false)
  ∧ (size M = 4 → size (C ∩ M) = 3 → isEligible groupId userId s = true).
Proof.
  intros Hok HC HM.
  destruct (userConnections_spec userId s Hok) as [Hc1 Hc2].
  destruct (groupMembers_spec groupId s Hok) as [Hm1 Hm2].
  destruct (intersection_spec (userConnections userId s)
              (groupMembers groupId false s)) as [Hi1 Hi2].
  assert (size M = length (groupMembers groupId false s)) as HsM.
  { apply size_of_list; [done|]. intros x. by rewrite HM, Hm2. }
  assert (size (C ∩ M)
          = length (intersection (userConnections userId s)
                      (groupMembers groupId false s))) as HsI.
  { apply size_of_list; [done|]. intros x.
    by rewrite elem_of_intersection, Hi2, HC, HM, Hc2, Hm2. }
  assert (isEligible groupId userId s = true ↔ 2 * size (C ∩ M) > size M)
    as Hiff.
  { unfold isEligible. rewrite bool_decide_eq_true, HsM, HsI. lia. }
  split_and!; [done| |].
  - intros H4 H2. apply not_true_is_false. rewrite Hiff, H4, H2. lia.
  - intros H4 H3. apply Hiff. rewrite H4, H3. lia.
Qed.

Lemma prefix_is_append pat s :
  String.prefix pat s = true → ∃ r, s = pat +:+ r.
Proof.
  revert s. induction pat as [|c pat IH]; intros s H.
  - by exists s.
  - destruct s as [|c' s]; [done|]. simpl in H.
    destruct (Ascii.ascii_dec c c') as [->|]; [|done].
    destruct (IH s H) as [r ->]. by exists r.
Qed.

Lemma user_ids_okb_correct s : user_ids_okb s = true → user_ids_ok s.
Proof.
  unfold user_ids_okb. rewrite !andb_true_iff, !forallb_forall.
  intros [[Hc Hg] Hn]. split_and!.
  - intros c Hin%list_elem_of_In. specialize (Hc c Hin).
    apply andb_true_iff in Hc as [H1 H2].
    split; by apply prefix_is_append.
  - intros m Hin%list_elem_of_In. by apply prefix_is_append, Hg.
  - intros m Hin%list_elem_of_In. by apply prefix_is_append, Hn.
Qed.

Lemma connection_set_spec user s :
  user_ids_ok s → ∀ x, x ∈ connection_set user s ↔ connected user x s.
Proof.
  intros Hok x. unfold connection_set. rewrite elem_of_list_to_set.
  by apply userConnections_spec.
Qed.

Lemma member_set_spec groupId s :
  user_ids_ok s → ∀ x, x ∈ member_set groupId s ↔ member_of groupId x s.
Proof.
  intros Hok x. unfold member_set. rewrite elem_of_list_to_set.
  by apply groupMembers_spec.
Qed.

Lemma isEligible_more_than_half_witness :
  isEligible "G" "u" four_members = false
  ∧ isEligible "G" "v" four_members = true.
Proof.
  assert (user_ids_ok four_members) as Hok
    by (apply user_ids_okb_correct; reflexivity).
  split.
  - apply (isEligible_more_than_half "G" "u" four_members
             (connection_set "u" four_members) (member_set "G" four_members)
             Hok (connection_set_spec "u" four_members Hok)
             (member_set_spec "G" four_members Hok)); reflexivity.
  - apply (isEligible_more_than_half "G" "v" four_members
             (connection_set "v" four_members) (member_set "G" four_members)
             Hok (connection_set_spec "v" four_members Hok)
             (member_set_spec "G" four_members Hok)); reflexivity.
Defined.

(** ** Users *)

Lemma loadUser_is_Some key s :
  is_Some (loadUser key s) ↔ key ∈ u_key <$> users s.
Proof.
  unfold loadUser. rewrite list_elem_of_fmap. split.
  - intros [u Hu]. apply head_Some_elem_of in Hu.
    apply list_elem_of_filter in Hu as [Hk Hin]. by exists u.
  - intros (u & -> & Hin).
    destruct (filter (λ u0, u_key u0 = u_key u) (users s)) as [|u' l] eqn:Hf.
    + exfalso. by apply (filter_nil_not_elem_of _ _ u Hf).
    + by eexists.
Qed.

(** C10. [createUser(key)] returns [{key, score: 0}], after saving the
    user, when no user has the key; when a user has the key the call
    throws, on reading the unbound name [currents], and returns no record.
    So a record is returned only for a key that was absent. *)
Theorem createUser_throws_on_existing (key : string) (s : store) :
  match loadUser key s with
  | Some _ =>
      createUser key s = Throw "ReferenceError: currents is not defined" s
  | None =>
      createUser key s
      = Ok (UserDic key 0) (set_users (users s ++ [User key 0]) s)
  end
  ∧ (key ∈ u_key <$> users s ↔ is_ok (createUser key s) = false)
  ∧ (∀ r s', createUser key s = Ok r s' →
             r = UserDic key 0 ∧ key ∉ u_key <$> users s).
Proof.
  assert (match loadUser key s with
          | Some _ =>
              createUser key s
              = Throw "ReferenceError: currents is not defined" s
          | None =>
              createUser key s
              = Ok (UserDic key 0) (set_users (users s ++ [User key 0]) s)
          end) as H.
  { unfold createUser, mbind, M_bind, bind, gets.
    by destruct (loadUser key s). }
  split; [done|].
  pose proof (loadUser_is_Some key s) as HL.
  destruct (loadUser key s) as [u|] eqn:Hu; rewrite H; simpl.
  - split; [split; [done|]|].
    + intros _. apply HL. by eexists.
    + intros r s' [=].
  - assert (key ∉ u_key <$> users s) as Hnot.
    { intros [? ?]%HL. done. }
    split; [split; [done|done]|].
    by intros r s' [= <- <-].
Qed.

(** ** Sponsorships *)

(** C5, as stated, fails: with the context's capacity used up, [sponsor]
    still inserts an edge and returns normally. *)
Lemma sponsor_ignores_capacity :
  let s :=
    Store [] [] [] [] [] [] [] [Context "app" 1 "appIds"]
      [Sponsorship 0 "users/u1" "contexts/app"] 1 in
  length (sponsorships_of "app" s) = 1
  ∧ (ctx_totalSponsorships <$> contexts s) = [1%Z]
  ∧ ∃ s', sponsor "u2" "app" s = Ok tt s'
          ∧ length (sponsorships_of "app" s') = 2.
Proof. split_and!; [done|done|]. eexists. split; reflexivity. Qed.

(** C5, amended. [sponsor(user, context)] always returns normally and
    inserts one sponsorship edge for the context, whatever the context's
    [totalSponsorships]; [getContext] reports the capacity left as the
    difference of [totalSponsorships] and the number of the context's
    edges. *)
Theorem sponsor_always_inserts (key context : string) (s : store) :
  (∃ s', sponsor key context s = Ok tt s'
     ∧ sponsorships s'
       = sponsorships s
         ++ [Sponsorship (next_key s) ("users/" +:+ key)
               ("contexts/" +:+ context)]
     ∧ length (sponsorships_of context s')
       = S (length (sponsorships_of context s))
     ∧ contexts s' = contexts s)
  ∧ (∀ c, head (filter (λ c, ctx_key c = context) (contexts s)) = Some c →
          getContext context s
          = Ok (ContextDic c
                  (ctx_totalSponsorships c
                   - Z.of_nat (length (sponsorships_of context s)))%Z) s).
Proof.
  split.
  - eexists. split_and!; [done|done| |done].
    unfold sponsorships_of. simpl. rewrite filter_app, length_app.
    rewrite filter_cons_True by done. simpl. lia.
  - intros c Hc. unfold getContext, mbind, M_bind, bind, gets. by rewrite Hc.
Qed.

Lemma sponsor_always_inserts_witness :
  getContext "app"
    (Store [] [] [] [] [] [] [] [Context "app" 1 "appIds"]
       [Sponsorship 0 "users/u1" "contexts/app";
        Sponsorship 1 "users/u2" "contexts/app"] 2)
  = Ok (ContextDic (Context "app" 1 "appIds") (-1))
      (Store [] [] [] [] [] [] [] [Context "app" 1 "appIds"]
         [Sponsorship 0 "users/u1" "contexts/app";
          Sponsorship 1 "users/u2" "contexts/app"] 2).
Proof.
  apply (proj2 (sponsor_always_inserts "u3" "app"
    (Store [] [] [] [] [] [] [] [Context "app" 1 "appIds"]
       [Sponsorship 0 "users/u1" "contexts/app";
        Sponsorship 1 "users/u2" "contexts/app"] 2))
    (Context "app" 1 "appIds")).
  reflexivity.
Defined.

(** ** Group lifecycle *)

(** *** The code of the operations, branch by branch *)

Lemma createGroup_eq key1 key2 key3 timestamp randomId s :
  let user1 := "users/" +:+ key1 in
  let user2 := "users/" +:+ key2 in
  let user3 := "users/" +:+ key3 in
  let doc := Group randomId 0 true timestamp
               (sort_strings [user1; user2; user3]) in
  createGroup key1 key2 key3 timestamp randomId s
  = if isDuplicate user1 user2 user3 (newGroups s)
       || isDuplicate user1 user2 user3 (groups s)
    then Throw "Duplicate group" s
    else if bool_decide (indexOf (userConnections key1 s) key2 < 0)%Z
            || bool_decide (indexOf (userConnections key1 s) key3 < 0)%Z
    then Throw "Creator isn't connected to one or both of the co-founders" s
    else if decide (randomId ∈ g_key <$> newGroups s)
    then Throw "unique constraint violated" s
    else Ok doc
           (insert_edge usersInNewGroupsColl user1 ("newGroups/" +:+ randomId)
              timestamp (set_newGroups (newGroups s ++ [doc]) s)).
Proof.
  intros. unfold createGroup, mbind, M_bind, bind, gets, throw.
  destruct (_ || _); [done|]. destruct (_ || _); [done|].
  unfold save_newGroup. cbn [g_key newGroups].
  destruct (decide _); [done|]. done.
Qed.

Lemma deleteGroup_eq groupId key timestamp s :
  deleteGroup groupId key timestamp s
  = match filter (λ i, g_key i = groupId) (newGroups s) with
    | [] => Throw "Group not found" s
    | group :: _ =>
        if bool_decide (indexOf (g_founders group) ("users/" +:+ key) < 0)%Z
        then Throw "Access Denied" s
        else Ok tt
               (remove_newGroup (g_key group)
                  (coll_set usersInNewGroupsColl
                     (filter (λ i, e_to i ≠ "newGroups/" +:+ groupId)
                        (usersInNewGroups s)) s))
    end.
Proof.
  unfold deleteGroup, mbind, M_bind, bind, gets, throw, modify.
  destruct (filter _ _) as [|group ?]; [done|]. by destruct (bool_decide _).
Qed.

Lemma addMembership_eq groupId key timestamp s :
  addMembership groupId key timestamp s
  = match filter (λ i, g_key i = groupId) (groups s) with
    | _ :: _ =>
        if isEligible groupId key s
        then Ok tt (insert_edge usersInGroupsColl ("users/" +:+ key)
                      ("groups/" +:+ groupId) timestamp s)
        else Throw "Not eligible to join this group" s
    | [] =>
        match filter (λ i, g_key i = groupId) (newGroups s) with
        | [] => Throw "Group not found" s
        | group :: _ =>
            if bool_decide (indexOf (g_founders group) ("users/" +:+ key) < 0)%Z
            then Throw "Access denied" s
            else
              let s1 := joined groupId key timestamp s in
              let docs := forming_edges groupId s1 in
              if bool_decide (length (new_Set (e_from <$> docs))
                              = length (g_founders group))
              then Ok tt (promoted group docs s1)
              else Ok tt s1
        end
    end.
Proof.
  unfold addMembership, mbind, M_bind, bind, gets, throw, modify, mret, M_ret,
    ret, addUserToGroup.
  destruct (filter _ (groups s)) as [|g0 ?]; cbn [nonempty].
  - destruct (filter _ (newGroups s)) as [|group ?]; [done|].
    cbn [andb]. destruct (bool_decide (indexOf _ _ < 0)%Z); [done|].
    unfold modify, promoted, forming_edges, joined.
    change (("newGroups" +:+ "/") +:+ groupId)
      with ("newGroups/" +:+ groupId).
    by destruct (bool_decide (length _ = _)).
  - cbn [andb]. by destruct (isEligible groupId key s).
Qed.

(** The loop of the promotion, collection by collection. *)
Lemma foldl_move_membership docs s :
  let s' := foldl move_membership s docs in
  connections s' = connections s
  ∧ removed s' = removed s
  ∧ groups s' = groups s
  ∧ newGroups s' = newGroups s
  ∧ usersInGroups s' = usersInGroups s ++ moved (next_key s) docs
  ∧ usersInNewGroups s'
    = filter (λ i, e_key i ∉ e_key <$> docs) (usersInNewGroups s)
  ∧ users s' = users s
  ∧ contexts s' = contexts s
  ∧ sponsorships s' = sponsorships s
  ∧ next_key s' = (next_key s + N.of_nat (length docs))%N.
Proof.
  revert s. induction docs as [|doc docs IH]; intros s; cbn [foldl].
  - cbn. split_and!; try done.
    + by rewrite app_nil_r.
    + symmetry. apply filter_all. intros x _. apply not_elem_of_nil.
    + lia.
  - specialize (IH (move_membership s doc)). cbn zeta in IH.
    destruct IH as (H1 & H2 & H3 & H4 & H5 & H6 & H7 & H8 & H9 & H10).
    cbn zeta. rewrite H1, H2, H3, H4, H5, H6, H7, H8, H9, H10.
    split_and!; try done.
    + cbn. by rewrite <- app_assoc.
    + cbn. rewrite list_filter_filter. apply filter_ext_in.
      intros x _. rewrite elem_of_cons. tauto.
    + cbn [length]. cbn. lia.
Qed.

Lemma moved_spec k docs :
  e_from <$> moved k docs = e_from <$> docs
  ∧ e_timestamp <$> moved k docs = e_timestamp <$> docs
  ∧ e_to <$> moved k docs
    = (λ doc, replace "newGroups" "groups" (e_to doc)) <$> docs
  ∧ e_key <$> moved k docs
    = (λ i, (k + N.of_nat i)%N) <$> seq 0 (length docs).
Proof.
  revert k. induction docs as [|doc docs IH]; intros k; [done|].
  destruct (IH (N.succ k)) as (H1 & H2 & H3 & H4).
  cbn [moved fmap list_fmap length seq].
  change (list_fmap edge string e_from) with (fmap (M:=list) e_from).
  change (list_fmap edge Z e_timestamp) with (fmap (M:=list) e_timestamp).
  change (list_fmap edge string e_to) with (fmap (M:=list) e_to).
  change (list_fmap edge N e_key) with (fmap (M:=list) e_key).
  rewrite H1, H2, H3, H4. split_and!; try done.
  cbn. f_equal; [lia|].
  rewrite <- seq_shift. rewrite <- list_fmap_compose.
  apply list_fmap_ext. intros i x _. simpl. lia.
Qed.

Lemma indexOf_lt_0 (l : list string) (x : string) :
  (indexOf l x < 0)%Z ↔ x ∉ l.
Proof.
  unfold indexOf. destruct (list_find _ l) as [[i y]|] eqn:Hf.
  - apply list_find_Some in Hf as (Hi & -> & _).
    apply list_elem_of_lookup_2 in Hi. split; [lia|done].
  - apply list_find_None in Hf. rewrite Forall_forall in Hf. split; [|lia].
    intros _ Hx. by apply (Hf x).
Qed.

Lemma sort_strings_Permutation l : sort_strings l ≡ₚ l.
Proof. apply merge_sort_Permutation. Qed.

Lemma head_filter_elem {A} (P : A → Prop) `{!∀ x, Decision (P x)}
    (l : list A) x rest :
  filter P l = x :: rest → x ∈ l ∧ P x.
Proof.
  intros Hf. assert (x ∈ filter P l) as Hx by (rewrite Hf; left).
  apply list_elem_of_filter in Hx. tauto.
Qed.

Lemma newGroups_inj (a b : string) :
  "newGroups/" +:+ a = "newGroups/" +:+ b → a = b.
Proof. intros H. by simplify_eq/=. Qed.

(** *** The invariant *)

Lemma keys_ok_frame s s' :
  connections s' = connections s →
  removed s' = removed s →
  (next_key s ≤ next_key s')%N →
  keys_ok s → keys_ok s'.
Proof.
  intros Hc Hr Hn (H1 & H2 & H3). unfold keys_ok. rewrite Hc, Hr.
  split_and!; [done|done|]. intros e He. specialize (H3 e He). lia.
Qed.

Lemma forming_ok_frame s s' :
  newGroups s' = newGroups s →
  usersInNewGroups s' = usersInNewGroups s →
  forming_ok s → forming_ok s'.
Proof. intros Hg Hm. unfold forming_ok. by rewrite Hg, Hm. Qed.

Lemma user_ids_ok_frame s s' :
  connections s' = connections s →
  usersInGroups s' = usersInGroups s →
  usersInNewGroups s' = usersInNewGroups s →
  user_ids_ok s → user_ids_ok s'.
Proof. intros Hc Hg Hm. unfold user_ids_ok. by rewrite Hc, Hg, Hm. Qed.

Lemma is_user_users key : is_user ("users/" +:+ key).
Proof. by exists key. Qed.

Lemma wf_perform c s : wf s → wf (store_of (perform c s)).
Proof.
  intros (Hk & Hu & Hf). split_and!.
  - by apply keys_ok_perform.
  - rewrite perform_eq. simpl. destruct (_ && _); [|done].
    destruct Hu as (Hc & Hg & Hn). split_and!.
    + rewrite clean_connections.
      intros e [_ [He|He]%elem_of_app]%list_elem_of_filter; [auto|].
      destruct (c_kind c); [|by apply not_elem_of_nil in He].
      apply list_elem_of_singleton in He as ->.
      split; apply is_user_users.
    + by destruct (c_kind c).
    + by destruct (c_kind c).
  - rewrite perform_eq. simpl. destruct (_ && _); [|done].
    eapply forming_ok_frame; [| |done]; by destruct (c_kind c).
Qed.

Lemma wf_createGroup key1 key2 key3 timestamp randomId s :
  wf s → wf (store_of (createGroup key1 key2 key3 timestamp randomId s)).
Proof.
  intros Hwf. rewrite createGroup_eq.
  destruct (_ || _); [done|]. destruct (_ || _); [done|].
  destruct (decide _) as [|Hfresh]; [done|]. cbn [store_of].
  destruct Hwf as (Hk & Hu & Hn & Hg & Hm). split_and!.
  - eapply keys_ok_frame; [| | |done]; simpl; [done|done|lia].
  - destruct Hu as (Hc & Hug & Hun). split_and!; [done|done|]. simpl.
    intros m [Hin|Hin%list_elem_of_singleton]%elem_of_app; [auto|].
    subst m. apply is_user_users.
  - unfold forming_ok. simpl. split_and!.
    + rewrite fmap_app. apply NoDup_app. split_and!; [done| |].
      * intros x Hx Hx'%list_elem_of_singleton. simpl in Hx'. by subst x.
      * apply NoDup_singleton.
    + intros g [Hin|Hin%list_elem_of_singleton]%elem_of_app; [auto|].
      subst g. simpl. split_and!; [done|done|].
      by rewrite sort_strings_Permutation.
    + intros m [Hin|Hin%list_elem_of_singleton]%elem_of_app.
      * destruct (Hm m Hin) as (g & ? & ? & ?). exists g.
        split_and!; [|done|done]. apply elem_of_app. by left.
      * subst m. eexists. split_and!.
        -- apply elem_of_app. right. left.
        -- done.
        -- simpl. rewrite sort_strings_Permutation. left.
Qed.

Lemma wf_deleteGroup groupId key timestamp s :
  wf s → wf (store_of (deleteGroup groupId key timestamp s)).
Proof.
  intros Hwf. rewrite deleteGroup_eq.
  destruct (filter _ (newGroups s)) as [|group rest] eqn:Hfil; [done|].
  destruct (bool_decide _); [done|]. cbn [store_of].
  apply head_filter_elem in Hfil as [Hgin Hgk].
  destruct Hwf as (Hk & Hu & Hn & Hg & Hm). split_and!.
  - by eapply keys_ok_frame.
  - destruct Hu as (Hc & Hug & Hun). split_and!; [done|done|]. simpl.
    intros m [_ Hin]%list_elem_of_filter. auto.
  - unfold forming_ok. simpl. split_and!.
    + eapply sublist_NoDup; [done|]. apply fmap_sublist, sublist_filter.
    + intros g [_ Hin]%list_elem_of_filter. auto.
    + intros m [Hto Hin]%list_elem_of_filter.
      destruct (Hm m Hin) as (g & ? & Heq & ?). exists g.
      split_and!; [|done|done]. apply list_elem_of_filter. split; [|done].
      intros Hkey. apply Hto. by rewrite Heq, Hkey, Hgk.
Qed.

(** The join of a founder keeps the invariant. *)
Lemma wf_joined groupId key timestamp s group rest :
  wf s →
  filter (λ i, g_key i = groupId) (newGroups s) = group :: rest →
  "users/" +:+ key ∈ g_founders group →
  wf (joined groupId key timestamp s).
Proof.
  intros (Hk & Hu & Hn & Hg & Hm) Hfil Hfounder.
  apply head_filter_elem in Hfil as [Hgin Hgk]. split_and!.
  - eapply keys_ok_frame; [| | |done]; simpl; [done|done|lia].
  - destruct Hu as (Hc & Hug & Hun). split_and!; [done|done|]. simpl.
    intros m [Hin|Hin%list_elem_of_singleton]%elem_of_app; [auto|].
    subst m. apply is_user_users.
  - unfold forming_ok. simpl. split_and!; [done|done|].
    intros m [Hin|Hin%list_elem_of_singleton]%elem_of_app; [auto|].
    subst m. exists group. simpl. by rewrite Hgk.
Qed.

(** The promotion keeps the invariant. *)
Lemma wf_promoted groupId group docs s :
  wf s →
  g_key group = groupId →
  docs = forming_edges groupId s →
  wf (promoted group docs s).
Proof.
  intros (Hk & Hu & Hn & Hg & Hm) Hgk Hdocs. unfold promoted.
  destruct (foldl_move_membership docs
    (set_groups (groups s ++ [Group (g_key group) 0 false (g_timestamp group)
                                (g_founders group)]) s))
    as (H1 & H2 & H3 & H4 & H5 & H6 & H7 & H8 & H9 & H10).
  set (s2 := foldl move_membership _ docs) in *. simpl in *.
  split_and!.
  - eapply keys_ok_frame; [| | |done]; simpl; [done|done|].
    rewrite H10. lia.
  - destruct Hu as (Hc & Hug & Hun). unfold user_ids_ok. simpl.
    rewrite H1, H5, H6. split_and!; [done| |].
    + intros m [Hin|Hin]%elem_of_app; [auto|].
      assert (e_from m ∈ e_from <$> moved (next_key s) docs) as Hf
        by by apply list_elem_of_fmap_2.
      rewrite (proj1 (moved_spec _ _)) in Hf.
      apply list_elem_of_fmap in Hf as (doc & -> & Hdoc).
      apply Hun. rewrite Hdocs in Hdoc.
      by apply list_elem_of_filter in Hdoc as [_ ?].
    + intros m [_ Hin]%list_elem_of_filter. auto.
  - unfold forming_ok. simpl. rewrite H4, H6. split_and!.
    + eapply sublist_NoDup; [done|]. apply fmap_sublist, sublist_filter.
    + intros g [_ Hin]%list_elem_of_filter. auto.
    + intros m [Hkey Hin]%list_elem_of_filter.
      destruct (Hm m Hin) as (g & ? & Heq & ?). exists g.
      split_and!; [|done|done]. apply list_elem_of_filter. split; [|done].
      intros Hg'. apply Hkey. apply list_elem_of_fmap_2.
      rewrite Hdocs. apply list_elem_of_filter. split; [|done].
      by rewrite Heq, Hg', Hgk.
Qed.

Lemma wf_addMembership groupId key timestamp s :
  wf s → wf (store_of (addMembership groupId key timestamp s)).
Proof.
  intros Hwf. rewrite addMembership_eq.
  destruct (filter _ (groups s)) as [|g0 rest0].
  - destruct (filter _ (newGroups s)) as [|group rest] eqn:Hfil; [done|].
    case_bool_decide as Hidx; [done|]. rewrite indexOf_lt_0 in Hidx.
    apply dec_stable in Hidx.
    pose proof (wf_joined groupId key timestamp s group rest Hwf Hfil Hidx)
      as Hwf1.
    cbn zeta. case_bool_decide; [|done]. cbn [store_of].
    apply (wf_promoted groupId); [done| |done].
    by apply head_filter_elem in Hfil as [_ ?].
  - destruct (isEligible groupId key s); [|done]. cbn [store_of].
    destruct Hwf as (Hk & Hu & Hf). split_and!.
    + eapply keys_ok_frame; [| | |done]; simpl; [done|done|lia].
    + destruct Hu as (Hc & Hug & Hun). split_and!; [done| |done]. simpl.
      intros m [Hin|Hin%list_elem_of_singleton]%elem_of_app; [auto|].
      subst m. apply is_user_users.
    + by eapply forming_ok_frame.
Qed.

(** Every request keeps the invariant of the store. *)
Lemma wf_exec o s : wf s → wf (exec s o).
Proof.
  intros Hwf. destruct o; cbn [exec].
  - apply (wf_perform (Call ConnectionEdge key1 key2 timestamp) s Hwf).
  - apply (wf_perform (Call RemovalEdge key1 key2 timestamp) s Hwf).
  - unfold createUser, mbind, M_bind, bind, gets, throw.
    destruct (loadUser key s); [done|]. cbn.
    destruct Hwf as (Hk & Hu & Hf). split_and!.
    + by eapply keys_ok_frame.
    + by eapply user_ids_ok_frame.
    + by eapply forming_ok_frame.
  - by apply wf_createGroup.
  - by apply wf_deleteGroup.
  - by apply wf_addMembership.
  - cbn. destruct Hwf as (Hk & Hu & Hf). split_and!.
    + by eapply keys_ok_frame.
    + destruct Hu as (Hc & Hug & Hun). split_and!; [done| |done]. simpl.
      intros m [_ Hin]%list_elem_of_filter. auto.
    + by eapply forming_ok_frame.
  - cbn. destruct Hwf as (Hk & Hu & Hf). split_and!.
    + eapply keys_ok_frame; [| | |done]; simpl; [done|done|lia].
    + by eapply user_ids_ok_frame.
    + by eapply forming_ok_frame.
Qed.

Lemma wf_empty : wf empty_store.
Proof.
  split_and!.
  - apply keys_ok_empty.
  - split_and!; intros x Hx; by apply not_elem_of_nil in Hx.
  - split_and!; [constructor| |]; intros x Hx; by apply not_elem_of_nil in Hx.
Qed.

(** Every store reached from the empty one satisfies the invariant. *)
Lemma wf_run ops s : wf s → wf (run ops s).
Proof.
  revert s. induction ops as [|o ops IH]; intros s Hwf; [done|].
  apply IH. by apply wf_exec.
Qed.

(** *** Promotion *)

Lemma size_list_to_set_le (l : list string) :
  size (list_to_set l : gset string) ≤ length l.
Proof.
  rewrite (size_of_list (remove_dups l)).
  - apply submseteq_length, NoDup_submseteq; [apply NoDup_remove_dups|].
    intros x. by rewrite elem_of_remove_dups.
  - apply NoDup_remove_dups.
  - intros x. by rewrite elem_of_list_to_set, elem_of_remove_dups.
Qed.

Lemma forming_edges_joined groupId key timestamp s :
  forming_edges groupId (joined groupId key timestamp s)
  = forming_edges groupId s
    ++ [Edge (next_key s) ("users/" +:+ key) ("newGroups/" +:+ groupId)
          timestamp].
Proof.
  unfold forming_edges. simpl. rewrite filter_app.
  by rewrite filter_cons_True.
Qed.

Lemma replace_newGroups groupId :
  replace "newGroups" "groups" ("newGroups/" +:+ groupId)
  = "groups/" +:+ groupId.
Proof. apply (replace_prefix "newGroups" "groups" ("/" +:+ groupId)). Qed.

(** A membership of the new group of key [g_key group] is a founder's. *)
Lemma forming_edges_founders s group m :
  forming_ok s → group ∈ newGroups s →
  m ∈ forming_edges (g_key group) s → e_from m ∈ g_founders group.
Proof.
  intros (Hn & _ & Hm) Hg [Hto Hin]%list_elem_of_filter.
  destruct (Hm m Hin) as (g & Hgin & Heq & Hf).
  rewrite Heq in Hto. apply newGroups_inj in Hto.
  by rewrite <- (NoDup_fmap_eq g_key (newGroups s) g group Hn Hgin Hg Hto).
Qed.

Lemma promoted_fields (forming : group) docs s :
  groups (promoted forming docs s)
  = groups s ++ [Group (g_key forming) 0 false (g_timestamp forming)
                   (g_founders forming)]
  ∧ newGroups (promoted forming docs s)
    = filter (λ i, g_key i ≠ g_key forming) (newGroups s)
  ∧ usersInGroups (promoted forming docs s)
    = usersInGroups s ++ moved (next_key s) docs
  ∧ usersInNewGroups (promoted forming docs s)
    = filter (λ i, e_key i ∉ e_key <$> docs) (usersInNewGroups s).
Proof.
  unfold promoted.
  destruct (foldl_move_membership docs
    (set_groups (groups s ++ [Group (g_key forming) 0 false
                                (g_timestamp forming) (g_founders forming)])
       s))
    as (_ & _ & Hgr & Hng & Hug & Hun & _).
  simpl. by rewrite Hgr, Hng, Hug, Hun.
Qed.

(** C3. When the join of a founder of a new group brings the number of
    distinct founders that have joined up to the number of founders, which
    is 3, [addMembership] saves in [groups] a record with the key,
    founders, timestamp and score of the new group; it writes to
    [usersInGroups], for every membership of the new group, the founder's
    own included, a membership of the established group with the same user
    and timestamp; no membership of the new group and no record of it in
    [newGroups] is left; and every founder is a member of the established
    group. *)
Theorem addMembership_promotes (groupId key : string) (timestamp : Z)
    (s : store) (forming : group) (rest : list group) :
  wf s →
  filter (λ i, g_key i = groupId) (groups s) = [] →
  filter (λ i, g_key i = groupId) (newGroups s) = forming :: rest →
  "users/" +:+ key ∈ g_founders forming →
  size ({[ "users/" +:+ key ]} ∪ joined_founders groupId s)
  = length (g_founders forming) →
  ∃ s' established new_edges,
    addMembership groupId key timestamp s = Ok tt s'
    ∧ length (g_founders forming) = 3
    ∧ groups s' = groups s ++ [established]
    ∧ g_key established = groupId
    ∧ g_isNew established = false
    ∧ g_founders established = g_founders forming
    ∧ g_timestamp established = g_timestamp forming
    ∧ g_score established = g_score forming
    ∧ usersInGroups s' = usersInGroups s ++ new_edges
    ∧ who_when <$> new_edges
      = (who_when <$> forming_edges groupId s)
        ++ [("users/" +:+ key, timestamp)]
    ∧ (∀ m, m ∈ new_edges → e_to m = "groups/" +:+ groupId)
    ∧ forming_edges groupId s' = []
    ∧ filter (λ i, g_key i = groupId) (newGroups s') = []
    ∧ (∀ founder, founder ∈ g_founders forming →
         ∃ m, m ∈ established_edges groupId s' ∧ e_from m = founder).
Proof.
  intros Hwf Hnone Hfil Hfounder Hcount.
  pose proof (wf_joined groupId key timestamp s forming rest Hwf Hfil Hfounder)
    as Hwf1.
  pose proof Hfil as [Hgin Hgk]%head_filter_elem.
  destruct Hwf as (_ & _ & _ & Hg & _). destruct (Hg forming Hgin) as (Hs & _ & H3).
  set (s1 := joined groupId key timestamp s) in *.
  set (docs := forming_edges groupId s1).
  assert (docs = forming_edges groupId s
                 ++ [Edge (next_key s) ("users/" +:+ key)
                       ("newGroups/" +:+ groupId) timestamp]) as Hdocs
    by apply forming_edges_joined.
  assert (list_to_set (e_from <$> docs)
          = ({[ "users/" +:+ key ]} ∪ joined_founders groupId s : gset string))
    as Hset.
  { rewrite Hdocs, fmap_app, list_to_set_app_L. unfold joined_founders.
    simpl. rewrite union_empty_r_L. apply union_comm_L. }
  assert (length (new_Set (e_from <$> docs)) = length (g_founders forming))
    as Hlen.
  { rewrite <- Hcount, <- Hset. symmetry.
    destruct (new_Set_spec (e_from <$> docs)) as [Hnd Hel].
    apply size_of_list; [done|]. intros x.
    by rewrite elem_of_list_to_set, Hel. }
  destruct (promoted_fields forming docs s1) as (Hgr & Hng & Hug & Hun).
  change (next_key s1) with (N.succ (next_key s)) in Hug.
  change (groups s1) with (groups s) in Hgr.
  change (usersInGroups s1) with (usersInGroups s) in Hug.
  exists (promoted forming docs s1),
    (Group (g_key forming) 0 false (g_timestamp forming) (g_founders forming)),
    (moved (N.succ (next_key s)) docs).
  assert (∀ m, m ∈ moved (N.succ (next_key s)) docs →
               e_to m = "groups/" +:+ groupId) as Hto.
  { intros m Hm.
    assert (e_to m ∈ e_to <$> moved (N.succ (next_key s)) docs) as Hin
      by by apply list_elem_of_fmap_2.
    rewrite (proj1 (proj2 (proj2 (moved_spec _ _)))) in Hin.
    apply list_elem_of_fmap in Hin as (doc & -> & Hdoc).
    apply list_elem_of_filter in Hdoc as [-> _]. apply replace_newGroups. }
  split_and!; try done.
  - rewrite addMembership_eq, Hnone, Hfil.
    rewrite bool_decide_eq_false_2 by (by rewrite indexOf_lt_0; intros H; apply H).
    cbn zeta. fold s1. fold docs. by rewrite bool_decide_eq_true_2.
  - unfold who_when.
    assert (∀ l l' : list edge,
      e_from <$> l = e_from <$> l' → e_timestamp <$> l = e_timestamp <$> l' →
      (λ m, (e_from m, e_timestamp m)) <$> l
      = (λ m, (e_from m, e_timestamp m)) <$> l') as Hzip.
    { induction l as [|x l IH]; intros [|x' l'] Hf Ht; try done.
      simpl in *. simplify_eq. f_equal; [by f_equal|]. by apply IH. }
    rewrite (Hzip _ docs); [|apply moved_spec|apply moved_spec].
    by rewrite Hdocs, fmap_app.
  - unfold forming_edges at 1. rewrite Hun.
    apply filter_none. intros m [Hkey Hin]%list_elem_of_filter Hm.
    apply Hkey. apply list_elem_of_fmap_2. by apply list_elem_of_filter.
  - rewrite Hng, list_filter_filter.
    apply filter_none. intros g _ [Hne Heq]. congruence.
  - intros founder Hf.
    assert (list_to_set (e_from <$> docs)
            = (list_to_set (g_founders forming) : gset string)) as Heq.
    { apply set_subseteq_size_eq.
      - intros x. rewrite !elem_of_list_to_set.
        intros (m & -> & Hm)%list_elem_of_fmap.
        apply (forming_edges_founders s1); [apply Hwf1| |by rewrite Hgk].
        simpl. done.
      - rewrite Hset, Hcount. apply size_list_to_set_le. }
    assert (founder ∈ e_from <$> docs) as Hin.
    { apply (elem_of_list_to_set (C:=gset string)). rewrite Heq.
      by apply elem_of_list_to_set. }
    rewrite <- (proj1 (moved_spec (N.succ (next_key s)) docs)) in Hin.
    apply list_elem_of_fmap in Hin as (m & -> & Hm). exists m.
    split; [|done]. unfold established_edges. rewrite Hug.
    apply list_elem_of_filter. split; [by apply Hto|].
    apply elem_of_app. by right.
Qed.

Lemma addMembership_promotes_witness :
  ∃ s' established new_edges,
    addMembership "G1" "c" 5 two_joined = Ok tt s'
    ∧ length ["users/a"; "users/b"; "users/c"] = 3
    ∧ groups s' = groups two_joined ++ [established]
    ∧ g_key established = "G1"
    ∧ g_isNew established = false
    ∧ g_founders established = ["users/a"; "users/b"; "users/c"]
    ∧ g_timestamp established = 3%Z
    ∧ g_score established = 0%Z
    ∧ usersInGroups s' = usersInGroups two_joined ++ new_edges
    ∧ who_when <$> new_edges
      = (who_when <$> forming_edges "G1" two_joined) ++ [("users/c", 5%Z)]
    ∧ (∀ m, m ∈ new_edges → e_to m = "groups/G1")
    ∧ forming_edges "G1" s' = []
    ∧ filter (λ i, g_key i = "G1") (newGroups s') = []
    ∧ (∀ founder, founder ∈ ["users/a"; "users/b"; "users/c"] →
         ∃ m, m ∈ established_edges "G1" s' ∧ e_from m = founder).
Proof.
  apply (addMembership_promotes "G1" "c" 5 two_joined
           (Group "G1" 0 true 3 ["users/a"; "users/b"; "users/c"]) []).
  - apply wf_run, wf_empty.
  - reflexivity.
  - reflexivity.
  - right. right. left.
  - vm_compute. reflexivity.
Defined.

(** *** The order of strings *)

Lemma ascii_compare_trans_le a b c :
  Ascii.compare a b ≠ Gt → Ascii.compare b c ≠ Gt → Ascii.compare a c ≠ Gt.
Proof.
  unfold Ascii.compare. rewrite !N.compare_gt_iff. lia.
Qed.

Lemma ascii_compare_Eq a b : Ascii.compare a b = Eq ↔ a = b.
Proof.
  split; [apply Ascii.compare_eq_iff|].
  intros ->. unfold Ascii.compare. apply N.compare_refl.
Qed.

Lemma string_compare_trans_le x y z :
  String.compare x y ≠ Gt → String.compare y z ≠ Gt →
  String.compare x z ≠ Gt.
Proof.
  revert y z. induction x as [|a x IH]; intros [|b y] [|c z]; simpl;
    try done.
  destruct (Ascii.compare a b) eqn:Hab; [| |done];
    destruct (Ascii.compare b c) eqn:Hbc; try done; intros H1 H2.
  - apply ascii_compare_Eq in Hab as ->. apply ascii_compare_Eq in Hbc as ->.
    assert (Ascii.compare c c = Eq) as -> by by apply ascii_compare_Eq.
    by apply (IH y).
  - apply ascii_compare_Eq in Hab as ->. by rewrite Hbc.
  - apply ascii_compare_Eq in Hbc as ->. by rewrite Hab.
  - assert (Ascii.compare a c = Lt) as ->; [|done].
    unfold Ascii.compare in *. rewrite N.compare_lt_iff in *. lia.
Qed.

Lemma str_le_compare x y : str_le x y ↔ String.compare x y ≠ Gt.
Proof.
  unfold str_le, String.leb. by destruct (String.compare x y).
Qed.

#[global] Instance str_le_trans : Transitive str_le.
Proof.
  intros x y z. rewrite !str_le_compare. apply string_compare_trans_le.
Qed.

#[global] Instance str_le_total : Total str_le.
Proof. intros x y. apply String.leb_total. Qed.

#[global] Instance str_le_antisym : AntiSymm (=) str_le.
Proof. intros x y. apply String.leb_antisym. Qed.

(** [sort] gives the one sorted arrangement of its argument: the order of
    the argument does not matter. *)
Lemma sort_strings_canonical l :
  Sorted str_le (sort_strings l)
  ∧ sort_strings l ≡ₚ l
  ∧ ∀ l', l' ≡ₚ l → sort_strings l' = sort_strings l.
Proof.
  split_and!.
  - apply Sorted_merge_sort; apply _.
  - apply sort_strings_Permutation.
  - intros l' Hp. apply (Sorted_unique str_le).
    + apply Sorted_merge_sort; apply _.
    + apply Sorted_merge_sort; apply _.
    + by rewrite !sort_strings_Permutation.
Qed.

(** *** Creation of a group *)

Lemma isDuplicate_spec user1 user2 user3 collection :
  isDuplicate user1 user2 user3 collection = true
  ↔ lists_founders user1 user2 user3 collection.
Proof.
  unfold isDuplicate, lists_founders. rewrite bool_decide_eq_true.
  destruct (filter _ collection) as [|g l] eqn:Hf.
  - simpl. split; [lia|]. intros (g & Hin & H).
    by destruct (filter_nil_not_elem_of _ _ g Hf).
  - simpl. split; [|lia]. intros _.
    apply head_filter_elem in Hf as [Hin H]. by exists g.
Qed.

Lemma same_founders_lists user1 user2 user3 collection :
  same_founders user1 user2 user3 collection →
  lists_founders user1 user2 user3 collection.
Proof.
  intros (g & Hin & Hp). exists g. rewrite Hp.
  split_and!; [done| | |]; repeat constructor.
Qed.

Lemma lists_founders_same user1 user2 user3 collection :
  NoDup [user1; user2; user3] →
  (∀ g, g ∈ collection → length (g_founders g) = 3) →
  lists_founders user1 user2 user3 collection →
  same_founders user1 user2 user3 collection.
Proof.
  intros Hnd Hlen (g & Hin & H1 & H2 & H3). exists g. split; [done|].
  symmetry. apply submseteq_length_Permutation.
  - apply NoDup_submseteq; [done|].
    intros x [->|[->|[->|Hx%elem_of_nil]%elem_of_cons]%elem_of_cons]%elem_of_cons;
      done.
  - by rewrite (Hlen g Hin).
Qed.

Lemma indexOf_userConnections key1 key2 s :
  user_ids_ok s →
  ¬ (indexOf (userConnections key1 s) key2 < 0)%Z ↔ connected key1 key2 s.
Proof.
  intros Hok. rewrite indexOf_lt_0.
  rewrite <- (proj2 (userConnections_spec key1 s Hok)).
  split; [apply dec_stable|]. intros H Hn. by apply Hn.
Qed.

(** Promotion is the only writer of [groups], and a new group has three
    founders. *)
Lemma groups_ok_exec o s : wf s → groups_ok s → groups_ok (exec s o).
Proof.
  intros Hwf Hok. destruct o; cbn [exec].
  - change (addConnection key1 key2 timestamp)
      with (perform (Call ConnectionEdge key1 key2 timestamp)).
    rewrite perform_eq. simpl. by destruct (_ && _).
  - change (removeConnection key1 key2 timestamp)
      with (perform (Call RemovalEdge key1 key2 timestamp)).
    rewrite perform_eq. simpl. by destruct (_ && _).
  - unfold createUser, mbind, M_bind, bind, gets, throw.
    by destruct (loadUser key s).
  - rewrite createGroup_eq.
    destruct (_ || _); [done|]. destruct (_ || _); [done|].
    by destruct (decide _).
  - rewrite deleteGroup_eq. destruct (filter _ _); [done|].
    by destruct (bool_decide _).
  - rewrite addMembership_eq.
    destruct (filter _ (groups s)) as [|g0 rest0].
    + destruct (filter _ (newGroups s)) as [|forming rest] eqn:Hfil; [done|].
      destruct (bool_decide _); [done|]. cbn zeta.
      destruct (bool_decide _); [|done]. cbn [store_of].
      intros g. rewrite (proj1 (promoted_fields _ _ _)). simpl.
      intros [Hin|Hin%list_elem_of_singleton]%elem_of_app; [auto|].
      subst g. simpl. apply head_filter_elem in Hfil as [Hin _].
      destruct Hwf as (_ & _ & _ & Hg & _). by apply Hg.
    + by destruct (isEligible _ _ _).
  - done.
  - done.
Qed.

Lemma groups_ok_run ops s :
  wf s → groups_ok s → groups_ok (run ops s).
Proof.
  revert s. induction ops as [|o ops IH]; intros s Hwf Hok; [done|].
  apply IH; [by apply wf_exec|by apply groups_ok_exec].
Qed.

Lemma groups_ok_empty : groups_ok empty_store.
Proof. intros g Hg. by apply not_elem_of_nil in Hg. Qed.

(** C7, as stated, fails: [a], connected to [b] and [c], has created a
    group with them; creating a group of [a], [b] and [b] then throws
    'Duplicate group', though no group has these founders and [a] is
    connected to both cofounders. *)
Lemma createGroup_repeated_founder :
  (∀ g, g ∈ newGroups one_group ++ groups one_group →
        ¬ g_founders g ≡ₚ ["users/a"; "users/b"; "users/b"])
  ∧ connected "a" "b" one_group
  ∧ ("G2" ∉ g_key <$> newGroups one_group)
  ∧ createGroup "a" "b" "b" 4 "G2" one_group
    = Throw "Duplicate group" one_group.
Proof.
  split_and!; [| | |reflexivity].
  - vm_compute newGroups. vm_compute groups. simpl.
    intros g Hg%list_elem_of_singleton Hp. subst g. simpl in Hp.
    assert ("users/c" ∈ ["users/a"; "users/b"; "users/b"]) as Hc.
    { rewrite <- Hp. right. right. left. }
    repeat (apply elem_of_cons in Hc as [Hc|Hc]; [discriminate Hc|]).
    by apply not_elem_of_nil in Hc.
  - eexists. split; [left|]. left. done.
  - vm_compute newGroups. simpl. by intros Hx%list_elem_of_singleton.
Qed.

(** C7, amended. [createGroup] throws 'Duplicate group' exactly when the
    founder list of some group of [newGroups] or [groups] contains each of
    the three founders supplied, which a group with the same three founders
    in any order does, and which for three distinct founders means just
    that; otherwise it throws when the creator is not connected to both
    cofounders; otherwise, the drawn id being unused, it returns a new
    group whose founders are the three sorted, the same list for any order
    of the arguments, and leaves as only membership of the new group the
    creator's. *)
Theorem createGroup_outcome (key1 key2 key3 : string) (timestamp : Z)
    (randomId : string) (s : store) :
  wf s →
  groups_ok s →
  let user1 := "users/" +:+ key1 in
  let user2 := "users/" +:+ key2 in
  let user3 := "users/" +:+ key3 in
  let founders := sort_strings [user1; user2; user3] in
  let duplicate :=
    lists_founders user1 user2 user3 (newGroups s)
    ∨ lists_founders user1 user2 user3 (groups s) in
  let connected_both := connected key1 key2 s ∧ connected key1 key3 s in
  (duplicate →
     createGroup key1 key2 key3 timestamp randomId s
     = Throw "Duplicate group" s)
  ∧ (¬ duplicate → ¬ connected_both →
     createGroup key1 key2 key3 timestamp randomId s
     = Throw "Creator isn't connected to one or both of the co-founders" s)
  ∧ (¬ duplicate → connected_both → randomId ∉ g_key <$> newGroups s →
     ∃ s', createGroup key1 key2 key3 timestamp randomId s
           = Ok (Group randomId 0 true timestamp founders) s'
       ∧ newGroups s'
         = newGroups s ++ [Group randomId 0 true timestamp founders]
       ∧ groups s' = groups s
       ∧ usersInGroups s' = usersInGroups s
       ∧ forming_edges randomId s'
         = [Edge (next_key s) user1 ("newGroups/" +:+ randomId) timestamp])
  ∧ (same_founders user1 user2 user3 (newGroups s)
     ∨ same_founders user1 user2 user3 (groups s) → duplicate)
  ∧ (NoDup [user1; user2; user3] → duplicate →
     same_founders user1 user2 user3 (newGroups s)
     ∨ same_founders user1 user2 user3 (groups s))
  ∧ Sorted str_le founders
  ∧ founders ≡ₚ [user1; user2; user3]
  ∧ (∀ l, l ≡ₚ [user1; user2; user3] → sort_strings l = founders).
Proof.
  intros Hwf Hgroups user1 user2 user3 founders duplicate connected_both.
  pose proof Hwf as (_ & Hids & Hn & Hg & Hm).
  assert (isDuplicate user1 user2 user3 (newGroups s)
          || isDuplicate user1 user2 user3 (groups s) = true ↔ duplicate)
    as Hdup.
  { by rewrite orb_true_iff, !isDuplicate_spec. }
  assert (bool_decide (indexOf (userConnections key1 s) key2 < 0)%Z
          || bool_decide (indexOf (userConnections key1 s) key3 < 0)%Z = false
          ↔ connected_both) as Hconn.
  { rewrite orb_false_iff, !bool_decide_eq_false.
    by rewrite !indexOf_userConnections by done. }
  destruct (sort_strings_canonical [user1; user2; user3]) as (Hs1 & Hs2 & Hs3).
  split_and!; try done.
  - intros Hd. rewrite createGroup_eq. apply Hdup in Hd. fold user1 user2 user3.
    by rewrite Hd.
  - intros Hd Hc. rewrite createGroup_eq. fold user1 user2 user3.
    rewrite <- Hdup in Hd. apply not_true_is_false in Hd. rewrite Hd.
    rewrite <- Hconn in Hc. apply not_false_is_true in Hc. by rewrite Hc.
  - intros Hd Hc Hfresh. rewrite createGroup_eq. fold user1 user2 user3.
    rewrite <- Hdup in Hd. apply not_true_is_false in Hd. rewrite Hd.
    apply Hconn in Hc. rewrite Hc. rewrite decide_False by done.
    eexists. split_and!; try done.
    unfold forming_edges. simpl. rewrite filter_app.
    rewrite filter_cons_True by done. simpl.
    rewrite filter_none; [done|]. intros m Hin Hto. apply Hfresh.
    destruct (Hm m Hin) as (g & Hgin & Heq & _). rewrite Heq in Hto.
    apply newGroups_inj in Hto. rewrite <- Hto. by apply list_elem_of_fmap_2.
  - intros [H|H]; [left|right]; by apply same_founders_lists.
  - intros Hnd [H|H]; [left|right]; apply lists_founders_same; try done.
    intros g Hin. by apply Hg.
Qed.

Lemma createGroup_outcome_witness :
  ∃ s', createGroup "a" "c" "b" 3 "G1" connected_abc
        = Ok (Group "G1" 0 true 3
                (sort_strings ["users/a"; "users/c"; "users/b"])) s'
    ∧ newGroups s'
      = newGroups connected_abc
        ++ [Group "G1" 0 true 3
              (sort_strings ["users/a"; "users/c"; "users/b"])]
    ∧ groups s' = groups connected_abc
    ∧ usersInGroups s' = usersInGroups connected_abc
    ∧ forming_edges "G1" s'
      = [Edge (next_key connected_abc) "users/a" "newGroups/G1" 3].
Proof.
  apply (createGroup_outcome "a" "c" "b" 3 "G1" connected_abc
           (wf_run _ _ wf_empty) (groups_ok_run _ _ wf_empty groups_ok_empty)).
  - intros [(g & Hg & _)|(g & Hg & _)]; vm_compute in Hg; inversion Hg.
  - split.
    + exists (Edge 1 "users/c" "users/a" 2). split; [right; left|].
      right. done.
    + exists (Edge 0 "users/a" "users/b" 1). split; [left|]. left. done.
  - vm_compute. inversion 1.
Defined.

(** *** Joining again *)

Lemma groupMembers_new_spec groupId s :
  user_ids_ok s →
  NoDup (groupMembers groupId true s)
  ∧ ∀ x, x ∈ groupMembers groupId true s
         ↔ "users/" +:+ x ∈ joined_founders groupId s.
Proof.
  intros (_ & _ & Hm). unfold groupMembers, joined_founders.
  fold (forming_edges groupId s).
  assert (Forall is_user (DISTINCT (e_from <$> forming_edges groupId s)))
    as Hu.
  { apply Forall_forall. intros id.
    rewrite elem_of_DISTINCT, list_elem_of_fmap.
    intros (m & -> & [_ Hin]%list_elem_of_filter). auto. }
  split.
  - apply NoDup_strip; [done|]. apply NoDup_DISTINCT.
  - intros x. rewrite elem_of_strip by done.
    by rewrite elem_of_DISTINCT, elem_of_list_to_set.
Qed.

(** C8, as stated, fails: the creator of a new group, already a member,
    joins again and the group has two memberships of the creator. *)
Lemma addMembership_duplicates_edge :
  one_edge_per_pair (usersInNewGroups one_group)
  ∧ ∃ s', addMembership "G1" "a" 4 one_group = Ok tt s'
          ∧ usersInNewGroups s'
            = [Edge 2 "users/a" "newGroups/G1" 3;
               Edge 3 "users/a" "newGroups/G1" 4]
          ∧ ¬ one_edge_per_pair (usersInNewGroups s').
Proof.
  split.
  - vm_compute. apply NoDup_singleton.
  - exists (store_of (addMembership "G1" "a" 4 one_group)).
    split_and!; [vm_compute; reflexivity|vm_compute; reflexivity|].
    unfold one_edge_per_pair. vm_compute.
    intros [Hnot _]%NoDup_cons. apply Hnot. left.
Qed.

(** C8, amended. A join inserts a membership and replaces none.  A founder
    who is already a member of a new group, not all of whose founders have
    joined, joins again: the call returns normally, [usersInNewGroups]
    gains a further membership of the same user in the same group, the
    other collections of groups and memberships are as they were, and the
    founders that have joined, hence the members the service lists for the
    group, are the same.  A member of an established group who is eligible
    and joins again likewise adds a membership to [usersInGroups]. *)
Theorem addMembership_again (groupId key : string) (timestamp : Z)
    (s : store) :
  wf s →
  (∀ (forming : group) (rest : list group),
     filter (λ i, g_key i = groupId) (groups s) = [] →
     filter (λ i, g_key i = groupId) (newGroups s) = forming :: rest →
     "users/" +:+ key ∈ g_founders forming →
     "users/" +:+ key ∈ joined_founders groupId s →
     size (joined_founders groupId s) ≠ length (g_founders forming) →
     ∃ s', addMembership groupId key timestamp s = Ok tt s'
       ∧ usersInNewGroups s'
         = usersInNewGroups s
           ++ [Edge (next_key s) ("users/" +:+ key)
                 ("newGroups/" +:+ groupId) timestamp]
       ∧ newGroups s' = newGroups s
       ∧ groups s' = groups s
       ∧ usersInGroups s' = usersInGroups s
       ∧ joined_founders groupId s' = joined_founders groupId s
       ∧ groupMembers groupId true s' ≡ₚ groupMembers groupId true s)
  ∧ (∀ (established : group) (rest : list group),
       filter (λ i, g_key i = groupId) (groups s) = established :: rest →
       member_of groupId key s →
       isEligible groupId key s = true →
       ∃ s', addMembership groupId key timestamp s = Ok tt s'
         ∧ usersInGroups s'
           = usersInGroups s
             ++ [Edge (next_key s) ("users/" +:+ key)
                   ("groups/" +:+ groupId) timestamp]
         ∧ ∀ x, member_of groupId x s' ↔ member_of groupId x s).
Proof.
  intros Hwf. split.
  - intros forming rest Hnone Hfil Hfounder Hmember Hcount.
    pose proof (wf_joined groupId key timestamp s forming rest Hwf Hfil
                  Hfounder) as (_ & Hids1 & _).
    destruct Hwf as (_ & Hids & _).
    set (s1 := joined groupId key timestamp s) in *.
    assert (joined_founders groupId s1 = joined_founders groupId s) as Hset.
    { unfold joined_founders, s1.
      rewrite forming_edges_joined, fmap_app, list_to_set_app_L. simpl.
      rewrite union_empty_r_L, union_comm_L. apply subseteq_union_1_L.
      by apply singleton_subseteq_l. }
    exists s1. split_and!; try done.
    + rewrite addMembership_eq, Hnone, Hfil.
      rewrite bool_decide_eq_false_2
        by (by rewrite indexOf_lt_0; intros H; apply H).
      cbn zeta. fold s1. rewrite bool_decide_eq_false_2; [done|].
      intros Hlen. apply Hcount. rewrite <- Hlen, <- Hset.
      destruct (new_Set_spec (e_from <$> forming_edges groupId s1))
        as [Hnd Hel].
      apply size_of_list; [done|]. intros x. unfold joined_founders.
      by rewrite elem_of_list_to_set, Hel.
    + destruct (groupMembers_new_spec groupId s Hids) as [Hn Hx].
      destruct (groupMembers_new_spec groupId s1 Hids1) as [Hn1 Hx1].
      apply NoDup_Permutation; [done|done|].
      intros x. by rewrite Hx, Hx1, Hset.
  - intros established rest Hfil Hmember Helig.
    eexists. split_and!.
    + by rewrite addMembership_eq, Hfil, Helig.
    + done.
    + intros x. unfold member_of. simpl. split.
      * intros (m & [Hin|Hin%list_elem_of_singleton]%elem_of_app & Hf & Ht).
        -- by exists m.
        -- subst m. simpl in Hf. apply users_inj in Hf. by subst x.
      * intros (m & Hin & Hf & Ht). exists m. split; [|done].
        apply elem_of_app. by left.
Qed.

Lemma addMembership_again_witness :
  ∃ s', addMembership "G1" "a" 4 one_group = Ok tt s'
    ∧ usersInNewGroups s'
      = usersInNewGroups one_group
        ++ [Edge (next_key one_group) "users/a" "newGroups/G1" 4]
    ∧ newGroups s' = newGroups one_group
    ∧ groups s' = groups one_group
    ∧ usersInGroups s' = usersInGroups one_group
    ∧ joined_founders "G1" s' = joined_founders "G1" one_group
    ∧ groupMembers "G1" true s' ≡ₚ groupMembers "G1" true one_group.
Proof.
  apply (proj1 (addMembership_again "G1" "a" 4 one_group
                  (wf_run _ _ wf_empty))
           (Group "G1" 0 true 3 ["users/a"; "users/b"; "users/c"]) []).
  - reflexivity.
  - reflexivity.
  - left.
  - vm_compute. reflexivity.
  - vm_compute. lia.
Defined.

(** ** Discovery of eligible groups *)

Lemma count_fmap {A} (f : A → string) (v : string) (l : list A) :
  length (filter (λ x, x = v) (f <$> l))
  = length (filter (λ a, f a = v) l).
Proof.
  induction l as [|a l IH]; [done|].
  rewrite fmap_cons, !filter_cons.
  destruct (decide (f a = v)); simpl; by rewrite IH.
Qed.

Lemma COLLECT_COUNT_spec (l : list string) v n :
  (v, n) ∈ COLLECT_COUNT l
  ↔ v ∈ l ∧ n = length (filter (λ x, x = v) l).
Proof.
  unfold COLLECT_COUNT. rewrite list_elem_of_fmap.
  setoid_rewrite elem_of_remove_dups. split.
  - intros (w & [= -> ->] & Hw). done.
  - intros [Hv ->]. by exists v.
Qed.

Lemma COLLECT_COUNT_keys (l : list string) :
  NoDup (fst <$> COLLECT_COUNT l).
Proof.
  unfold COLLECT_COUNT. rewrite <- list_fmap_compose.
  rewrite (list_fmap_ext _ id (remove_dups l)); [|done].
  rewrite list_fmap_id. apply NoDup_remove_dups.
Qed.

(** The dictionary [groupCountsDic] holds the rows it is filled from. *)
Lemma groupCountsDic_lookup (rows : list (string * nat)) k v :
  NoDup (fst <$> rows) →
  foldl (λ (dic : gmap string nat) row, <[row.1 := row.2]> dic) ∅ rows !! k
  = Some v
  ↔ (k, v) ∈ rows.
Proof.
  intros Hnd.
  assert (∀ m : gmap string nat,
    foldl (λ (dic : gmap string nat) row, <[row.1 := row.2]> dic) m rows !! k
    = Some v
    ↔ (k, v) ∈ rows ∨ (k ∉ fst <$> rows) ∧ m !! k = Some v) as Hgen.
  { induction rows as [|[k0 v0] rows IH]; intros m; simpl.
    - rewrite elem_of_nil. split; [|tauto]. intros H. right.
      split; [apply not_elem_of_nil|done].
    - apply NoDup_cons in Hnd as [Hk0 Hnd]. rewrite (IH Hnd).
      rewrite !elem_of_cons. destruct (decide (k = k0)) as [->|Hne].
      + rewrite lookup_insert_eq. split.
        * intros [Hin|[Hnot [= ->]]]; [|by left; left].
          destruct Hk0. by apply (list_elem_of_fmap_2 fst) in Hin.
        * intros [[[= ->]|Hin]|[Hnot _]].
          -- right. done.
          -- by left.
          -- destruct Hnot. by left.
      + rewrite lookup_insert_ne by done. split.
        * intros [Hin|[Hnot Hm]]; [left; by right|].
          right. split; [|done]. intros [?|?]; done.
        * intros [[[= -> _]|Hin]|[Hnot Hm]]; [done|by left|].
          right. split; [|done]. intros Hin. apply Hnot. by right. }
  rewrite Hgen, lookup_empty. split; [|by left].
  by intros [?|[_ ?]].
Qed.

Lemma matching_pos connections gid s :
  1 ≤ matching connections gid s →
  ∃ m, m ∈ usersInGroups s ∧ e_from m ∈ connections ∧ e_to m = gid.
Proof.
  unfold matching. intros Hn.
  destruct (filter (λ m, e_from m ∈ connections ∧ e_to m = gid)
              (usersInGroups s)) as [|m l] eqn:Hf; [simpl in Hn; lia|].
  apply head_filter_elem in Hf as [Hin [Hfrom Hto]]. by exists m.
Qed.

Lemma candidates_spec connections currentGroups s gid n :
  (gid, n) ∈ candidates connections currentGroups s
  ↔ (gid ∉ currentGroups) ∧ n = matching connections gid s ∧ 2 ≤ n.
Proof.
  unfold candidates. rewrite merge_sort_Permutation, list_elem_of_filter.
  rewrite COLLECT_COUNT_spec, count_fmap. simpl.
  assert (gid ∉ currentGroups →
          length (filter (λ a, e_to a = gid)
                    (filter (λ edge, e_from edge ∈ connections
                                     ∧ e_to edge ∉ currentGroups)
                       (usersInGroups s)))
          = matching connections gid s) as Hcount.
  { intros Hcur. unfold matching. rewrite list_filter_filter. f_equal.
    apply filter_ext_in. intros m _. split; [tauto|].
    intros [? ->]. done. }
  split.
  - intros (Hn & Hin & ->).
    apply list_elem_of_fmap in Hin as (m & -> & [[_ Hcur] _]%list_elem_of_filter).
    split_and!; [done|by apply Hcount|done].
  - intros (Hcur & -> & Hn). rewrite Hcount by done.
    split_and!; [done| |done].
    destruct (matching_pos connections gid s) as (m & Hin & Hfrom & Hto);
      [lia|].
    apply list_elem_of_fmap. exists m. split; [done|].
    apply list_elem_of_filter. split; [|done]. by rewrite Hto.
Qed.

(** The identifiers that pass both queries of [userEligibleGroups]. *)
Lemma eligibles_spec connections currentGroups s gid :
  gid ∈ eligibles connections currentGroups s
  ↔ (gid ∉ currentGroups)
    ∧ 2 ≤ matching connections gid s
    ∧ total gid s < 2 * matching connections gid s.
Proof.
  unfold eligibles. cbn zeta.
  set (cands := candidates connections currentGroups s).
  set (dic := foldl _ ∅ _).
  assert (∀ n, (gid, n) ∈ cands → dic !! gid = Some (total gid s)) as Hdic.
  { intros n Hc. unfold dic. apply groupCountsDic_lookup.
    { apply COLLECT_COUNT_keys. }
    unfold groupCounts. rewrite COLLECT_COUNT_spec, count_fmap.
    assert (gid ∈ fst <$> cands) as Hgid
      by by apply (list_elem_of_fmap_2 fst) in Hc.
    apply candidates_spec in Hc as (_ & -> & Hn).
    split.
    - destruct (matching_pos connections gid s) as (m & Hin & Hfrom & Hto);
        [lia|].
      apply list_elem_of_fmap. exists m. split; [done|].
      apply list_elem_of_filter. split; [|done]. by rewrite Hto.
    - unfold total. rewrite list_filter_filter. f_equal.
      apply filter_ext_in. intros m _. split; [|tauto].
      intros ->. done. }
  rewrite list_elem_of_fmap. split.
  - intros ([g n] & Heq & [Hover Hc]%list_elem_of_filter).
    simpl in Heq. subst g.
    pose proof (Hdic n Hc) as Hd.
    apply candidates_spec in Hc as (Hcur & -> & Hn).
    unfold over_half in Hover. simpl in Hover. rewrite Hd in Hover.
    apply bool_decide_unpack in Hover. split_and!; [done|done|lia].
  - intros (Hcur & Hn & Hhalf).
    assert ((gid, matching connections gid s) ∈ cands) as Hc
      by by apply candidates_spec.
    exists (gid, matching connections gid s). split; [done|].
    apply list_elem_of_filter. split; [|done].
    unfold over_half. simpl. rewrite (Hdic _ Hc).
    apply bool_decide_pack. lia.
Qed.

(** C9. The code departs from the claim at two stores reached by
    requests.  At [thrice_joined], of the connections of [u] only [a] is a
    member of the group [G1], which has three members and five
    memberships, three of them of [a]: the group is returned, though its
    members are not in their majority connections of [u], [isEligible]
    is false and the join of [u] throws.  At [two_groups] the candidates
    are ranked by their count, [G2] with 3 before [G1] with 2, and the
    groups are returned in the order of the [groups] collection, [G1]
    before [G2]. *)
Theorem userEligibleGroups_counts_edges :
  (gd_id <$> userEligibleGroups "u" (userConnectionsRaw "u" thrice_joined)
               (userCurrentGroups "u" thrice_joined) thrice_joined
   = ["G1"]
   ∧ size (connection_set "u" thrice_joined ∩ member_set "G1" thrice_joined)
     = 1
   ∧ size (member_set "G1" thrice_joined) = 3
   ∧ isEligible "G1" "u" thrice_joined = false
   ∧ addMembership "G1" "u" 9 thrice_joined
     = Throw "Not eligible to join this group" thrice_joined)
  ∧ (candidates (userConnectionsRaw "v" two_groups)
       (userCurrentGroups "v" two_groups) two_groups
     = [("groups/G2", 3); ("groups/G1", 2)]
     ∧ gd_id <$> userEligibleGroups "v" (userConnectionsRaw "v" two_groups)
                   (userCurrentGroups "v" two_groups) two_groups
       = ["G1"; "G2"]
     ∧ isEligible "G1" "v" two_groups = true
     ∧ isEligible "G2" "v" two_groups = true).
Proof. split_and!; vm_compute; reflexivity. Qed.

Lemma one_edge_per_pair_from gid (l : list edge) :
  one_edge_per_pair l →
  NoDup (e_from <$> filter (λ m, e_to m = gid) l).
Proof.
  unfold one_edge_per_pair. intros Hnd.
  assert (NoDup ((λ m, (e_from m, e_to m)) <$> filter (λ m, e_to m = gid) l))
    as Hnd'.
  { eapply sublist_NoDup; [done|]. apply fmap_sublist, sublist_filter. }
  rewrite (list_fmap_compose (λ m, (e_from m, e_to m)) fst).
  apply NoDup_fmap_2_strong; [|done].
  intros [f1 t1] [f2 t2].
  intros (m1 & [= -> ->] & [H1 _]%list_elem_of_filter)%list_elem_of_fmap.
  intros (m2 & [= -> ->] & [H2 _]%list_elem_of_filter)%list_elem_of_fmap.
  simpl. intros ->. by rewrite H1, H2.
Qed.

(** ** Account links *)

#[global] Instance link_desc_trans : Transitive link_desc.
Proof. unfold link_desc. intros x y z ??. lia. Qed.

#[global] Instance link_desc_total : Total link_desc.
Proof. unfold link_desc. intros x y. lia. Qed.





(** The two cases of the specification, run: [X] is held back while it is
    the current link of [V], and returned once [V] has moved on. *)
Example revocableIds_relied_on :
  revocableIds links_relied_on "Y" "U" = [].
Proof. reflexivity. Qed.

Example revocableIds_moved_on :
  revocableIds links_moved_on "Y" "U" = ["X"].
Proof. reflexivity. Qed.


(** * Further properties *)

(** ** The connection ledger, over all requests *)

Lemma wf_settle calls s : wf s → wf (settle calls s).
Proof.
  revert s. induction calls as [|c calls IH]; intros s Hwf; [done|].
  simpl. apply IH. by apply wf_perform.
Qed.

Lemma promoted_frame (forming : group) docs s :
  connections (promoted forming docs s) = connections s
  ∧ removed (promoted forming docs s) = removed s
  ∧ users (promoted forming docs s) = users s
  ∧ contexts (promoted forming docs s) = contexts s
  ∧ sponsorships (promoted forming docs s) = sponsorships s.
Proof.
  unfold promoted.
  destruct (foldl_move_membership docs
    (set_groups (groups s ++ [Group (g_key forming) 0 false
                                (g_timestamp forming) (g_founders forming)])
       s))
    as (H1 & H2 & _ & _ & _ & _ & H7 & H8 & H9 & _).
  unfold remove_newGroup, set_newGroups.
  cbn [connections removed users contexts sponsorships].
  by rewrite H1, H2, H7, H8, H9.
Qed.

(** The requests other than the two of the ledger leave it alone. *)
Lemma exec_ledger_frame o s :
  (∀ key1 key2 timestamp, o ≠ OpAddConnection key1 key2 timestamp) →
  (∀ key1 key2 timestamp, o ≠ OpRemoveConnection key1 key2 timestamp) →
  connections (exec s o) = connections s ∧ removed (exec s o) = removed s.
Proof.
  intros Hadd Hrem. destruct o; cbn [exec].
  - by destruct (Hadd key1 key2 timestamp).
  - by destruct (Hrem key1 key2 timestamp).
  - unfold createUser, mbind, M_bind, bind, gets, throw.
    by destruct (loadUser key s).
  - rewrite createGroup_eq.
    destruct (_ || _); [done|]. destruct (_ || _); [done|].
    by destruct (decide _).
  - rewrite deleteGroup_eq. destruct (filter _ _); [done|].
    by destruct (bool_decide _).
  - rewrite addMembership_eq.
    destruct (filter _ (groups s)) as [|g0 rest0].
    + destruct (filter _ (newGroups s)) as [|forming rest]; [done|].
      destruct (bool_decide _); [done|]. cbn zeta.
      destruct (bool_decide _); [|done]. cbn [store_of].
      destruct (promoted_frame forming
        (forming_edges groupId (joined groupId key timestamp s))
        (joined groupId key timestamp s)) as (H1 & H2 & _).
      by rewrite H1, H2.
    + by destruct (isEligible _ _ _).
  - done.
  - done.
Qed.

(** X1. In every store reached from the empty one, a pair of users has at
    most one record in [connections] and [removed] taken together: never
    two records of one kind, never a connection and a removal at once. *)
Theorem ledger_one_record_per_pair (ops : list op) (a b : string) :
  length (live a b (run ops empty_store)) ≤ 1.
Proof.
  assert (∀ s, wf s → (∃ w, live a b s = register w) →
               ∃ w, live a b (run ops s) = register w) as Hgen.
  { induction ops as [|o ops IH]; intros s Hwf Hreg; [done|].
    simpl. apply IH; [by apply wf_exec|].
    destruct Hreg as [w Hw].
    assert (∀ c, ∃ w', live a b (store_of (perform c s)) = register w')
      as Hperf.
    { intros c. destruct (decide (for_pair a b c)) as [Hp|Hp].
      - exists (later_wins w c). apply perform_register; [done|apply Hwf|done].
      - exists w.
        destruct (perform_other_pair a b c s Hp (proj1 Hwf)) as [H1 H2].
        unfold live. rewrite H1, H2. apply Hw. }
    destruct o;
      try (exists w;
           match goal with
           | |- context [exec s ?o] =>
               destruct (exec_ledger_frame o s) as [H1 H2];
               [intros; discriminate|intros; discriminate|]
           end;
           unfold live; rewrite H1, H2; apply Hw).
    - apply (Hperf (Call ConnectionEdge key1 key2 timestamp)).
    - apply (Hperf (Call RemovalEdge key1 key2 timestamp)). }
  destruct (Hgen empty_store wf_empty) as [w Hw]; [by exists None|].
  rewrite Hw. destruct w; simpl; lia.
Qed.

Lemma connected_live a b s :
  connected a b s ↔ ∃ t, (ConnectionEdge, t) ∈ live a b s.
Proof.
  unfold connected. split.
  - intros (c & Hin & Hj). exists (e_timestamp c). apply live_elem.
    exists c. split; [done|]. left. split; [done|].
    by apply list_elem_of_filter.
  - intros (t & (e & _ & [[_ He]|[Hk _]])%live_elem); [|done].
    apply list_elem_of_filter in He as [Hj Hin]. by exists e.
Qed.

(** X2. After any sequence of [addConnection] and [removeConnection]
    calls on the empty store, [userConnections(a)] lists [b] exactly when
    the call for the pair that wins, the earliest with the maximum
    timestamp, is an [addConnection]; and then [userConnections(b)] lists
    [a]. *)
Theorem userConnections_follow_ledger (calls : list call) (a b : string) :
  (b ∈ userConnections a (settle calls empty_store)
   ↔ ∃ c, winner (filter (for_pair a b) calls) = Some c
          ∧ c_kind c = ConnectionEdge)
  ∧ (b ∈ userConnections a (settle calls empty_store)
     ↔ a ∈ userConnections b (settle calls empty_store)).
Proof.
  pose proof (wf_settle calls empty_store wf_empty) as (Hk & Hids & _).
  pose proof (settle_register a b calls empty_store None keys_ok_empty
                eq_refl) as Hlive.
  fold (winner (filter (for_pair a b) calls)) in Hlive.
  split.
  - rewrite (proj2 (userConnections_spec a _ Hids)), connected_live, Hlive.
    destruct (winner _) as [c|]; simpl.
    + split.
      * intros (t & [= Hkind _]%list_elem_of_singleton). by exists c.
      * intros (c' & [= <-] & Hkind). exists (c_timestamp c).
        rewrite Hkind. left.
    + split; [|by intros (c & ? & _)].
      intros (t & Ht). by apply not_elem_of_nil in Ht.
  - rewrite (proj2 (userConnections_spec a _ Hids)).
    rewrite (proj2 (userConnections_spec b _ Hids)).
    unfold connected. split; intros (c & Hin & Hj); exists c;
      (split; [done|by apply joins_sym]).
Qed.

Lemma newer_mono t t' o : (t' ≤ t)%Z → newer t' o → newer t o.
Proof. destruct o; simpl; [lia|done]. Qed.

(** X3. Once a call has been made, a call for the same pair whose
    timestamp is not greater, of either kind, changes nothing; so a call
    delivered twice has the effect of one delivery. *)
Theorem stale_call_is_noop (c c' : call) (s : store) :
  keys_ok s →
  for_pair (c_key1 c) (c_key2 c) c' →
  (c_timestamp c' ≤ c_timestamp c)%Z →
  perform c' (store_of (perform c s)) = Ok tt (store_of (perform c s)).
Proof.
  intros Hok Hp Hle.
  assert (¬ acceptable c' (store_of (perform c s))) as Hno.
  { unfold acceptable.
    rewrite (pair_edges_for_pair (c_key1 c) (c_key2 c) c' (connections _))
      by done.
    rewrite (pair_edges_for_pair (c_key1 c) (c_key2 c) c' (removed _))
      by done.
    rewrite perform_eq. simpl. destruct (_ && _) eqn:Hg.
    - assert (for_pair (c_key1 c) (c_key2 c) c) as Hself by by left.
      destruct (clean_pair _ _ c s Hself Hok) as [H1 _].
      destruct (c_kind c); cbn [kind_coll coll_get] in *.
      + rewrite H1. intros [Hn _]. simpl in Hn. lia.
      + rewrite H1. intros [_ Hn]. simpl in Hn. lia.
    - intros [H1 H2]. apply not_true_iff_false in Hg. apply Hg.
      apply guard_acceptable. split; by eapply newer_mono. }
  rewrite (perform_eq c').
  rewrite <- guard_acceptable in Hno. apply not_true_is_false in Hno.
  by rewrite Hno.
Qed.

Lemma stale_call_is_noop_witness :
  perform (Call RemovalEdge "b" "a" 5)
    (store_of (perform (Call ConnectionEdge "a" "b" 5) empty_store))
  = Ok tt (store_of (perform (Call ConnectionEdge "a" "b" 5) empty_store)).
Proof.
  apply (stale_call_is_noop (Call ConnectionEdge "a" "b" 5)
           (Call RemovalEdge "b" "a" 5) empty_store keys_ok_empty).
  - right. done.
  - simpl. lia.
Defined.

(** ** Requests in general *)

Lemma exec_attempt o s : exec s o = store_of (attempt o s).
Proof.
  destruct o; cbn [exec attempt]; try done.
  - unfold mbind, M_bind, bind. by destruct (createUser key s).
  - unfold mbind, M_bind, bind.
    by destruct (createGroup key1 key2 key3 timestamp randomId s).
Qed.

Lemma createGroup_throw_keeps key1 key2 key3 timestamp randomId s :
  match createGroup key1 key2 key3 timestamp randomId s with
  | Throw _ s' => s' = s
  | Ok _ _ => True
  end.
Proof.
  rewrite createGroup_eq.
  destruct (_ || _); [done|]. destruct (_ || _); [done|].
  by destruct (decide _).
Qed.

Lemma deleteGroup_throw_keeps groupId key timestamp s :
  match deleteGroup groupId key timestamp s with
  | Throw _ s' => s' = s
  | Ok _ _ => True
  end.
Proof.
  rewrite deleteGroup_eq. destruct (filter _ _); [done|].
  by destruct (bool_decide _).
Qed.

Lemma addMembership_throw_keeps groupId key timestamp s :
  match addMembership groupId key timestamp s with
  | Throw _ s' => s' = s
  | Ok _ _ => True
  end.
Proof.
  rewrite addMembership_eq.
  destruct (filter _ (groups s)) as [|g0 rest0].
  - destruct (filter _ (newGroups s)) as [|forming rest]; [done|].
    destruct (bool_decide _); [done|]. cbn zeta.
    by destruct (bool_decide _).
  - by destruct (isEligible _ _ _).
Qed.

(** X4. A request that throws has written nothing: the store is the one
    it found.  The requests of the ledger, the leaving of a group and the
    sponsoring never throw. *)
Theorem failed_request_writes_nothing (o : op) (s : store) :
  match attempt o s with
  | Throw _ s' => s' = s
  | Ok _ _ => True
  end
  ∧ (unfailing o = true → is_ok (attempt o s) = true).
Proof.
  destruct o; cbn [attempt unfailing].
  - change (addConnection key1 key2 timestamp)
      with (perform (Call ConnectionEdge key1 key2 timestamp)).
    by rewrite perform_eq.
  - change (removeConnection key1 key2 timestamp)
      with (perform (Call RemovalEdge key1 key2 timestamp)).
    by rewrite perform_eq.
  - unfold createUser, mbind, M_bind, bind, gets, throw.
    by destruct (loadUser key s).
  - pose proof (createGroup_throw_keeps key1 key2 key3 timestamp randomId s).
    unfold mbind, M_bind, bind.
    by destruct (createGroup key1 key2 key3 timestamp randomId s).
  - split; [apply deleteGroup_throw_keeps|done].
  - split; [apply addMembership_throw_keeps|done].
  - done.
  - done.
Qed.

Lemma failed_request_writes_nothing_witness :
  is_ok (attempt (OpDeleteMembership "G1" "a" 9) one_group) = true.
Proof.
  by apply (proj2 (failed_request_writes_nothing
                     (OpDeleteMembership "G1" "a" 9) one_group)).
Defined.

(** X5. Every store reached from the empty one satisfies the invariant:
    keys of the ledger are unique and below the counter; the endpoints of
    connections and the users of memberships are user identifiers; keys of
    new groups are unique; a new group has score 0 and three founders;
    every membership of a new group is a founder's and points to a new
    group that exists; an established group has three founders. *)
Theorem reachable_wf (ops : list op) :
  wf (run ops empty_store) ∧ groups_ok (run ops empty_store).
Proof.
  split; [apply wf_run, wf_empty|].
  apply groups_ok_run; [apply wf_empty|apply groups_ok_empty].
Qed.

Lemma groups_exec_prefix o s : groups s `prefix_of` groups (exec s o).
Proof.
  destruct o; cbn [exec].
  - change (addConnection key1 key2 timestamp)
      with (perform (Call ConnectionEdge key1 key2 timestamp)).
    rewrite perform_eq. simpl. by destruct (_ && _).
  - change (removeConnection key1 key2 timestamp)
      with (perform (Call RemovalEdge key1 key2 timestamp)).
    rewrite perform_eq. simpl. by destruct (_ && _).
  - unfold createUser, mbind, M_bind, bind, gets, throw.
    by destruct (loadUser key s).
  - rewrite createGroup_eq.
    destruct (_ || _); [done|]. destruct (_ || _); [done|].
    by destruct (decide _).
  - rewrite deleteGroup_eq. destruct (filter _ _); [done|].
    by destruct (bool_decide _).
  - rewrite addMembership_eq.
    destruct (filter _ (groups s)) as [|g0 rest0].
    + destruct (filter _ (newGroups s)) as [|forming rest]; [done|].
      destruct (bool_decide _); [done|]. cbn zeta.
      destruct (bool_decide _); [|done]. cbn [store_of].
      rewrite (proj1 (promoted_fields _ _ _)). by eexists.
    + by destruct (isEligible _ _ _).
  - done.
  - done.
Qed.

(** X6. No request removes or alters an established group: the [groups]
    collection of a store is an initial segment of the collection after
    any sequence of requests. *)
Theorem groups_only_grow (ops : list op) (s : store) :
  groups s `prefix_of` groups (run ops s).
Proof.
  revert s. induction ops as [|o ops IH]; intros s; [done|].
  simpl. etrans; [apply groups_exec_prefix|apply IH].
Qed.

(** ** Creating, dissolving and promoting a group *)

(** X7. A group just created is dissolved by any of its three founders,
    not only by its creator, and the two requests together leave the
    collections of groups and of memberships as they were. *)
Theorem createGroup_then_deleteGroup (key1 key2 key3 : string)
    (timestamp timestamp' : Z) (randomId founder : string) (s s1 : store)
    (doc : group) :
  wf s →
  createGroup key1 key2 key3 timestamp randomId s = Ok doc s1 →
  founder ∈ [key1; key2; key3] →
  ∃ s2, deleteGroup randomId founder timestamp' s1 = Ok tt s2
    ∧ newGroups s2 = newGroups s
    ∧ usersInNewGroups s2 = usersInNewGroups s
    ∧ groups s2 = groups s
    ∧ usersInGroups s2 = usersInGroups s
    ∧ connections s2 = connections s
    ∧ removed s2 = removed s.
Proof.
  intros (_ & _ & Hn & Hg & Hm) Hcreate Hfounder.
  rewrite createGroup_eq in Hcreate.
  destruct (_ || _); [done|]. destruct (_ || _); [done|].
  destruct (decide _) as [|Hfresh]; [done|].
  injection Hcreate as <- <-.
  assert (filter (λ i, g_key i = randomId) (newGroups s) = []) as Hnone.
  { apply filter_none. intros g Hin Hk. apply Hfresh.
    rewrite <- Hk. by apply list_elem_of_fmap_2. }
  rewrite deleteGroup_eq. cbn [newGroups insert_edge bump_key coll_set
    coll_get set_newGroups usersInNewGroups].
  rewrite filter_app, Hnone, filter_cons_True by done. cbn [app filter].
  rewrite bool_decide_eq_false_2.
  2:{ rewrite indexOf_lt_0. intros Hnot. apply Hnot. cbn [g_founders].
      rewrite sort_strings_Permutation.
      apply (list_elem_of_fmap_2 (λ k, "users/" +:+ k)) in Hfounder.
      exact Hfounder. }
  eexists. split; [done|].
  unfold remove_newGroup. cbn.
  split_and!; try done.
  - rewrite filter_app, filter_all.
    + rewrite filter_cons_False by (intros H; by apply H). by rewrite app_nil_r.
    + intros g Hin Hk. apply Hfresh. rewrite <- Hk.
      by apply list_elem_of_fmap_2.
  - rewrite filter_app, filter_all.
    + rewrite filter_cons_False by (intros H; by apply H). by rewrite app_nil_r.
    + intros m Hin Hto. destruct (Hm m Hin) as (g & Hgin & Heq & _).
      rewrite Heq in Hto. apply newGroups_inj in Hto. apply Hfresh.
      rewrite <- Hto. by apply list_elem_of_fmap_2.
Qed.

Lemma createGroup_then_deleteGroup_witness :
  ∃ s2, deleteGroup "G1" "c" 9 one_group = Ok tt s2
    ∧ newGroups s2 = newGroups connected_abc
    ∧ usersInNewGroups s2 = usersInNewGroups connected_abc
    ∧ groups s2 = groups connected_abc
    ∧ usersInGroups s2 = usersInGroups connected_abc
    ∧ connections s2 = connections connected_abc
    ∧ removed s2 = removed connected_abc.
Proof.
  apply (createGroup_then_deleteGroup "a" "b" "c" 3 9 "G1" "c" connected_abc
           one_group
           (Group "G1" 0 true 3 ["users/a"; "users/b"; "users/c"])).
  - apply wf_run, wf_empty.
  - vm_compute. reflexivity.
  - right. right. left.
Defined.

Lemma size_list_to_set_NoDup (l : list string) :
  size (list_to_set l : gset string) = length l ↔ NoDup l.
Proof.
  split; [|by apply size_list_to_set].
  induction l as [|x l IH]; [constructor|].
  rewrite list_to_set_cons. simpl. intros Hsize.
  destruct (decide (x ∈ l)) as [Hin|Hin].
  - assert ({[x]} ∪ list_to_set l = (list_to_set l : gset string)) as Heq.
    { apply subseteq_union_1_L, singleton_subseteq_l.
      by apply elem_of_list_to_set. }
    rewrite Heq in Hsize. pose proof (size_list_to_set_le l). lia.
  - rewrite size_union in Hsize.
    + rewrite size_singleton in Hsize. apply NoDup_cons. split; [done|].
      apply IH. lia.
    + apply disjoint_singleton_l. by rewrite elem_of_list_to_set.
Qed.

(** X8. The join of a founder of a new group returns normally, and the
    group is established by it exactly when every founder has then joined
    and the three founders are distinct; otherwise the group stays new,
    with one membership more.  A group created with a founder named twice
    is therefore never established. *)
Theorem addMembership_promotes_iff (groupId key : string) (timestamp : Z)
    (s : store) (forming : group) (rest : list group) :
  wf s →
  filter (λ i, g_key i = groupId) (groups s) = [] →
  filter (λ i, g_key i = groupId) (newGroups s) = forming :: rest →
  "users/" +:+ key ∈ g_founders forming →
  let complete :=
    NoDup (g_founders forming)
    ∧ ∀ founder, founder ∈ g_founders forming →
        founder = "users/" +:+ key ∨ founder ∈ joined_founders groupId s in
  ∃ s', addMembership groupId key timestamp s = Ok tt s'
    ∧ (complete →
         filter (λ i, g_key i = groupId) (newGroups s') = []
         ∧ groups s' = groups s ++ [Group groupId 0 false (g_timestamp forming)
                                      (g_founders forming)])
    ∧ (¬ complete →
         s' = joined groupId key timestamp s
         ∧ groups s' = groups s
         ∧ newGroups s' = newGroups s).
Proof.
  intros Hwf Hnone Hfil Hfounder complete.
  pose proof (wf_joined groupId key timestamp s forming rest Hwf Hfil Hfounder)
    as Hwf1.
  pose proof Hfil as [Hgin Hgk]%head_filter_elem.
  set (s1 := joined groupId key timestamp s) in *.
  set (docs := forming_edges groupId s1).
  assert (list_to_set (e_from <$> docs)
          = ({[ "users/" +:+ key ]} ∪ joined_founders groupId s : gset string))
    as Hset.
  { unfold docs, s1.
    rewrite forming_edges_joined, fmap_app, list_to_set_app_L.
    unfold joined_founders. simpl. rewrite union_empty_r_L.
    apply union_comm_L. }
  assert (length (new_Set (e_from <$> docs))
          = size (list_to_set (e_from <$> docs) : gset string)) as Hlen.
  { symmetry. destruct (new_Set_spec (e_from <$> docs)) as [Hnd Hel].
    apply size_of_list; [done|]. intros x.
    by rewrite elem_of_list_to_set, Hel. }
  assert ((list_to_set (e_from <$> docs) : gset string)
          ⊆ list_to_set (g_founders forming)) as Hsub.
  { intros x. rewrite !elem_of_list_to_set.
    intros (m & -> & Hm)%list_elem_of_fmap.
    apply (forming_edges_founders s1); [apply Hwf1|done|by rewrite Hgk]. }
  assert (length (new_Set (e_from <$> docs)) = length (g_founders forming)
          ↔ complete) as Hiff.
  { rewrite Hlen. unfold complete. split.
    - intros Hsize.
      pose proof (subseteq_size _ _ Hsub) as Hle.
      pose proof (size_list_to_set_le (g_founders forming)) as Hle'.
      assert (NoDup (g_founders forming)) as Hnd
        by (apply size_list_to_set_NoDup; lia).
      split; [done|]. intros founder Hf.
      assert (founder ∈ (list_to_set (e_from <$> docs) : gset string)) as Hin.
      { rewrite (set_subseteq_size_eq _ _ Hsub) by lia.
        by apply elem_of_list_to_set. }
      rewrite Hset in Hin. apply elem_of_union in Hin as [Hin|Hin]; [|by right].
      left. by apply elem_of_singleton in Hin.
    - intros [Hnd Hall]. rewrite <- (size_list_to_set (C:=gset string)) by done.
      f_equal. apply set_eq. intros x. split; [apply Hsub|].
      rewrite Hset, elem_of_list_to_set, elem_of_union, elem_of_singleton.
      apply Hall. }
  rewrite addMembership_eq, Hnone, Hfil.
  rewrite bool_decide_eq_false_2
    by (by rewrite indexOf_lt_0; intros H; apply H).
  cbn zeta. fold s1. fold docs.
  destruct (decide (length (new_Set (e_from <$> docs))
                    = length (g_founders forming))) as [Hc|Hc];
    rewrite Hiff in Hc.
  - rewrite bool_decide_eq_true_2 by by apply Hiff.
    eexists. split; [done|]. split; [|done]. intros _.
    destruct (promoted_fields forming docs s1) as (Hgr & Hng & _).
    rewrite Hgr, Hng, Hgk. split; [|done].
    rewrite list_filter_filter. apply filter_none. intros g _ [H1 H2]. done.
  - rewrite bool_decide_eq_false_2 by by rewrite Hiff.
    eexists. split; [done|]. split; [done|]. by intros _.
Qed.

(** [a] has created a group naming [b] twice as cofounder. *)
Lemma addMembership_promotes_iff_witness :
  let s := run [OpAddConnection "a" "b" 1; OpCreateGroup "a" "b" "b" 2 "G1"]
             empty_store in
  ∃ s', addMembership "G1" "b" 3 s = Ok tt s'
    ∧ s' = joined "G1" "b" 3 s
    ∧ groups s' = groups s
    ∧ newGroups s' = newGroups s.
Proof.
  intros s.
  destruct (addMembership_promotes_iff "G1" "b" 3 s
              (Group "G1" 0 true 2 ["users/a"; "users/b"; "users/b"]) [])
    as (s' & Hrun & _ & Hstay).
  - apply wf_run, wf_empty.
  - reflexivity.
  - reflexivity.
  - right. left.
  - exists s'. split; [done|]. apply Hstay. intros [Hnd _].
    apply NoDup_cons in Hnd as [_ Hnd]. apply NoDup_cons in Hnd as [Hb _].
    apply Hb. left.
Defined.

(** ** The new groups of a user *)

(** X16. A group just created is listed by [userNewGroups] for each of
    its three founders, as a new group of score 0 whose only known member
    is the creator and whose founders are the three keys; it is listed for
    nobody else. *)
Theorem created_group_is_listed (key1 key2 key3 : string) (timestamp : Z)
    (randomId : string) (s s1 : store) (doc : group) :
  wf s →
  createGroup key1 key2 key3 timestamp randomId s = Ok doc s1 →
  ∃ founders,
    founders ≡ₚ [key1; key2; key3]
    ∧ (∀ founder, founder ∈ [key1; key2; key3] →
         GroupDic true 0 randomId [key1] founders ∈ userNewGroups founder s1)
    ∧ (∀ user, user ∉ [key1; key2; key3] →
         randomId ∉ gd_id <$> userNewGroups user s1).
Proof.
  intros (_ & _ & Hn & Hg & Hm) Hcreate.
  rewrite createGroup_eq in Hcreate.
  destruct (_ || _); [done|]. destruct (_ || _); [done|].
  destruct (decide _) as [|Hfresh]; [done|].
  injection Hcreate as <- <-.
  set (users3 := ["users/" +:+ key1; "users/" +:+ key2; "users/" +:+ key3]).
  set (doc := Group randomId 0 true timestamp (sort_strings users3)).
  set (s1 := insert_edge _ _ _ _ _).
  assert (groupMembers randomId true s1 = [key1]) as Hmembers.
  { unfold groupMembers. cbn zeta.
    assert (filter (λ i, e_to i = "newGroups/" +:+ randomId)
              (usersInNewGroups s1)
            = [Edge (next_key s) ("users/" +:+ key1)
                 ("newGroups/" +:+ randomId) timestamp]) as ->.
    { unfold s1. simpl. rewrite filter_app, filter_cons_True by done.
      rewrite filter_none; [done|]. intros m Hin Hto. apply Hfresh.
      destruct (Hm m Hin) as (g & Hgin & Heq & _). rewrite Heq in Hto.
      apply newGroups_inj in Hto. rewrite <- Hto.
      by apply list_elem_of_fmap_2. }
    change (DISTINCT
              (e_from <$> [Edge (next_key s) ("users/" +:+ key1)
                             ("newGroups/" +:+ randomId) timestamp]))
      with ["users/" +:+ key1].
    change ((λ m, replace "users/" "" m) <$> ["users/" +:+ key1])
      with [replace "users/" "" ("users/" +:+ key1)].
    by rewrite strip_user. }
  exists ((λ u, replace "users/" "" u) <$> sort_strings users3).
  split_and!.
  - rewrite sort_strings_Permutation. unfold users3.
    change ((λ u, replace "users/" "" u)
              <$> ["users/" +:+ key1; "users/" +:+ key2; "users/" +:+ key3])
      with [replace "users/" "" ("users/" +:+ key1);
            replace "users/" "" ("users/" +:+ key2);
            replace "users/" "" ("users/" +:+ key3)].
    by rewrite !strip_user.
  - intros founder Hf. unfold userNewGroups.
    apply list_elem_of_fmap. exists doc. split.
    + unfold groupToDic. simpl. by rewrite Hmembers.
    + apply list_elem_of_filter. split.
      * simpl. rewrite sort_strings_Permutation.
        by apply (list_elem_of_fmap_2 (λ k, "users/" +:+ k)) in Hf.
      * unfold s1. simpl. apply elem_of_app. right. left.
  - intros user Huser. unfold userNewGroups.
    rewrite <- list_fmap_compose.
    intros (g & Hid & [Hfounder Hin]%list_elem_of_filter)%list_elem_of_fmap.
    simpl in Hid. unfold s1 in Hin. simpl in Hin.
    apply elem_of_app in Hin as [Hin|Hin%list_elem_of_singleton].
    + apply Hfresh. rewrite Hid. by apply list_elem_of_fmap_2.
    + subst g. simpl in Hfounder.
      rewrite sort_strings_Permutation in Hfounder. apply Huser.
      unfold users3 in Hfounder.
      apply elem_of_cons in Hfounder as [H|Hfounder];
        [apply users_inj in H; rewrite H; left|].
      apply elem_of_cons in Hfounder as [H|Hfounder];
        [apply users_inj in H; rewrite H; right; left|].
      apply list_elem_of_singleton, users_inj in Hfounder.
      rewrite Hfounder. right. right. left.
Qed.

Lemma created_group_is_listed_witness :
  ∃ founders,
    founders ≡ₚ ["a"; "b"; "c"]
    ∧ (∀ founder, founder ∈ ["a"; "b"; "c"] →
         GroupDic true 0 "G1" ["a"] founders ∈ userNewGroups founder one_group)
    ∧ (∀ user, user ∉ ["a"; "b"; "c"] →
         "G1" ∉ gd_id <$> userNewGroups user one_group).
Proof.
  apply (created_group_is_listed "a" "b" "c" 3 "G1" connected_abc one_group
           (Group "G1" 0 true 3 ["users/a"; "users/b"; "users/c"])).
  - apply wf_run, wf_empty.
  - vm_compute. reflexivity.
Defined.

(** ** Leaving a group *)

Lemma groups_inj (a b : string) : "groups/" +:+ a = "groups/" +:+ b → a = b.
Proof. intros H. by simplify_eq/=. Qed.

Lemma userCurrentGroups_spec userId s gid :
  gid ∈ userCurrentGroups userId s
  ↔ ∃ m, m ∈ usersInGroups s
         ∧ e_from m = "users/" +:+ userId ∧ e_to m = gid.
Proof.
  unfold userCurrentGroups.
  rewrite elem_of_DISTINCT, list_elem_of_fmap.
  setoid_rewrite list_elem_of_filter. split.
  - intros (m & -> & ? & ?). by exists m.
  - intros (m & ? & ? & <-). by exists m.
Qed.

(** X9. [deleteMembership] never throws.  It removes every membership of
    the user in the group, so that the user is no member and the group is
    none of the user's current groups; the other members of the group and
    the memberships of other groups stay; it changes nothing when the user
    is no member, in particular when repeated. *)
Theorem deleteMembership_leaves (groupId key : string) (timestamp : Z)
    (s : store) :
  ∃ s', deleteMembership groupId key timestamp s = Ok tt s'
    ∧ ¬ member_of groupId key s'
    ∧ ("groups/" +:+ groupId ∉ userCurrentGroups key s')
    ∧ (∀ x, x ≠ key → member_of groupId x s' ↔ member_of groupId x s)
    ∧ (∀ g, g ≠ groupId → established_edges g s' = established_edges g s)
    ∧ (¬ member_of groupId key s → s' = s)
    ∧ (∀ timestamp', deleteMembership groupId key timestamp' s' = Ok tt s').
Proof.
  eexists. split; [done|].
  assert (∀ s0, ¬ member_of groupId key s0 →
    coll_set usersInGroupsColl
      (filter (λ i, ¬ (e_to i = "groups/" +:+ groupId
                       ∧ e_from i = "users/" +:+ key)) (usersInGroups s0)) s0
    = s0) as Hnoop.
  { intros s0 Hnot. rewrite filter_all; [by destruct s0|].
    intros m Hin [Hto Hfrom]. apply Hnot. by exists m. }
  assert (¬ member_of groupId key
            (coll_set usersInGroupsColl
               (filter (λ i, ¬ (e_to i = "groups/" +:+ groupId
                                ∧ e_from i = "users/" +:+ key))
                  (usersInGroups s)) s)) as Hgone.
  { intros (m & [Hnot _]%list_elem_of_filter & Hfrom & Hto). by apply Hnot. }
  split_and!.
  - done.
  - rewrite userCurrentGroups_spec. intros (m & Hin & Hfrom & Hto).
    apply Hgone. by exists m.
  - intros x Hx. unfold member_of. simpl.
    setoid_rewrite list_elem_of_filter. split.
    + intros (m & [_ Hin] & Hfrom & Hto). by exists m.
    + intros (m & Hin & Hfrom & Hto). exists m. split_and!; try done.
      intros [_ Hk]. rewrite Hfrom in Hk. by apply users_inj in Hk.
  - intros g Hg. unfold established_edges. simpl.
    rewrite list_filter_filter. apply filter_ext_in.
    intros m _. split; [tauto|]. intros Hto. split; [done|].
    intros [Hto' _]. rewrite Hto in Hto'. by apply groups_inj in Hto'.
  - apply Hnoop.
  - intros timestamp'. unfold deleteMembership, modify. f_equal.
    by apply Hnoop.
Qed.

(** ** Eligibility at the edges *)

Lemma intersection_nil_r (a : list string) : intersection a [] = [].
Proof.
  destruct (intersection_spec a []) as [_ Hel].
  destruct (intersection a []) as [|x l]; [done|].
  assert (x ∈ x :: l) as Hx by left. apply Hel in Hx as [_ Hx].
  by apply not_elem_of_nil in Hx.
Qed.

(** X10. Nobody is eligible to join an established group without members,
    and a user without connections is eligible for no group.  So once the
    only member of an established group has left it, every later join of
    the group, by any user, throws 'Not eligible to join this group'. *)
Theorem last_member_closes_group (groupId key : string) (timestamp : Z)
    (s : store) (established : group) (rest : list group) :
  filter (λ i, g_key i = groupId) (groups s) = established :: rest →
  (∀ m, m ∈ established_edges groupId s → e_from m = "users/" +:+ key) →
  let s' := store_of (deleteMembership groupId key timestamp s) in
  (∀ user timestamp',
     isEligible groupId user s' = false
     ∧ addMembership groupId user timestamp' s'
       = Throw "Not eligible to join this group" s')
  ∧ (∀ user gid s0, userConnectionsRaw user s0 = [] →
                    isEligible gid user s0 = false).
Proof.
  intros Hfil Honly s'. split.
  - intros user timestamp'.
    assert (isEligible groupId user s' = false) as Hno.
    { unfold isEligible, groupMembers. cbn zeta.
      assert (filter (λ i, e_to i = "groups/" +:+ groupId) (usersInGroups s')
              = []) as ->.
      { unfold s'. simpl. rewrite list_filter_filter. apply filter_none.
        intros m Hin [Hto Hnot]. apply Hnot. split; [done|].
        apply Honly. by apply list_elem_of_filter. }
      simpl. by rewrite intersection_nil_r. }
    split; [done|]. rewrite addMembership_eq.
    assert (groups s' = groups s) as -> by done.
    by rewrite Hfil, Hno.
  - intros user gid s0 Hnone. unfold isEligible, userConnections.
    rewrite Hnone. done.
Qed.

Lemma last_member_closes_group_witness :
  let s := Store [Edge 0 "users/u" "users/a" 1] []
             [Group "G" 0 false 0 ["users/a"; "users/b"; "users/c"]] []
             [Edge 1 "users/a" "groups/G" 2; Edge 2 "users/a" "groups/G" 3]
             [] [] [] [] 3 in
  isEligible "G" "u" s = true
  ∧ addMembership "G" "u" 5 (store_of (deleteMembership "G" "a" 4 s))
    = Throw "Not eligible to join this group"
        (store_of (deleteMembership "G" "a" 4 s)).
Proof.
  intros s. split; [reflexivity|].
  apply (last_member_closes_group "G" "a" 4 s
           (Group "G" 0 false 0 ["users/a"; "users/b"; "users/c"]) []).
  - reflexivity.
  - intros m Hm. vm_compute in Hm. in_cases Hm; done.
Defined.

(** ** Discovery and joining *)

Lemma userEligibleGroups_elem userId connections currentGroups s d :
  d ∈ userEligibleGroups userId connections currentGroups s →
  ∃ g, g ∈ groups s ∧ gd_id d = g_key g
       ∧ group_id g ∈ eligibles connections currentGroups s.
Proof.
  unfold userEligibleGroups, loadGroups.
  intros (g & -> & [Hel Hin]%list_elem_of_filter)%list_elem_of_fmap.
  by exists g.
Qed.

(** X11. Called with the user's current groups as the groups to leave
    out, as [userCurrentGroups] returns them, [userEligibleGroups] returns
    no group the user is a member of. *)
Theorem eligible_groups_exclude_current (userId : string)
    (connections : list string) (s : store) :
  Forall (λ d, ¬ member_of (gd_id d) userId s)
    (userEligibleGroups userId connections (userCurrentGroups userId s) s).
Proof.
  apply Forall_forall. intros d Hd.
  apply userEligibleGroups_elem in Hd as (g & Hg & -> & Hel).
  apply eligibles_spec in Hel as (Hcur & _).
  intros (m & Hin & Hfrom & Hto). apply Hcur.
  apply userCurrentGroups_spec. by exists m.
Qed.

(** The counts of the two queries and the lists of [isEligible], when no
    user has two memberships in a group. *)
Lemma counts_are_members userId groupId s :
  user_ids_ok s →
  one_edge_per_pair (usersInGroups s) →
  length (groupMembers groupId false s) = total ("groups/" +:+ groupId) s
  ∧ length (intersection (userConnections userId s)
              (groupMembers groupId false s))
    = matching (userConnectionsRaw userId s) ("groups/" +:+ groupId) s.
Proof.
  intros Hok Hone.
  pose proof (one_edge_per_pair_from ("groups/" +:+ groupId) _ Hone) as Hnd.
  set (L := filter (λ m, e_to m = "groups/" +:+ groupId) (usersInGroups s))
    in *.
  assert (Forall is_user (e_from <$> L)) as Husers.
  { apply Forall_forall. intros id (m & -> & Hm)%list_elem_of_fmap.
    unfold L in Hm. apply list_elem_of_filter in Hm as [_ Hm].
    by apply (proj1 (proj2 Hok)). }
  split.
  - unfold groupMembers, total. fold L.
    rewrite length_fmap, <- (length_fmap e_from L).
    apply Permutation_length, NoDup_Permutation;
      [apply NoDup_DISTINCT|done|].
    intros x. apply elem_of_DISTINCT.
  - unfold matching.
    rewrite <- (list_filter_filter (λ m, e_from m ∈ userConnectionsRaw userId s)
                  (λ m, e_to m = "groups/" +:+ groupId)).
    fold L.
    transitivity
      (length ((λ u, replace "users/" "" u)
                 <$> (e_from
                        <$> filter (λ m, e_from m
                                         ∈ userConnectionsRaw userId s) L)));
      [|by rewrite !length_fmap].
    destruct (intersection_spec (userConnections userId s)
                (groupMembers groupId false s)) as [Hi1 Hi2].
    destruct (userConnections_spec userId s Hok) as [_ Hc].
    destruct (groupMembers_spec groupId s Hok) as [_ Hm].
    assert (Forall is_user
              (e_from <$> filter (λ m, e_from m ∈ userConnectionsRaw userId s)
                            L)) as Husers'.
    { apply Forall_forall. intros id (m & -> & Hin)%list_elem_of_fmap.
      apply list_elem_of_filter in Hin as [_ Hin].
      rewrite Forall_forall in Husers. apply Husers.
      by apply list_elem_of_fmap_2. }
    apply Permutation_length, NoDup_Permutation; [done| |].
    + apply NoDup_strip; [done|].
      apply (sublist_NoDup _ (e_from <$> L)); [exact Hnd|].
      apply fmap_sublist, sublist_filter.
    + intros x. rewrite Hi2, Hc, Hm, elem_of_strip by done.
      rewrite list_elem_of_fmap. setoid_rewrite list_elem_of_filter.
      unfold L. setoid_rewrite list_elem_of_filter.
      setoid_rewrite userConnectionsRaw_spec. unfold connected, member_of.
      split.
      * intros [(c & Hcin & Hj) (m & Hmin & Hfrom & Hto)]. exists m.
        split_and!; try done. exists c. by rewrite Hfrom.
      * intros (m & Hfrom & (c & Hcin & Hj) & Hto & Hmin). split.
        -- exists c. by rewrite Hfrom.
        -- by exists m.
Qed.

(** X12. When no user has two memberships in one group, a group that
    [userEligibleGroups] returns for a user and the user's connections is
    one the user is eligible for, and the user's join of it is accepted. *)
Theorem discovered_group_can_be_joined (userId : string)
    (currentGroups : list string) (s : store) (id : string) (timestamp : Z) :
  user_ids_ok s →
  one_edge_per_pair (usersInGroups s) →
  id ∈ gd_id <$> userEligibleGroups userId (userConnectionsRaw userId s)
                   currentGroups s →
  isEligible id userId s = true
  ∧ addMembership id userId timestamp s
    = Ok tt (insert_edge usersInGroupsColl ("users/" +:+ userId)
               ("groups/" +:+ id) timestamp s).
Proof.
  intros Hok Hone (d & -> & Hd)%list_elem_of_fmap.
  apply userEligibleGroups_elem in Hd as (g & Hg & -> & Hel).
  apply eligibles_spec in Hel as (_ & Hn & Hhalf).
  destruct (counts_are_members userId (g_key g) s Hok Hone) as [Ht Hm].
  assert (isEligible (g_key g) userId s = true) as Helig.
  { unfold isEligible. cbn zeta. rewrite Ht, Hm.
    apply bool_decide_eq_true_2. unfold group_id in *. lia. }
  split; [done|]. rewrite addMembership_eq.
  destruct (filter (λ i, g_key i = g_key g) (groups s)) as [|g0 rest] eqn:Hf.
  - by destruct (filter_nil_not_elem_of _ _ g Hf).
  - by rewrite Helig.
Qed.

Lemma discovered_group_can_be_joined_witness :
  isEligible "G" "v" four_members = true
  ∧ addMembership "G" "v" 10 four_members
    = Ok tt (insert_edge usersInGroupsColl "users/v" "groups/G" 10
               four_members).
Proof.
  apply (discovered_group_can_be_joined "v" [] four_members "G" 10).
  - apply user_ids_okb_correct. reflexivity.
  - unfold one_edge_per_pair. vm_compute.
    repeat (apply NoDup_cons; split;
            [intros H; in_cases H; discriminate H|]).
    apply NoDup_nil_2.
  - vm_compute. left.
Defined.

(** ** Users *)

Lemma loadUser_None key s : key ∉ u_key <$> users s → loadUser key s = None.
Proof.
  intros Hnot. destruct (loadUser key s) eqn:Hl; [|done].
  destruct Hnot. apply loadUser_is_Some. by eexists.
Qed.

(** X13. A user created under a key that was free is found again:
    [loadUser] returns the user with score 0, [userScore] returns 0,
    [loadUsers] of the user's identifier returns the one record; and the
    lookups of every other key answer as before. *)
Theorem createUser_then_load (key : string) (s : store) :
  key ∉ u_key <$> users s →
  let s' := store_of (createUser key s) in
  loadUser key s' = Some (User key 0)
  ∧ userScore key s' = Some 0%Z
  ∧ loadUsers ["users/" +:+ key] s' = [UserDic ("users/" +:+ key) 0]
  ∧ (∀ k, k ≠ key →
          loadUser k s' = loadUser k s ∧ userScore k s' = userScore k s).
Proof.
  intros Hfree s'.
  assert (s' = set_users (users s ++ [User key 0]) s) as ->.
  { unfold s', createUser, mbind, M_bind, bind, gets.
    by rewrite (loadUser_None key s Hfree). }
  assert (filter (λ u, u_key u = key) (users s) = []) as Hnone.
  { apply filter_none. intros u Hin Hk. apply Hfree. rewrite <- Hk.
    by apply list_elem_of_fmap_2. }
  unfold loadUser, userScore, loadUsers. simpl. split_and!.
  - rewrite filter_app, Hnone. by rewrite filter_cons_True.
  - rewrite filter_app, Hnone. by rewrite filter_cons_True.
  - rewrite filter_app, filter_none.
    + rewrite filter_cons_True; [done|]. left.
    + intros u Hin Hid%list_elem_of_singleton. apply users_inj in Hid.
      apply Hfree. rewrite <- Hid. by apply list_elem_of_fmap_2.
  - intros k Hk. rewrite filter_app, filter_cons_False, app_nil_r; [done|].
    simpl. congruence.
Qed.

Lemma createUser_then_load_witness :
  loadUser "a" (store_of (createUser "a" one_group)) = Some (User "a" 0)
  ∧ userScore "a" (store_of (createUser "a" one_group)) = Some 0%Z
  ∧ loadUsers ["users/a"] (store_of (createUser "a" one_group))
    = [UserDic "users/a" 0]
  ∧ (∀ k, k ≠ "a" →
          loadUser k (store_of (createUser "a" one_group))
          = loadUser k one_group
          ∧ userScore k (store_of (createUser "a" one_group))
            = userScore k one_group).
Proof.
  apply (createUser_then_load "a" one_group).
  vm_compute. apply not_elem_of_nil.
Defined.

Lemma users_exec_NoDup o s :
  NoDup (u_key <$> users s) → NoDup (u_key <$> users (exec s o)).
Proof.
  intros Hnd. destruct o; cbn [exec].
  - change (addConnection key1 key2 timestamp)
      with (perform (Call ConnectionEdge key1 key2 timestamp)).
    rewrite perform_eq. simpl. by destruct (_ && _).
  - change (removeConnection key1 key2 timestamp)
      with (perform (Call RemovalEdge key1 key2 timestamp)).
    rewrite perform_eq. simpl. by destruct (_ && _).
  - unfold createUser, mbind, M_bind, bind, gets, throw.
    destruct (loadUser key s) eqn:Hl; [done|]. simpl.
    rewrite fmap_app. apply NoDup_app. split_and!; [done| |].
    + intros x Hx Hx'%list_elem_of_singleton. simpl in Hx'. subst x.
      apply loadUser_is_Some in Hx as [u Hu]. congruence.
    + apply NoDup_singleton.
  - rewrite createGroup_eq.
    destruct (_ || _); [done|]. destruct (_ || _); [done|].
    by destruct (decide _).
  - rewrite deleteGroup_eq. destruct (filter _ _); [done|].
    by destruct (bool_decide _).
  - rewrite addMembership_eq.
    destruct (filter _ (groups s)) as [|g0 rest0].
    + destruct (filter _ (newGroups s)) as [|forming rest]; [done|].
      destruct (bool_decide _); [done|]. cbn zeta.
      destruct (bool_decide _); [|done]. cbn [store_of].
      by rewrite (proj1 (proj2 (proj2 (promoted_frame _ _ _)))).
    + by destruct (isEligible _ _ _).
  - done.
  - done.
Qed.

(** X14. In every store reached from the empty one the keys of the users
    are unique, and [loadUsers] returns no identifier twice. *)
Theorem user_keys_unique (ops : list op) (ids : list string) :
  NoDup (u_key <$> users (run ops empty_store))
  ∧ NoDup (ud_key <$> loadUsers ids (run ops empty_store)).
Proof.
  assert (∀ s, NoDup (u_key <$> users s) → NoDup (u_key <$> users (run ops s)))
    as Hgen.
  { induction ops as [|o ops IH]; intros s Hnd; [done|].
    simpl. by apply IH, users_exec_NoDup. }
  pose proof (Hgen empty_store (NoDup_nil_2)) as Hnd. split; [done|].
  unfold loadUsers. rewrite <- list_fmap_compose.
  apply NoDup_fmap_2_strong.
  - intros u1 u2 [_ H1]%list_elem_of_filter [_ H2]%list_elem_of_filter Heq.
    simpl in Heq. apply users_inj in Heq.
    by apply (NoDup_fmap_eq u_key (users (run ops empty_store))).
  - apply NoDup_filter. eapply NoDup_fmap_1. done.
Qed.

(** ** Sponsorships, read back *)

(** X15. After [sponsor(key, context)] the user is sponsored, and
    [getContext] reports one unused sponsorship less for the context and
    the same number for every other context; who else is sponsored is as
    before.  [getContext] of a context that does not exist throws. *)
Theorem sponsor_then_read (key ctx : string) (s : store) (c : context) :
  head (filter (λ c, ctx_key c = ctx) (contexts s)) = Some c →
  let s' := store_of (sponsor key ctx s) in
  isSponsored key s' = true
  ∧ (∀ k, k ≠ key → isSponsored k s' = isSponsored k s)
  ∧ (∃ unused,
       getContext ctx s = Ok (ContextDic c unused) s
       ∧ getContext ctx s' = Ok (ContextDic c (unused - 1)) s')
  ∧ (∀ other, other ≠ ctx →
       cd_unusedSponsorships <$> (match getContext other s' with
                                  | Ok d _ => Some d | Throw _ _ => None end)
       = cd_unusedSponsorships <$> (match getContext other s with
                                    | Ok d _ => Some d | Throw _ _ => None end))
  ∧ (∀ missing s0, missing ∉ ctx_key <$> contexts s0 →
       is_ok (getContext missing s0) = false).
Proof.
  intros Hc s'. split_and!.
  - unfold isSponsored. simpl. apply bool_decide_eq_true_2.
    rewrite filter_app, filter_cons_True by done.
    destruct (filter _ (sponsorships s)); simpl; lia.
  - intros k Hk. unfold isSponsored. simpl.
    rewrite filter_app, filter_cons_False, app_nil_r; [done|].
    simpl. intros Heq. by apply users_inj in Heq.
  - eexists. unfold getContext, mbind, M_bind, bind, gets. simpl.
    rewrite Hc. split; [done|]. simpl. do 2 f_equal.
    rewrite filter_app, filter_cons_True by done.
    rewrite length_app. simpl. lia.
  - intros other Hother.
    unfold getContext, mbind, M_bind, bind, gets, mret, M_ret, ret, throw.
    simpl. rewrite filter_app, filter_cons_False, app_nil_r.
    + clear Hc. by destruct (head (filter _ (contexts s))).
    + simpl. intros Heq. apply Hother.
      assert ("contexts/" +:+ ctx = "contexts/" +:+ other) as H by done.
      by simplify_eq/=.
  - intros missing s0 Hmissing. unfold getContext, mbind, M_bind, bind, gets.
    rewrite filter_none; [done|]. intros c0 Hin Hk. apply Hmissing.
    rewrite <- Hk. by apply list_elem_of_fmap_2.
Qed.

Lemma sponsor_then_read_witness :
  let s := Store [] [] [] [] [] [] [] [Context "app" 2 "appIds"] [] 0 in
  isSponsored "u" (store_of (sponsor "u" "app" s)) = true
  ∧ getContext "app" (store_of (sponsor "u" "app" s))
    = Ok (ContextDic (Context "app" 2 "appIds") 1)
        (store_of (sponsor "u" "app" s)).
Proof.
  intros s.
  destruct (sponsor_then_read "u" "app" s (Context "app" 2 "appIds") eq_refl)
    as (H1 & _ & (unused & Hbefore & Hafter) & _).
  split; [exact H1|].
  vm_compute in Hbefore. injection Hbefore as <-. exact Hafter.
Defined.

(** ** The request handlers *)

Section handler_facts.

Variable verify : string → string → string → bool.

Lemma check_sig_None message sig key msg :
  check_sig verify message sig key msg = None.
Proof. done. Qed.

(** X17. Each of the six handlers that write refuses, with status 400 and
    without touching the store, a request whose timestamp is more than
    3 600 000 milliseconds ahead of the clock. *)
Theorem future_timestamp_refused (now : Z) (s : store) :
  let refused := (HttpError 400 "timestamp can't be in the future", s) in
  (∀ req, (now + 3600000 < cp_timestamp req)%Z →
          connectionsPut verify now req s = refused)
  ∧ (∀ req, (now + 3600000 < cd_timestamp req)%Z →
            connectionsDelete verify now req s = refused)
  ∧ (∀ req, (now + 3600000 < mb_timestamp req)%Z →
            membershipPut verify now req s = refused
            ∧ membershipDelete verify now req s = refused
            ∧ groupsDelete verify now req s = refused)
  ∧ (∀ req randomId, (now + 3600000 < gp_timestamp req)%Z →
            groupsPost verify now req randomId s = refused).
Proof.
  intros refused. unfold connectionsPut, connectionsDelete, membershipPut,
    membershipDelete, groupsDelete, groupsPost, TIME_FUDGE.
  split_and!; intros; rewrite ?bool_decide_eq_true_2 by done; done.
Qed.


(** X18. Signatures are not checked: [DEBUG] is on, so whatever
    [verify] answers and whatever signatures a request carries, a request
    whose timestamp is let through is answered by the call of the data
    layer alone, a throw of which becomes status 403 with its message. *)
Theorem signatures_are_not_checked (now : Z) (s : store) :
  (∀ req, (cp_timestamp req ≤ now + 3600000)%Z →
     connectionsPut verify now req s
     = (Sent NoBody,
        store_of (addConnection (cp_publicKey1 req) (cp_publicKey2 req)
                    (cp_timestamp req) s)))
  ∧ (∀ req, (cd_timestamp req ≤ now + 3600000)%Z →
       connectionsDelete verify now req s
       = (Sent NoBody,
          store_of (removeConnection (cd_publicKey1 req) (cd_publicKey2 req)
                      (cd_timestamp req) s)))
  ∧ (∀ req, (mb_timestamp req ≤ now + 3600000)%Z →
       membershipPut verify now req s
       = answer (addMembership (mb_group req) (mb_publicKey req)
                   (mb_timestamp req) s) (λ _, EmptyObject)
       ∧ membershipDelete verify now req s
         = answer (deleteMembership (mb_group req) (mb_publicKey req)
                     (mb_timestamp req) s) (λ _, EmptyObject)
       ∧ groupsDelete verify now req s
         = answer (deleteGroup (mb_group req) (mb_publicKey req)
                     (mb_timestamp req) s) (λ _, EmptyObject))
  ∧ (∀ req randomId, (gp_timestamp req ≤ now + 3600000)%Z →
       groupsPost verify now req randomId s
       = answer (createGroup (gp_publicKey1 req) (gp_publicKey2 req)
                   (gp_publicKey3 req) (gp_timestamp req) randomId s)
           (λ group, GroupData (g_key group) 0 true)).
Proof.
  unfold connectionsPut, connectionsDelete, membershipPut,
    membershipDelete, groupsDelete, groupsPost, TIME_FUDGE, answer.
  split_and!; intros;
    rewrite ?bool_decide_eq_false_2 by lia; by rewrite ?check_sig_None.
Qed.


Lemma answer_refusal_keeps {A} (r : result A) (b : A → body) s :
  match r with Throw _ s' => s' = s | Ok _ _ => True end →
  refusal_keeps (answer r b) s.
Proof. by destruct r. Qed.

(** X19. A request that a handler answers with an error, be it status
    400 or 403, has changed nothing in the store. *)
Theorem refused_request_changes_nothing (now : Z) (s : store) :
  (∀ req, refusal_keeps (connectionsPut verify now req s) s)
  ∧ (∀ req, refusal_keeps (connectionsDelete verify now req s) s)
  ∧ (∀ req, refusal_keeps (membershipPut verify now req s) s)
  ∧ (∀ req, refusal_keeps (membershipDelete verify now req s) s)
  ∧ (∀ req, refusal_keeps (groupsDelete verify now req s) s)
  ∧ (∀ req randomId, refusal_keeps (groupsPost verify now req randomId s) s).
Proof.
  unfold connectionsPut, connectionsDelete, membershipPut,
    membershipDelete, groupsDelete, groupsPost.
  split_and!; intros; case_bool_decide; try done;
    rewrite ?check_sig_None; try done; apply answer_refusal_keeps.
  - apply addMembership_throw_keeps.
  - apply deleteGroup_throw_keeps.
  - apply createGroup_throw_keeps.
Qed.

End handler_facts.

Lemma future_timestamp_refused_witness :
  membershipPut (λ _ _ _, false) 1000 (MembershipBody "b" "G1" "" 3601001) one_group
  = (HttpError 400 "timestamp can't be in the future", one_group).
Proof.
  apply (future_timestamp_refused (λ _ _ _, false) 1000 one_group). simpl. lia.
Defined.

Lemma signatures_are_not_checked_witness :
  membershipPut (λ _ _ _, false) 1000 (MembershipBody "d" "G1" "no signature" 2000)
    one_group
  = (HttpError 403 "Access denied", one_group).
Proof.
  destruct (signatures_are_not_checked (λ _ _ _, false) 1000 one_group) as (_ & _ & H & _).
  destruct (H (MembershipBody "d" "G1" "no signature" 2000)) as (-> & _).
  - simpl. lia.
  - reflexivity.
Defined.

(** ** Writing and reading account links *)

Lemma set_timestamp_keys user id timestamp collection :
  l_key <$> set_timestamp user id timestamp collection = l_key <$> collection
  ∧ link_pair <$> set_timestamp user id timestamp collection
    = link_pair <$> collection
  ∧ length (set_timestamp user id timestamp collection) = length collection.
Proof.
  induction collection as [|m collection (IH1 & IH2 & IH3)]; [done|].
  simpl. destruct (decide _) as [[Hu Ha]|_].
  - done.
  - rewrite !fmap_cons. simpl. by rewrite IH1, IH2, IH3.
Qed.

Lemma set_timestamp_elem user id timestamp collection l :
  NoDup (link_pair <$> collection) →
  l ∈ set_timestamp user id timestamp collection
  ↔ (∃ m, m ∈ collection ∧ l_user m = user ∧ l_account m = id
          ∧ l = Link (l_key m) user id timestamp)
    ∨ (l ∈ collection ∧ ¬ (l_user l = user ∧ l_account l = id)).
Proof.
  induction collection as [|m collection IH]; intros Hnd.
  - simpl. split; [by intros ?%elem_of_nil|].
    intros [(m & Hm%elem_of_nil & _)|[Hl%elem_of_nil _]]; done.
  - rewrite fmap_cons in Hnd. apply NoDup_cons in Hnd as [Hm Hnd].
    simpl. destruct (decide _) as [[Hu Ha]|Hno].
    + assert (∀ x, x ∈ collection → ¬ (l_user x = user ∧ l_account x = id))
        as Hrest.
      { intros x Hx [Hxu Hxa]. apply Hm.
        apply list_elem_of_fmap. exists x. split; [|done].
        unfold link_pair. by rewrite Hu, Ha, Hxu, Hxa. }
      rewrite !elem_of_cons. split.
      * intros [->|Hin].
        -- left. exists m. rewrite Hu, Ha. split_and!; try done. by left.
        -- right. split; [by right|by apply Hrest].
      * intros [(m0 & [->|Hin]%elem_of_cons & Hmu & Hma & ->)|[[->|Hin] Hn]].
        -- left. by rewrite Hu, Ha.
        -- by destruct (Hrest m0 Hin).
        -- by destruct Hn.
        -- by right.
    + rewrite !elem_of_cons, (IH Hnd). split.
      * intros [->|[(m0 & Hin & Hmu & Hma & ->)|[Hin Hn]]].
        -- right. split; [by left|done].
        -- left. exists m0. split_and!; try done. by right.
        -- right. split; [by right|done].
      * intros [(m0 & [->|Hin]%elem_of_cons & Hmu & Hma & ->)|[[->|Hin] Hn]].
        -- by destruct Hno.
        -- right. left. by exists m0.
        -- by left.
        -- right. right. done.
Qed.

(** The timestamp [latestVerificationByUser] returns is the greatest of
    the user's links. *)
Lemma latestVerificationByUser_max collection user :
  match latestVerificationByUser collection user with
  | None => ∀ l, l ∈ collection → l_user l ≠ user
  | Some t =>
      (∃ l, l ∈ collection ∧ l_user l = user ∧ l_timestamp l = t)
      ∧ ∀ l, l ∈ collection → l_user l = user → (l_timestamp l ≤ t)%Z
  end.
Proof.
  unfold latestVerificationByUser.
  pose proof (merge_sort_Permutation link_desc
                (filter (λ m, l_user m = user) collection)) as Hperm.
  pose proof (StronglySorted_merge_sort link_desc
                (filter (λ m, l_user m = user) collection)) as Hsort.
  destruct (merge_sort link_desc _) as [|x rest]; simpl.
  - intros l Hin Hu.
    assert (l ∈ []) as Hl by (rewrite Hperm; by apply list_elem_of_filter).
    by apply not_elem_of_nil in Hl.
  - assert (x ∈ filter (λ m, l_user m = user) collection) as Hx
      by (rewrite <- Hperm; left).
    apply list_elem_of_filter in Hx as [Hu Hin]. split; [by exists x|].
    intros l Hl Hlu.
    assert (l ∈ x :: rest) as Hmem
      by (rewrite Hperm; by apply list_elem_of_filter).
    apply elem_of_cons in Hmem as [->|Hmem]; [done|].
    apply StronglySorted_inv in Hsort as [_ Hall].
    rewrite Forall_forall in Hall. apply (Hall l Hmem).
Qed.

(** X20. [latestVerificationByUser] returns nothing exactly for a user
    without links, and otherwise the greatest timestamp of the user's
    links, which one of them carries. *)
Theorem latestVerificationByUser_spec (collection : list link)
    (user : string) :
  (latestVerificationByUser collection user = None
   ↔ ∀ l, l ∈ collection → l_user l ≠ user)
  ∧ (∀ t, latestVerificationByUser collection user = Some t →
          (∃ l, l ∈ collection ∧ l_user l = user ∧ l_timestamp l = t)
          ∧ ∀ l, l ∈ collection → l_user l = user → (l_timestamp l ≤ t)%Z).
Proof.
  pose proof (latestVerificationByUser_max collection user) as H.
  destruct (latestVerificationByUser collection user) as [t|].
  - split.
    + split; [done|]. intros Hnone.
      destruct H as [(l & Hin & Hu & _) _]. by destruct (Hnone l Hin).
    + by intros t' [= <-].
  - split; [done|]. by intros t [=].
Qed.

Lemma latestVerificationByUser_spec_witness :
  (∃ l, l ∈ links_moved_on ∧ l_user l = "V" ∧ l_timestamp l = 3%Z)
  ∧ ∀ l, l ∈ links_moved_on → l_user l = "V" → (l_timestamp l ≤ 3)%Z.
Proof.
  by apply (proj2 (latestVerificationByUser_spec links_moved_on "V") 3%Z).
Defined.

(** X21. [addId] keeps one link for a user and an account: where the
    user has linked the account the link gets the new timestamp and no
    link is added, otherwise one link is added under the new key.  Keys
    stay unique, the links of other users and accounts are untouched, and
    when the timestamp is not below those of the user's links,
    [latestVerificationByUser] returns it afterwards. *)
Theorem addId_upsert (collection : list link) (newKey : N)
    (id user : string) (timestamp : Z) :
  NoDup (link_pair <$> collection) →
  NoDup (l_key <$> collection) →
  newKey ∉ l_key <$> collection →
  let collection' := addId collection newKey id user timestamp in
  NoDup (link_pair <$> collection')
  ∧ NoDup (l_key <$> collection')
  ∧ (∃ k, Link k user id timestamp ∈ collection')
  ∧ (∀ l, l ∈ collection' → l_user l = user → l_account l = id →
          l_timestamp l = timestamp)
  ∧ (∀ l, ¬ (l_user l = user ∧ l_account l = id) →
          l ∈ collection' ↔ l ∈ collection)
  ∧ (linked collection user id → length collection' = length collection)
  ∧ (¬ linked collection user id →
     length collection' = S (length collection))
  ∧ ((∀ l, l ∈ collection → l_user l = user →
           (l_timestamp l ≤ timestamp)%Z) →
     latestVerificationByUser collection' user = Some timestamp).
Proof.
  intros Hpairs Hkeys Hfresh collection'.
  assert (linked collection user id
          ↔ Exists (λ m, l_user m = user ∧ l_account m = id) collection)
    as Hlinked.
  { rewrite Exists_exists. unfold linked. split.
    - intros (l & ? & ? & ?). by exists l.
    - intros (l & ? & ? & ?). by exists l. }
  assert (NoDup (link_pair <$> collection')
          ∧ NoDup (l_key <$> collection')
          ∧ (∃ k, Link k user id timestamp ∈ collection')
          ∧ (∀ l, l ∈ collection' → l_user l = user → l_account l = id →
                  l_timestamp l = timestamp)
          ∧ (∀ l, ¬ (l_user l = user ∧ l_account l = id) →
                  l ∈ collection' ↔ l ∈ collection)
          ∧ (linked collection user id →
             length collection' = length collection)
          ∧ (¬ linked collection user id →
             length collection' = S (length collection))) as Hmain.
  { unfold collection', addId. destruct (decide (Exists _ _)) as [Hex|Hex].
    - destruct (set_timestamp_keys user id timestamp collection)
        as (Hk & Hp & Hlen).
      rewrite Hk, Hp, Hlen.
      split_and!; try done.
      + apply Exists_exists in Hex as (m & Hin & Hu & Ha).
        exists (l_key m). apply set_timestamp_elem; [done|].
        left. by exists m.
      + intros l Hl Hu Ha. apply set_timestamp_elem in Hl; [|done].
        destruct Hl as [(m & _ & _ & _ & ->)|[_ Hn]]; [done|].
        by destruct Hn.
      + intros l Hn. rewrite set_timestamp_elem by done. split.
        * intros [(m & _ & _ & _ & ->)|[? _]]; [by destruct Hn|done].
        * intros Hin. by right.
      + intros Hn. destruct Hn. by apply Hlinked.
    - rewrite !fmap_app, length_app. simpl.
      split_and!.
      + apply NoDup_app. split_and!; [done| |apply NoDup_singleton].
        intros p (m & -> & Hin)%list_elem_of_fmap Hp%list_elem_of_singleton.
        apply Hex, Exists_exists. exists m. by injection Hp as -> ->.
      + apply NoDup_app. split_and!; [done| |apply NoDup_singleton].
        intros k Hk ->%list_elem_of_singleton. done.
      + exists newKey. apply elem_of_app. right. left.
      + intros l [Hin|Hin%list_elem_of_singleton]%elem_of_app Hu Ha.
        * destruct Hex. apply Exists_exists. by exists l.
        * by subst l.
      + intros l Hn. rewrite elem_of_app, list_elem_of_singleton. split.
        * intros [?| ->]; [done|]. by destruct Hn.
        * by left.
      + intros Hl. destruct Hex. by apply Hlinked.
      + lia. }
  destruct Hmain as (H1 & H2 & H3 & H4 & H5 & H6 & H7).
  split_and!; try done.
  intros Hmax.
  pose proof (latestVerificationByUser_max collection' user) as Hl.
  destruct H3 as [k Hk].
  destruct (latestVerificationByUser collection' user) as [t|].
  - destruct Hl as [(l & Hin & Hu & Ht) Hall]. f_equal.
    pose proof (Hall _ Hk eq_refl) as Hge. simpl in Hge.
    destruct (decide (l_account l = id)) as [Ha|Ha].
    + rewrite <- Ht. by apply H4.
    + assert (l ∈ collection) as Hold by (apply H5; [tauto|done]).
      specialize (Hmax l Hold Hu). lia.
  - by destruct (Hl _ Hk).
Qed.

Lemma addId_upsert_witness :
  length (addId links_relied_on 9 "X" "V" 7) = 3
  ∧ latestVerificationByUser (addId links_relied_on 9 "X" "V" 7) "V"
    = Some 7%Z.
Proof.
  assert (NoDup (link_pair <$> links_relied_on)) as Hp.
  { repeat (apply NoDup_cons; split;
            [intros H; in_cases H; discriminate H|]).
    apply NoDup_nil_2. }
  assert (NoDup (l_key <$> links_relied_on)) as Hk.
  { repeat (apply NoDup_cons; split;
            [intros H; in_cases H; discriminate H|]).
    apply NoDup_nil_2. }
  assert (9%N ∉ l_key <$> links_relied_on) as Hf.
  { intros H. in_cases H; discriminate H. }
  destruct (addId_upsert links_relied_on 9 "X" "V" 7 Hp Hk Hf)
    as (_ & _ & _ & _ & _ & Hlen & _ & Hlatest).
  split.
  - rewrite Hlen; [done|].
    exists (Link 3 "V" "X" 1). split; [|done]. right. right. left.
  - apply Hlatest. intros l Hl Hu. unfold links_relied_on in Hl.
    in_cases Hl; simpl in *; try lia; discriminate Hu.
Defined.
